(** * github-star-counts: the adaptive star-range search, verified

    A shallow embedding of the three fetch scripts of the repository

      - [fetch-repos-stars.js]        (module [FetchReposStars])
      - the 500000-ceiling script     (module [Part000], shrink loop only)
      - the 364000-ceiling script     (module [Part001])

    JavaScript numbers that hold star counts, totals and steps are
    integers well inside the exact range of a double and are modelled as
    [Z]; the one number the scripts compute by a division, the delay they
    hand to the timer, is an IEEE 754 double ([Number]).  Strings are sequences of code units ([list ascii]); the [Link]
    header is a byte string, so every code unit fits an [ascii].  The
    network, the clock and the [URL] parser are collaborators of the
    program and are gathered in a record [Env]; every function of the
    scripts that awaits one of them is written in a state-and-exception
    monad over the state of that environment.  Loops that the scripts
    write as [while] are given fuel. *)

From Stdlib Require Import ZArith List Bool Ascii String Lia.
From Stdlib Require Import Permutation Sorted DecimalString SpecFloat.
Import ListNotations.
Open Scope Z_scope.

(** ** JavaScript strings *)

Module Js.

Definition jsstring := list ascii.

Definition str (s : string) : jsstring := list_ascii_of_string s.

Definition jsstring_eqb (a b : jsstring) : bool :=
  if list_eq_dec ascii_dec a b then true else false.

(** The double quote, written by its code. *)
Definition dquote : ascii := "034"%char.

(** [String(n)] for an integer [n]. *)
Definition String_of_number (n : Z) : jsstring :=
  str (NilZero.string_of_int (Z.to_int n)).

(** White space as [String.prototype.trim] sees it among the code units
    0..255: TAB, LF, VT, FF, CR, SPACE and NBSP. *)
Definition is_white_space (c : ascii) : bool :=
  let n := nat_of_ascii c in
  (Nat.eqb n 9 || Nat.eqb n 10 || Nat.eqb n 11 || Nat.eqb n 12
   || Nat.eqb n 13 || Nat.eqb n 32 || Nat.eqb n 160)%bool.

Fixpoint trimStart (s : jsstring) : jsstring :=
  match s with
  | [] => []
  | c :: r => if is_white_space c then trimStart r else s
  end.

Definition trimEnd (s : jsstring) : jsstring := rev (trimStart (rev s)).

Definition trim (s : jsstring) : jsstring := trimEnd (trimStart s).

(** [s.split(sep)] for a separator of one code unit. *)
Fixpoint split (sep : ascii) (s : jsstring) : list jsstring :=
  match s with
  | [] => [[]]
  | c :: r =>
      if Ascii.eqb c sep then [] :: split sep r
      else match split sep r with
           | [] => [[c]]
           | p :: ps => (c :: p) :: ps
           end
  end.

(** [s.slice(1, -1)]. *)
Definition slice_1_m1 (s : jsstring) : jsstring := removelast (tl s).

(** Truthiness of a string: the empty string is falsy. *)
Definition truthy (s : jsstring) : bool :=
  match s with [] => false | _ :: _ => true end.

(** A number that need not be an integer: a double, with 53 bits of
    precision and exponents up to 1024, rounded to nearest, ties to
    even. *)
Definition Number : Type := spec_float.

(** The double nearest to an integer (the integer itself up to 2^53). *)
Definition Number_of_integer (z : Z) : Number :=
  binary_normalize 53 1024 z 0 false.

(** [x / y] and [x * y]. *)
Definition Number_div (x y : Number) : Number := SFdiv 53 1024 x y.

Definition Number_mul (x y : Number) : Number := SFmul 53 1024 x y.

(** [x < y]. *)
Definition Number_lt (x y : Number) : bool := SFltb x y.

(** The whole part of a number, towards zero; 0 for what is not
    finite. *)
Definition whole_part (x : Number) : Z :=
  match x with
  | S754_finite sign m e =>
      let magnitude := Z.shiftl (Zpos m) e in
      if sign then - magnitude else magnitude
  | _ => 0
  end.

End Js.
Import Js.

(** ** Data model *)

(** An item of the search response, with the fields the scripts read. *)
Module RawItem.
Record t : Type := mk {
  id : Z;
  full_name : jsstring;
  html_url : jsstring;
  description : option jsstring;
  language : option jsstring;
  archived : bool;
  disabled : bool;
  visibility : jsstring;
  forks_count : Z;
  stargazers_count : Z;
  watchers_count : Z;
  open_issues_count : Z;
  topics : list jsstring;
  contributors_url : jsstring
}.
End RawItem.

(** The object literal built by [filterResponseData]. *)
Module Repo.
Record t : Type := mk {
  github_id : Z;
  full_name : jsstring;
  html_url : jsstring;
  description : option jsstring;
  language : option jsstring;
  forks : Z;
  stars : Z;
  watchers : Z;
  open_issues : Z;
  topics : list jsstring;
  contributors_url : jsstring
}.
End Repo.

(** [resources.search] of the rate-limit response. *)
Record RateLimit : Type := mkRateLimit {
  limit : Z;
  remaining : Z;
  reset : Z
}.

(** A parsed JSON body, seen through the three properties the scripts
    read; [None] is [undefined]. *)
Record Body : Type := mkBody {
  total_count : option Z;
  items : option (list RawItem.t);
  resources_search : option RateLimit
}.

(** The object literal [{}]. *)
Definition empty_object : Body := mkBody None None None.

(** What [await fetch(url, settings)] gives: a rejection, or a response
    whose [json()] rejects ([None]) or yields a body, and whose
    [headers.get('Link')] is [null] ([None]) or a string. *)
Inductive Response : Type :=
| NetworkError
| HttpResponse (json : option Body) (link : option jsstring).

(** ** filterResponseData *)

(** The callback of [items.filter]. *)
Definition keep (item : RawItem.t) : bool :=
  negb (RawItem.archived item) && negb (RawItem.disabled item)
  && jsstring_eqb (RawItem.visibility item) (str "public").

(** The callback of [filteredRepos.map]. *)
Definition project (item : RawItem.t) : Repo.t :=
  {| Repo.github_id := RawItem.id item;
     Repo.full_name := RawItem.full_name item;
     Repo.html_url := RawItem.html_url item;
     Repo.description := RawItem.description item;
     Repo.language := RawItem.language item;
     Repo.forks := RawItem.forks_count item;
     Repo.stars := RawItem.stargazers_count item;
     Repo.watchers := RawItem.watchers_count item;
     Repo.open_issues := RawItem.open_issues_count item;
     Repo.topics := RawItem.topics item;
     Repo.contributors_url := RawItem.contributors_url item |}.

(** [filterResponseData(responseJson)]; [None] is the [TypeError] raised
    by [responseJson.items.filter] when [items] is [undefined]. *)
Definition filterResponseData (responseJson : Body) : option (list Repo.t) :=
  match items responseJson with
  | None => None
  | Some its => Some (map project (filter keep its))
  end.

(** The filter rule in the words of the specification: an item is emitted
    when it is not archived, not disabled and publicly visible. *)
Definition emitted (item : RawItem.t) : Prop :=
  RawItem.archived item = false /\ RawItem.disabled item = false
  /\ RawItem.visibility item = str "public".

(** Normalization in the words of the specification: walk the batch in
    order, emit the projection of each emitted item, drop the others. *)
Inductive Normalizes : list RawItem.t -> list Repo.t -> Prop :=
| norm_nil : Normalizes [] []
| norm_emit item its out :
    emitted item -> Normalizes its out ->
    Normalizes (item :: its)
      (Repo.mk (RawItem.id item) (RawItem.full_name item)
         (RawItem.html_url item) (RawItem.description item)
         (RawItem.language item) (RawItem.forks_count item)
         (RawItem.stargazers_count item) (RawItem.watchers_count item)
         (RawItem.open_issues_count item) (RawItem.topics item)
         (RawItem.contributors_url item) :: out)
| norm_drop item its out :
    ~ emitted item -> Normalizes its out -> Normalizes (item :: its) out.

(** ** The partition axis *)

(** The inclusive star range written [`${low}..${high}`] by the scripts. *)
Record ScalarRange : Type := mkRange {
  low : Z;
  high : Z
}.

Definition contains (x : Z) (r : ScalarRange) : bool :=
  (low r <=? x) && (x <=? high r).

(** A range handed to the page walk, with the step by which the cursor
    advances after it. *)
Record Accepted : Type := mkAccepted {
  range : ScalarRange;
  step : Z
}.

(** In how many accepted ranges does the star count [x] lie? *)
Definition count_containing (x : Z) (l : list Accepted) : nat :=
  List.length (filter (fun a => contains x (range a)) l).

(** The module-level constants of a script. *)
Record Constants : Type := mkConstants {
  MAX_RESULTS_PER_SEARCH : Z;
  PER_PAGE : Z;
  INITIAL_STAR_RANGE : Z;
  STAR_RANGE_DECREMENT : Z;
  STAR_MAX : Z
}.

(** Comparisons of [data.total_count] with a number; every comparison of
    [undefined] with a number is false. *)
Definition js_gt (x : option Z) (y : Z) : bool :=
  match x with Some v => y <? v | None => false end.

Definition js_le (x : option Z) (y : Z) : bool :=
  match x with Some v => v <=? y | None => false end.

Definition js_strict_eq (x : option Z) (y : Z) : bool :=
  match x with Some v => v =? y | None => false end.

Definition is_undefined (x : option Z) : bool :=
  match x with Some _ => false | None => true end.

(** ** The environment and the monad of the scripts *)

Record Env : Type := mkEnv {
  World : Type;
  (** [fetch(url, fetchSettings)]: the response and the world after it. *)
  fetch : jsstring -> World -> Response * World;
  (** [Date.now()], in milliseconds. *)
  Date_now : World -> Z;
  (** The world once a timer of the given delay, in milliseconds, has
      fired. *)
  setTimeout : Number -> World -> World;
  (** [new URL(s).href]; [None] when the constructor throws. *)
  URL_href : jsstring -> option jsstring
}.

(** The state a script runs in: the world, [process.exitCode], and two
    ghost logs, the URLs fetched so far and the ranges accepted so far
    (both latest first). *)
Record State (E : Env) : Type := mkState {
  world : World E;
  exitCode : Z;
  requests : list jsstring;
  planned : list Accepted
}.
Arguments mkState {E}.
Arguments world {E}.
Arguments exitCode {E}.
Arguments requests {E}.
Arguments planned {E}.

(** How an awaited computation ends: with a value, with an exception, or
    not within the fuel given. *)
Inductive Outcome (A : Type) : Type :=
| Normal (a : A)
| Thrown
| Running.
Arguments Normal {A}.
Arguments Thrown {A}.
Arguments Running {A}.

Definition M (E : Env) (A : Type) : Type := State E -> Outcome A * State E.

Section Monad.
Context {E : Env}.

Definition ret {A} (a : A) : M E A := fun s => (Normal a, s).

Definition bind {A B} (m : M E A) (k : A -> M E B) : M E B :=
  fun s =>
    match m s with
    | (Normal a, s') => k a s'
    | (Thrown, s') => (Thrown, s')
    | (Running, s') => (Running, s')
    end.

Definition throw {A} : M E A := fun s => (Thrown, s).

Definition running {A} : M E A := fun s => (Running, s).

(** [try { body } catch (error) { handler }]. *)
Definition try_catch {A} (body handler : M E A) : M E A :=
  fun s =>
    match body s with
    | (Thrown, s') => handler s'
    | r => r
    end.

(** A pure step that may throw. *)
Definition of_option {A} (o : option A) : M E A :=
  match o with Some a => ret a | None => throw end.

(** The state once [url] has been requested and the world has become
    [w]. *)
Definition requested (url : jsstring) (w : World E) (s : State E) : State E :=
  mkState w (exitCode s) (url :: requests s) (planned s).

(** [await fetch(url, fetchSettings)]. *)
Definition await_fetch (url : jsstring) : M E Response :=
  fun s =>
    let (r, w) := fetch E url (world s) in
    match r with
    | NetworkError => (Thrown, requested url w s)
    | HttpResponse _ _ => (Normal r, requested url w s)
    end.

(** [await response.json()]. *)
Definition response_json (r : Response) : M E Body :=
  match r with
  | HttpResponse (Some b) _ => ret b
  | _ => throw
  end.

(** [response.headers.get('Link')]. *)
Definition headers_get_Link (r : Response) : option jsstring :=
  match r with
  | HttpResponse _ l => l
  | NetworkError => None
  end.

(** [process.exitCode = n]. *)
Definition set_exitCode (n : Z) : M E unit :=
  fun s => (Normal tt, mkState (world s) n (requests s) (planned s)).

(** [Date.now()]. *)
Definition date_now : M E Z := fun s => (Normal (Date_now E (world s)), s).

(** [await sleep(ms)]: a promise resolved by [setTimeout(resolve, ms)]. *)
Definition sleep (ms : Number) : M E unit :=
  fun s =>
    (Normal tt,
     mkState (setTimeout E ms (world s)) (exitCode s) (requests s) (planned s)).

(** The state once the range [a] has been noted as accepted. *)
Definition noted (a : Accepted) (s : State E) : State E :=
  mkState (world s) (exitCode s) (requests s) (a :: planned s).

(** Ghost step: note the range handed to the page walk. *)
Definition note_accepted (a : Accepted) : M E unit :=
  fun s => (Normal tt, noted a s).

End Monad.

Declare Scope script_scope.
Delimit Scope script_scope with script.
Notation "x <- m ;; k" := (bind m (fun x => k))
  (at level 61, m at next level, right associativity) : script_scope.
Notation "m ;;; k" := (bind m (fun _ => k))
  (at level 61, right associativity) : script_scope.
Open Scope script_scope.

(** ** Code shared by the three scripts *)

Section Shared.
Context (E : Env).

Definition baseUrl : jsstring := str "https://api.github.com".

Definition rateLimitUrl : jsstring := baseUrl ++ str "/rate_limit".

Definition searchUrl : jsstring := baseUrl ++ str "/search/repositories".

(** [fetchRateLimit()].  The value is [rateLimitJson.resources.search];
    when it is missing the [TypeError] is raised here or at the
    destructuring in the caller, which is the next thing the caller
    does. *)
Definition fetchRateLimit : M E RateLimit :=
  rateLimit <- await_fetch rateLimitUrl ;;
  rateLimitJson <- response_json rateLimit ;;
  of_option (resources_search rateLimitJson).

(** [`${low}..${high}`]. *)
Definition render (r : ScalarRange) : jsstring :=
  String_of_number (low r) ++ str ".." ++ String_of_number (high r).

(** [new URLSearchParams({ q: `stars:${range}`, per_page:
    PER_PAGE.toString() }).toString()]: the colon is percent-encoded,
    digits, dots and the minus sign are not. *)
Definition queryParams (c : Constants) (r : ScalarRange) : jsstring :=
  str "q=stars%3A" ++ render r ++ str "&per_page="
  ++ String_of_number (PER_PAGE c).

(** [`${searchUrl}?${queryParams.toString()}`]. *)
Definition query_url (c : Constants) (r : ScalarRange) : jsstring :=
  searchUrl ++ str "?" ++ queryParams c r.

(** The string ['rel="next"']. *)
Definition rel_next : jsstring := str "rel=" ++ [dquote] ++ str "next" ++ [dquote].

(** The loop [for (const link of links)]: [Some (Some href)] when an
    entry with relation next is found, [Some None] when the loop ends
    with [nextPageUrl] still [null], [None] when [new URL] or the
    [trim] of a missing second piece throws. *)
Fixpoint scan_links (links : list jsstring) : option (option jsstring) :=
  match links with
  | [] => Some None
  | link :: rest =>
      match URL_href E (slice_1_m1 (nth 0 (split ";" (trim link)) [])) with
      | None => None
      | Some href =>
          match nth_error (split ";" (trim link)) 1 with
          | None => None
          | Some piece =>
              if jsstring_eqb (trim piece) rel_next then Some (Some href)
              else scan_links rest
          end
      end
  end.

(** From [const linkHeader = ...] to the end of the [if (linkHeader)]. *)
Definition next_page (linkHeader : option jsstring)
  : option (option jsstring) :=
  match linkHeader with
  | None => Some None
  | Some h => if truthy h then scan_links (split "," h) else Some None
  end.

(** One turn of [while (nextPageUrl)]: the filtered items of the page
    and the next value of [nextPageUrl]. *)
Definition page (url : jsstring) : M E (list Repo.t * option jsstring) :=
  response <- await_fetch url ;;
  data <- response_json response ;;
  filtered <- of_option (filterResponseData data) ;;
  next <- of_option (next_page (headers_get_Link response)) ;;
  ret (filtered, next).

(** [while (nextPageUrl) { ... }], with [repoData] as accumulator. *)
Fixpoint pagination_loop (fuel : nat) (nextPageUrl : option jsstring)
  (repoData : list Repo.t) : M E (list Repo.t) :=
  match nextPageUrl with
  | None => ret repoData
  | Some url =>
      if truthy url then
        match fuel with
        | O => running
        | S fuel' =>
            r <- page url ;;
            pagination_loop fuel' (snd r) (repoData ++ fst r)
        end
      else ret repoData
  end.

(** [repoData.push(...fetchedRepos)]; spreading [undefined] throws. *)
Definition push_spread (repoData : list Repo.t)
  (fetchedRepos : option (list Repo.t)) : M E (list Repo.t) :=
  match fetchedRepos with
  | Some l => ret (repoData ++ l)
  | None => throw
  end.

End Shared.

(** [Array.prototype.sort(compareFn)]: a stable sort that puts [a]
    before [b] when [compareFn(a, b) <= 0]. *)
Fixpoint sort_insert {A} (compareFn : A -> A -> Z) (x : A) (l : list A)
  : list A :=
  match l with
  | [] => [x]
  | y :: l' =>
      if compareFn x y <=? 0 then x :: l
      else y :: sort_insert compareFn x l'
  end.

Definition Array_sort {A} (compareFn : A -> A -> Z) (l : list A) : list A :=
  fold_right (sort_insert compareFn) [] l.

(** The variables of one planning round: [starCountRange],
    [starCountParsedRange] (kept as the pair it renders) and [data]. *)
Record Planning : Type := mkPlanning {
  starCountRange : Z;
  starCountParsedRange : ScalarRange;
  data : Body
}.

(** ** The 364000-ceiling script *)

Module Part001.

Definition constants : Constants := mkConstants 1000 100 3000 300 364000.

Definition STAR_MIN : Z := 3499.

Section Script.
Context (E : Env) (c : Constants).

(** [`${starCutoff}..${Math.max(Math.min(STAR_MAX, starCutoff +
    starCountRange - 1), starCutoff)}`]. *)
Definition candidate (starCutoff starCountRange : Z) : ScalarRange :=
  mkRange starCutoff
    (Z.max (Z.min (STAR_MAX c) (starCutoff + starCountRange - 1)) starCutoff).

(** [waitForRateLimitReset(option)].  [new Date(reset * 1000) -
    Date.now()] is a difference of time values, integers that a double
    holds exactly; [waitTime] is its quotient by 1000 and [sleep] is
    given [waitTime * 1000], both computed in doubles. *)
Definition waitForRateLimitReset (option : Z) : M E unit :=
  rl <- fetchRateLimit E ;;
  if ((remaining rl <? 12) && (option =? 1))
     || ((remaining rl =? 0) && (option =? 2))
  then
    now <- date_now ;;
    let waitTime :=
      Number_div (Number_of_integer (reset rl * 1000 - now))
        (Number_of_integer 1000) in
    sleep (Number_mul waitTime (Number_of_integer 1000))
  else ret tt.

(** [fetchRepositoriesWithPagination(url, settings)]; the handler logs,
    sets [process.exitCode] and falls off the end, so the call yields
    [undefined] ([None]). *)
Definition fetchRepositoriesWithPagination (fuel : nat) (url : jsstring)
  : M E (option (list Repo.t)) :=
  try_catch
    (repoData <- pagination_loop E fuel (Some url) [] ;;
     ret (Some repoData))
    (set_exitCode 1 ;;; ret None).

(** The [do { ... } while (data.total_count > MAX_RESULTS_PER_SEARCH)]
    of [fetchAllRepos]. *)
Fixpoint shrink_loop (fuel : nat) (starCutoff : Z) (p : Planning)
  : M E Planning :=
  match fuel with
  | O => running
  | S fuel' =>
      response <- await_fetch (query_url c (starCountParsedRange p)) ;;
      data <- response_json response ;;
      if js_strict_eq (total_count data) 0
         || js_le (total_count data) (MAX_RESULTS_PER_SEARCH c)
      then ret (mkPlanning (starCountRange p) (starCountParsedRange p) data)
      else
        let starCountRange' := starCountRange p - STAR_RANGE_DECREMENT c in
        let p' :=
          mkPlanning starCountRange' (candidate starCutoff starCountRange')
            data in
        if starCutoff =? high (candidate starCutoff starCountRange')
        then ret p'
        else if js_gt (total_count data) (MAX_RESULTS_PER_SEARCH c)
        then shrink_loop fuel' starCutoff p'
        else ret p'
  end.

(** A turn of [while (true)], first half: from [let starCountRange] to
    the end of the [do ... while]. *)
Definition plan (fuel : nat) (starCutoff : Z) : M E Planning :=
  let p0 :=
    mkPlanning (INITIAL_STAR_RANGE c)
      (candidate starCutoff (INITIAL_STAR_RANGE c)) empty_object in
  waitForRateLimitReset 1 ;;;
  shrink_loop fuel starCutoff p0.

(** A turn of [while (true)], second half: from the second
    [waitForRateLimitReset] to [repoData.push(...fetchedRepos)]. *)
Definition collect (fuel : nat) (repoData : list Repo.t) (p : Planning)
  : M E (list Repo.t) :=
  waitForRateLimitReset 2 ;;;
  let nextPageUrl := query_url c (starCountParsedRange p) in
  note_accepted (mkAccepted (starCountParsedRange p) (starCountRange p)) ;;;
  fetchedRepos <- fetchRepositoriesWithPagination fuel nextPageUrl ;;
  push_spread E repoData fetchedRepos.

(** The [while (true)] of [fetchAllRepos]; [n] bounds its turns and
    [fuel] the turns of each inner loop. *)
Fixpoint outer_loop (n fuel : nat) (starCutoff : Z) (repoData : list Repo.t)
  : M E (list Repo.t) :=
  match n with
  | O => running
  | S n' =>
      p <- plan fuel starCutoff ;;
      repoData' <- collect fuel repoData p ;;
      let starCutoff' := starCutoff + starCountRange p in
      if starCutoff' >? STAR_MAX c then ret repoData'
      else outer_loop n' fuel starCutoff' repoData'
  end.

(** [(a, b) => b.stars - a.stars]. *)
Definition by_stars (a b : Repo.t) : Z := Repo.stars b - Repo.stars a.

(** [fetchAllRepos(starCountStart)]; [None] is the [undefined] the call
    yields after its handler has run. *)
Definition fetchAllRepos (n fuel : nat) (starCountStart : Z)
  : M E (option (list Repo.t)) :=
  try_catch
    (repoData <- outer_loop n fuel starCountStart [] ;;
     ret (Some (Array_sort by_stars repoData)))
    (set_exitCode 1 ;;; ret None).

End Script.
End Part001.

(** ** The 500000-ceiling script: its planning loop *)

Module Part000.

Definition constants : Constants := mkConstants 1000 100 3000 300 500000.

Definition STAR_COUNT_START : Z := 3500.

Section Script.
Context (E : Env) (c : Constants).

Definition candidate (starCutoff starCountRange : Z) : ScalarRange :=
  mkRange starCutoff
    (Z.max (Z.min (STAR_MAX c) (starCutoff + starCountRange - 1)) starCutoff).

(** The [while (data.total_count > MAX_RESULTS_PER_SEARCH ||
    data.total_count === undefined)] of [fetchAllRepos]. *)
Fixpoint shrink_loop (fuel : nat) (starCutoff : Z) (p : Planning)
  : M E Planning :=
  if js_gt (total_count (data p)) (MAX_RESULTS_PER_SEARCH c)
     || is_undefined (total_count (data p))
  then
    match fuel with
    | O => running
    | S fuel' =>
        response <- await_fetch (query_url c (starCountParsedRange p)) ;;
        data <- response_json response ;;
        if js_strict_eq (total_count data) 0
           || js_le (total_count data) (MAX_RESULTS_PER_SEARCH c)
        then ret (mkPlanning (starCountRange p) (starCountParsedRange p) data)
        else
          let starCountRange' := starCountRange p - STAR_RANGE_DECREMENT c in
          let p' :=
            mkPlanning starCountRange' (candidate starCutoff starCountRange')
              data in
          if starCutoff =? high (candidate starCutoff starCountRange')
          then ret p'
          else shrink_loop fuel' starCutoff p'
    end
  else ret p.

End Script.
End Part000.

(** ** fetch-repos-stars.js *)

Module FetchReposStars.

Definition constants : Constants := mkConstants 1000 100 1000 100 6000.

(** The default value of [starCountStart]. *)
Definition starCountStart_default : Z := 5000.

Section Script.
Context (E : Env) (c : Constants).

(** [`${starCutoff}..${Math.min(STAR_MAX, starCutoff + starCountRange -
    1)}`]. *)
Definition candidate (starCutoff starCountRange : Z) : ScalarRange :=
  mkRange starCutoff (Z.min (STAR_MAX c) (starCutoff + starCountRange - 1)).

(** [fetchRepositoriesWithPagination(url, settings)].  The handler binds
    the exception as [error] and reads [err.message]: evaluating [err]
    raises a [ReferenceError] before anything is logged or
    [process.exitCode] is set, so the call rejects. *)
Definition fetchRepositoriesWithPagination (fuel : nat) (url : jsstring)
  : M E (list Repo.t) :=
  try_catch (pagination_loop E fuel (Some url) []) throw.

(** The [while (data.total_count > MAX_RESULTS_PER_SEARCH ||
    data.total_count === undefined)] of [fetchAllRepos]. *)
Fixpoint shrink_loop (fuel : nat) (starCutoff : Z) (p : Planning)
  : M E Planning :=
  if js_gt (total_count (data p)) (MAX_RESULTS_PER_SEARCH c)
     || is_undefined (total_count (data p))
  then
    match fuel with
    | O => running
    | S fuel' =>
        response <- await_fetch (query_url c (starCountParsedRange p)) ;;
        data <- response_json response ;;
        if js_le (total_count data) (MAX_RESULTS_PER_SEARCH c)
        then ret (mkPlanning (starCountRange p) (starCountParsedRange p) data)
        else
          let starCountRange' := starCountRange p - STAR_RANGE_DECREMENT c in
          shrink_loop fuel' starCutoff
            (mkPlanning starCountRange' (candidate starCutoff starCountRange')
               data)
    end
  else ret p.

(** A turn of [while (true)], first half: from [let starCountRange] to
    the end of the inner [while]. *)
Definition plan (fuel : nat) (starCutoff : Z) : M E Planning :=
  let p0 :=
    mkPlanning (INITIAL_STAR_RANGE c)
      (candidate starCutoff (INITIAL_STAR_RANGE c)) empty_object in
  shrink_loop fuel starCutoff p0.

(** A turn of [while (true)], second half: the page walk over the
    range planned and [repoData.push(...fetchedRepos)]. *)
Definition collect (fuel : nat) (repoData : list Repo.t) (p : Planning)
  : M E (list Repo.t) :=
  let nextPageUrl := query_url c (starCountParsedRange p) in
  note_accepted (mkAccepted (starCountParsedRange p) (starCountRange p)) ;;;
  fetchedRepos <- fetchRepositoriesWithPagination fuel nextPageUrl ;;
  push_spread E repoData (Some fetchedRepos).

(** The [while (true)] of [fetchAllRepos]. *)
Fixpoint outer_loop (n fuel : nat) (starCutoff : Z) (repoData : list Repo.t)
  : M E (list Repo.t) :=
  match n with
  | O => running
  | S n' =>
      p <- plan fuel starCutoff ;;
      repoData' <- collect fuel repoData p ;;
      let starCutoff' := starCutoff + starCountRange p in
      if starCutoff' >? STAR_MAX c then ret repoData'
      else outer_loop n' fuel starCutoff' repoData'
  end.

(** [fetchAllRepos(starCountStart)]; its handler raises a
    [ReferenceError] in the same way, so an exception leaves the call. *)
Definition fetchAllRepos (n fuel : nat) (starCountStart : Z)
  : M E (list Repo.t) :=
  try_catch
    (fetchRateLimit E ;;;
     outer_loop n fuel starCountStart [])
    throw.

End Script.
End FetchReposStars.

(** ** Simulated servers *)

(** A state in which nothing has happened yet. *)
Definition fresh (E : Env) (w : World E) : State E := mkState w 0 [] [].

(** An entry [<url>; rel="name"] of a [Link] header. *)
Record LinkEntry : Type := mkEntry {
  entry_url : jsstring;
  entry_rel : jsstring
}.

Definition render_entry (e : LinkEntry) : jsstring :=
  str "<" ++ entry_url e ++ str ">; rel=" ++ [dquote] ++ entry_rel e
  ++ [dquote].

(** The entries of a header, separated by a comma and a space. *)
Fixpoint render_header (es : list LinkEntry) : jsstring :=
  match es with
  | [] => []
  | e :: es' =>
      match es' with
      | [] => render_entry e
      | _ :: _ => render_entry e ++ str ", " ++ render_header es'
      end
  end.

(** A page with no entry carries no [Link] header. *)
Definition link_header (es : list LinkEntry) : option jsstring :=
  match es with
  | [] => None
  | _ :: _ => Some (render_header es)
  end.

(** A page of search results as a simulated server holds it. *)
Record Page : Type := mkPage {
  page_url : jsstring;
  page_total : option Z;
  page_items : list RawItem.t;
  page_links : list LinkEntry
}.

Definition page_response (p : Page) : Response :=
  HttpResponse (Some (mkBody (page_total p) (Some (page_items p)) None))
    (link_header (page_links p)).

(** What the collector is to return for a page. *)
Definition page_records (p : Page) : list Repo.t :=
  map project (filter keep (page_items p)).

Definition is_next (e : LinkEntry) : Prop := entry_rel e = str "next".

(** The URL a walk of the pages starts from. *)
Definition first_url (pages : list Page) : jsstring :=
  match pages with
  | [] => []
  | p :: _ => page_url p
  end.

(** A chain of pages in the environment [E]: fetching the URL of a page
    in the current world yields that page; every page but the last has
    an entry with relation next, and the URL of the first such entry, as
    [href], is the URL of the page that follows; the last page has no
    such entry. *)
Inductive Chain (E : Env) : World E -> list Page -> World E -> Prop :=
| chain_last w p w' :
    page_url p <> [] ->
    fetch E (page_url p) w = (page_response p, w') ->
    Forall (fun e => ~ is_next e) (page_links p) ->
    Chain E w [p] w'
| chain_next w p w' before e after q rest w'' :
    page_url p <> [] ->
    fetch E (page_url p) w = (page_response p, w') ->
    page_links p = before ++ e :: after ->
    Forall (fun e => ~ is_next e) before ->
    is_next e ->
    URL_href E (entry_url e) = Some (page_url q) ->
    Chain E w' (q :: rest) w'' ->
    Chain E w (p :: q :: rest) w''.

(** A string free of the two separators the scripts split a header on. *)
Definition plain (s : jsstring) : Prop :=
  ~ In ","%char s /\ ~ In ";"%char s.

Definition plain_entry (e : LinkEntry) : Prop :=
  plain (entry_url e) /\ plain (entry_rel e).

Definition plain_page (p : Page) : Prop := Forall plain_entry (page_links p).

(** The entries of a header that the loop over its pieces gets to: those
    up to and including the first with relation next, all of them when
    there is none. *)
Fixpoint entries_read (es : list LinkEntry) : list LinkEntry :=
  match es with
  | [] => []
  | e :: es' =>
      if jsstring_eqb (entry_rel e) (str "next") then [e]
      else e :: entries_read es'
  end.

(** An entry that the split parsing reads as it was written: neither its
    URL nor its relation name holds a separator, and [new URL] accepts
    its URL. *)
Definition readable_entry (E : Env) (e : LinkEntry) : Prop :=
  plain_entry e /\ URL_href E (entry_url e) <> None.

Definition readable_page (E : Env) (p : Page) : Prop :=
  Forall (readable_entry E) (entries_read (page_links p)).

(** A page walk that meets a failure: the page at [url] throws (the
    request is rejected, the body does not parse, [items] is missing or
    the header cannot be read), or it is read and the walk from its next
    link meets a failure.  The index counts the pages requested. *)
Inductive FailingWalk (E : Env) : nat -> jsstring -> State E -> Prop :=
| fails_here url s s' :
    url <> [] ->
    page E url s = (Thrown, s') ->
    FailingWalk E 1 url s
| fails_later k url s filtered url' s' :
    url <> [] ->
    page E url s = (Normal (filtered, Some url'), s') ->
    FailingWalk E k url' s' ->
    FailingWalk E (S k) url s.

(** A quota that is far from exhausted. *)
Definition ample : RateLimit := mkRateLimit 30 30 0.

(** A server that answers every request with the same body and no
    [Link] header, in a world without state; [new URL(s).href] is taken
    to be [s]. *)
Definition constant_server (b : Body) : Env :=
  mkEnv unit (fun _ w => (HttpResponse (Some b) None, w))
    (fun _ => 0) (fun _ w => w) (fun u => Some u).

(** Every search matches nothing. *)
Definition quiet_server : Env :=
  constant_server (mkBody (Some 0) (Some []) (Some ample)).

(** Every search, however narrow, reports more matches than the cap. *)
Definition crowded_server : Env :=
  constant_server (mkBody (Some 1001) (Some []) (Some ample)).

(** Every search is answered by a body without [total_count]. *)
Definition mute_server : Env :=
  constant_server (mkBody None (Some []) (Some ample)).

Definition repo_with_stars (n : Z) : RawItem.t :=
  RawItem.mk n (str "o/r") (str "https://github.com/o/r") None None
    false false (str "public") 0 n 0 0 [] (str "https://h/c").

(** Every search matches the same two repositories, the one with fewer
    stars first. *)
Definition catalog_server : Env :=
  constant_server
    (mkBody (Some 2) (Some [repo_with_stars 3; repo_with_stars 7])
       (Some ample)).

(** Small constants for runs that can be followed by hand. *)
Definition small_constants : Constants := mkConstants 1000 100 5 1 12.

(** A server that holds a table of pages by URL and rejects every other
    request. *)
Fixpoint lookup_page (table : list Page) (url : jsstring) : Response :=
  match table with
  | [] => NetworkError
  | p :: rest =>
      if jsstring_eqb url (page_url p) then page_response p
      else lookup_page rest url
  end.

Definition table_server (table : list Page) : Env :=
  mkEnv unit (fun url w => (lookup_page table url, w))
    (fun _ => 0) (fun _ w => w) (fun u => Some u).

Definition entry_to (url rel : string) : LinkEntry :=
  mkEntry (str url) (str rel).

(** Two pages; after its next entry the first carries an entry whose
    URL has a semicolon in its path. *)
Definition tailed_pages : list Page :=
  [ mkPage (str "https://h/1") (Some 3)
      [repo_with_stars 5; repo_with_stars 4]
      [entry_to "https://h/2" "next"; entry_to "https://h/x;y" "last"];
    mkPage (str "https://h/2") (Some 3) [repo_with_stars 3] [] ].

(** Two pages; the URL of the second has a semicolon in its path. *)
Definition semicolon_pages : list Page :=
  [ mkPage (str "https://h/1") (Some 3) [repo_with_stars 5]
      [entry_to "https://h/a;b" "next"];
    mkPage (str "https://h/a;b") (Some 3) [repo_with_stars 3] [] ].

(** The end-to-end scenario of the specification: ceiling 6000, cap
    1000, initial step 1000 shrunk by 200; the server reports 1500
    matches for [3499..4498] and 800 for [3499..4298]. *)
Definition scenario_constants : Constants := mkConstants 1000 100 1000 200 6000.

Definition scenario_pages : list Page :=
  [ mkPage (query_url scenario_constants (mkRange 3499 4498)) (Some 1500)
      [] [];
    mkPage (query_url scenario_constants (mkRange 3499 4298)) (Some 800)
      [] [] ].

(** One page that links to a second page the server does not hold. *)
Definition broken_pages : list Page :=
  [ mkPage (str "https://h/s?page=1") (Some 3) [repo_with_stars 5]
      [entry_to "https://h/s?page=2" "next"] ].

(** The order the final sort is to establish: [a] may stand before [b]. *)
Definition more_stars (a b : Repo.t) : Prop := Repo.stars b <= Repo.stars a.

(** A computation that leaves the log of accepted ranges as it found
    it. *)
Definition keeps_planned {E : Env} {A : Type} (m : M E A) : Prop :=
  forall s, planned (snd (m s)) = planned s.

(** The accepted ranges [l] cover the interval from [F] to [C] exactly:
    a star count in the interval lies in one of them, a star count
    outside in none. *)
Definition covers_exactly (l : list Accepted) (F C : Z) : Prop :=
  forall x,
    count_containing x l = if (F <=? x) && (x <=? C) then 1%nat else 0%nat.

(** The cursor after the ranges [l] have been walked from [F]. *)
Definition cursor_after (F : Z) (l : list Accepted) : Z :=
  F + fold_right (fun a acc => step a + acc) 0 l.

(** From every cursor between [F] and the ceiling, in every state, a
    turn of the 364000-ceiling script plans a range with a positive step
    and its walk of the range ends with a value. *)
Definition Part001_turns_well (E : Env) (c : Constants) (fuel : nat) (F : Z)
  : Prop :=
  forall (starCutoff : Z) (repoData : list Repo.t) (s : State E),
    F <= starCutoff <= STAR_MAX c ->
    exists p s1 repoData' s2,
      Part001.plan E c fuel starCutoff s = (Normal p, s1)
      /\ 0 < starCountRange p
      /\ Part001.collect E c fuel repoData p s1 = (Normal repoData', s2).

(** The same for [fetch-repos-stars.js]. *)
Definition FetchReposStars_turns_well (E : Env) (c : Constants) (fuel : nat)
  (F : Z) : Prop :=
  forall (starCutoff : Z) (repoData : list Repo.t) (s : State E),
    F <= starCutoff <= STAR_MAX c ->
    exists p s1 repoData' s2,
      FetchReposStars.plan E c fuel starCutoff s = (Normal p, s1)
      /\ 0 < starCountRange p
      /\ FetchReposStars.collect E c fuel repoData p s1
         = (Normal repoData', s2).

(** The range invariant of the specification, for the ceiling of [c]. *)
Definition well_formed_range (c : Constants) (r : ScalarRange) : Prop :=
  low r <= high r <= STAR_MAX c.

(** The state once the timer of a [sleep] has fired. *)
Definition slept {E : Env} (ms : Number) (s : State E) : State E :=
  mkState (setTimeout E ms (world s)) (exitCode s) (requests s) (planned s).

(** The delay [waitForRateLimitReset] computes when [distance]
    milliseconds remain to the reset: [(distance / 1000) * 1000]. *)
Definition delay_asked (distance : Z) : Number :=
  Number_mul
    (Number_div (Number_of_integer distance) (Number_of_integer 1000))
    (Number_of_integer 1000).

(** The test of [waitForRateLimitReset]. *)
Definition must_wait (rl : RateLimit) (option : Z) : bool :=
  ((remaining rl <? 12) && (option =? 1))
  || ((remaining rl =? 0) && (option =? 2)).

(** The head test of the two [while] planning loops. *)
Definition still_searching (c : Constants) (p : Planning) : bool :=
  js_gt (total_count (data p)) (MAX_RESULTS_PER_SEARCH c)
  || is_undefined (total_count (data p)).

(** ** The 500000-ceiling script: its run *)

Module Part000Run.

Section Script.
Context (E : Env) (c : Constants).

(** The world after one [console.log('Waiting for rate limit reset')]:
    the one thing the busy loop does between two readings of the
    clock. *)
Context (console_log : World E -> World E).

Definition logged (s : State E) : State E :=
  mkState (console_log (world s)) (exitCode s) (requests s) (planned s).

(** [while (Date.now() < new Date(reset * 1000)) { console.log(...) }];
    the comparison turns the date into its time value, [reset * 1000]. *)
Fixpoint busy_wait (fuel : nat) (reset : Z) : M E unit :=
  fun s =>
    if Date_now E (world s) <? reset * 1000 then
      match fuel with
      | O => (Running, s)
      | S fuel' => busy_wait fuel' reset (logged s)
      end
    else (Normal tt, s).

(** [fetchRepositoriesWithPagination(url, settings)]: the handler logs,
    sets [process.exitCode] and falls off the end. *)
Definition fetchRepositoriesWithPagination (fuel : nat) (url : jsstring)
  : M E (option (list Repo.t)) :=
  try_catch
    (repoData <- pagination_loop E fuel (Some url) [] ;;
     ret (Some repoData))
    (set_exitCode 1 ;;; ret None).

(** A turn of [while (true)], first half: the rate-limit request, the
    busy loop and the planning loop. *)
Definition plan (fuel : nat) (starCutoff : Z) : M E Planning :=
  let p0 :=
    mkPlanning (INITIAL_STAR_RANGE c)
      (Part000.candidate c starCutoff (INITIAL_STAR_RANGE c)) empty_object in
  rl <- fetchRateLimit E ;;
  (if remaining rl <? 12 then busy_wait fuel (reset rl) else ret tt) ;;;
  Part000.shrink_loop E c fuel starCutoff p0.

(** A turn of [while (true)], second half: [if (data.total_count !== 0)
    { ... }]. *)
Definition collect (fuel : nat) (repoData : list Repo.t) (p : Planning)
  : M E (list Repo.t) :=
  if negb (js_strict_eq (total_count (data p)) 0) then
    let nextPageUrl := query_url c (starCountParsedRange p) in
    note_accepted (mkAccepted (starCountParsedRange p) (starCountRange p)) ;;;
    fetchedRepos <- fetchRepositoriesWithPagination fuel nextPageUrl ;;
    push_spread E repoData fetchedRepos
  else ret repoData.

(** The [while (true)] of [fetchAllRepos]. *)
Fixpoint outer_loop (n fuel : nat) (starCutoff : Z) (repoData : list Repo.t)
  : M E (list Repo.t) :=
  match n with
  | O => running
  | S n' =>
      p <- plan fuel starCutoff ;;
      repoData' <- collect fuel repoData p ;;
      let starCutoff' := starCutoff + starCountRange p in
      if starCutoff' >? STAR_MAX c then ret repoData'
      else outer_loop n' fuel starCutoff' repoData'
  end.

(** [fetchAllRepos(starCountStart)]; [None] is the [undefined] the call
    yields after its handler has run. *)
Definition fetchAllRepos (n fuel : nat) (starCountStart : Z)
  : M E (option (list Repo.t)) :=
  try_catch
    (repoData <- outer_loop n fuel starCountStart [] ;;
     ret (Some repoData))
    (set_exitCode 1 ;;; ret None).

End Script.
End Part000Run.

(** ** main *)

(** What [await supabase.from('repositories').upsert(repoData,
    ...).select()] gives: a rejection, or a response whose [data] is an
    array or [null] ([None]). *)
Inductive UpsertResult : Type :=
| UpsertRejected
| UpsertResolved (data : option (list Repo.t)).

(** The store the scripts write to; [upsert] is given the value of
    [repoData], which is [undefined] ([None]) when [fetchAllRepos] fell
    off its handler. *)
Record Store (E : Env) : Type := mkStore {
  upsert : option (list Repo.t) -> World E -> UpsertResult * World E
}.
Arguments upsert {E}.

Section Main.
Context (E : Env) (store : Store E).

(** The state once the store has answered and the world has become
    [w]. *)
Definition stored (w : World E) (s : State E) : State E :=
  mkState w (exitCode s) (requests s) (planned s).

(** [await supabase...upsert(repoData, ...).select()], yielding
    [response.data]. *)
Definition await_upsert (repoData : option (list Repo.t))
  : M E (option (list Repo.t)) :=
  fun s =>
    let (r, w) := upsert store repoData (world s) in
    match r with
    | UpsertRejected => (Thrown, stored w s)
    | UpsertResolved d => (Normal d, stored w s)
    end.

(** [if (response.data.length !== null) ... else ...]: both branches
    only log; reading [length] of [null] throws. *)
Definition report (data : option (list Repo.t)) : M E unit :=
  match data with
  | Some _ => ret tt
  | None => throw
  end.

(** The inner [try ... catch] of [main]. *)
Definition persist (repoData : option (list Repo.t)) : M E unit :=
  try_catch
    (data <- await_upsert repoData ;; report data)
    (set_exitCode 1).

(** [main], over the [fetchAllRepos] of its script. *)
Definition main (fetchAllRepos : M E (option (list Repo.t))) : M E unit :=
  try_catch
    (repoData <- fetchAllRepos ;; persist repoData)
    (set_exitCode 1).

(** [main] of the 364000-ceiling script. *)
Definition Part001_main (c : Constants) (n fuel : nat) : M E unit :=
  main (Part001.fetchAllRepos E c n fuel Part001.STAR_MIN).

(** [main] of [fetch-repos-stars.js], whose [fetchAllRepos] yields an
    array or rejects. *)
Definition FetchReposStars_main (c : Constants) (n fuel : nat) : M E unit :=
  main (repoData <-
          FetchReposStars.fetchAllRepos E c n fuel
            FetchReposStars.starCountStart_default ;;
        ret (Some repoData)).

End Main.

(** A computation that leaves [process.exitCode] as it found it,
    however it ends. *)
Definition keeps_exitCode {E : Env} {A : Type} (m : M E A) : Prop :=
  forall s, exitCode (snd (m s)) = exitCode s.

(** A computation that, when it ends with a value, has left
    [process.exitCode] as it found it. *)
Definition returns_quietly {E : Env} {A : Type} (m : M E A) : Prop :=
  forall s a s', m s = (Normal a, s') -> exitCode s' = exitCode s.

(** A computation that only adds to the log of requests. *)
Definition adds_requests {E : Env} {A : Type} (bound : nat) (m : M E A)
  : Prop :=
  forall s,
    exists new,
      requests (snd (m s)) = new ++ requests s
      /\ (List.length new <= bound)%nat.

(** A computation whose first request, sent whatever happens next, is
    for [url]. *)
Definition starts_with_request {E : Env} {A : Type} (url : jsstring)
  (m : M E A) : Prop :=
  forall s, exists new, requests (snd (m s)) = new ++ url :: requests s.

(** ** More simulated servers *)

(** A world that is a clock, in milliseconds; every request takes one
    millisecond and is answered with the same body, a timer counts whole
    milliseconds and fires when those of its delay have passed. *)
Definition clock_server (b : Body) : Env :=
  mkEnv Z (fun _ now => (HttpResponse (Some b) None, now + 1))
    (fun now => now) (fun ms now => now + Z.max (whole_part ms) 0)
    (fun u => Some u).

(** A page whose next link is its own URL. *)
Definition self_linked_page : Page :=
  mkPage (str "https://h/s?page=1") (Some 1) [repo_with_stars 5]
    [entry_to "https://h/s?page=1" "next"].

(** A store that accepts everything and echoes the records, and one that
    reports its failure in the response, with [data] set to [null]. *)
Definition echo_store (E : Env) : Store E :=
  mkStore E
    (fun repoData w =>
       (UpsertResolved (Some (match repoData with Some l => l | None => [] end)),
        w)).

Definition failing_store (E : Env) : Store E :=
  mkStore E (fun _ w => (UpsertResolved None, w)).

(** A server that answers every request with the same body and the
    same [Link] header. *)
Definition header_server (b : Body) (h : jsstring) : Env :=
  mkEnv unit (fun _ w => (HttpResponse (Some b) (Some h), w))
    (fun _ => 0) (fun _ w => w) (fun u => Some u).

(** A server that rejects every request. *)
Definition dead_server : Env :=
  mkEnv unit (fun _ w => (NetworkError, w))
    (fun _ => 0) (fun _ w => w) (fun u => Some u).

(** * Theorems *)

(** ** Strings *)

Lemma jsstring_eqb_eq (a b : jsstring) : jsstring_eqb a b = true <-> a = b.
Proof.
  unfold jsstring_eqb. destruct (list_eq_dec ascii_dec a b); split;
    intros; congruence.
Qed.

Lemma jsstring_eqb_refl (a : jsstring) : jsstring_eqb a a = true.
Proof. apply jsstring_eqb_eq. reflexivity. Qed.

Lemma jsstring_eqb_neq (a b : jsstring) : a <> b -> jsstring_eqb a b = false.
Proof.
  intros H. destruct (jsstring_eqb a b) eqn:Heq; [|reflexivity].
  apply jsstring_eqb_eq in Heq. contradiction.
Qed.

Example split_example :
  split "," (str "a, b,c,") = [str "a"; str " b"; str "c"; str ""]
  /\ split ";" (str "") = [str ""].
Proof. split; reflexivity. Qed.

Example trim_example :
  trim (str "  <u>; rel  ") = str "<u>; rel" /\ trim (str " ") = str "".
Proof. split; reflexivity. Qed.

Example slice_1_m1_example :
  slice_1_m1 (str "<https://h/s>") = str "https://h/s"
  /\ slice_1_m1 (str "<") = str "" /\ slice_1_m1 (str "") = str "".
Proof. repeat split. Qed.

Example query_url_example :
  query_url Part001.constants (mkRange 3499 6498)
  = str "https://api.github.com/search/repositories?q=stars%3A3499..6498&per_page=100".
Proof. reflexivity. Qed.

(** A header as the search endpoint sends it: the second entry is the
    next page. *)
Example next_page_example :
  next_page quiet_server
    (link_header
       [entry_to "https://h/s?page=1" "prev";
        entry_to "https://h/s?page=3" "next";
        entry_to "https://h/s?page=9" "last"])
  = Some (Some (str "https://h/s?page=3")).
Proof. reflexivity. Qed.

(** An entry without a semicolon: the [trim] of the missing second piece
    throws. *)
Example next_page_malformed :
  next_page quiet_server (Some (str "<https://h/s?page=3>")) = None.
Proof. reflexivity. Qed.

(** ** The filter and the projection *)

Lemma keep_emitted (item : RawItem.t) : keep item = true <-> emitted item.
Proof.
  unfold keep, emitted.
  rewrite !andb_true_iff, !negb_true_iff, jsstring_eqb_eq. tauto.
Qed.

Lemma Normalizes_filter (its : list RawItem.t) :
  Normalizes its (map project (filter keep its)).
Proof.
  induction its as [|item its IH]; simpl.
  - constructor.
  - destruct (keep item) eqn:Hk.
    + simpl. apply (norm_emit item); [apply keep_emitted; exact Hk | exact IH].
    + apply norm_drop; [|exact IH].
      intros He. apply keep_emitted in He. congruence.
Qed.

Lemma Normalizes_functional (its : list RawItem.t) (out1 out2 : list Repo.t) :
  Normalizes its out1 -> Normalizes its out2 -> out1 = out2.
Proof.
  intros H1. revert out2.
  induction H1 as [|item its out He _ IH|item its out He _ IH];
    intros out2 H2; inversion H2; subst; try contradiction.
  - reflexivity.
  - f_equal. apply IH. assumption.
  - apply IH. assumption.
Qed.

(** A batch with one item of each kind the filter drops. *)
Example filterResponseData_mixed_batch :
  let archived_one :=
    RawItem.mk 2 [] [] None None true false (str "public") 0 9 0 0 [] [] in
  let disabled_one :=
    RawItem.mk 3 [] [] None None false true (str "public") 0 8 0 0 [] [] in
  let private_one :=
    RawItem.mk 4 [] [] None None false false (str "private") 0 7 0 0 [] [] in
  option_map (map Repo.github_id)
    (filterResponseData
       (mkBody (Some 5)
          (Some [repo_with_stars 1; archived_one; disabled_one; private_one;
                 repo_with_stars 5])
          None))
  = Some [1; 5].
Proof. reflexivity. Qed.

(** C6.  For every batch of raw items, [filterResponseData] emits
    exactly the items that are not archived, not disabled and of
    visibility ['public'], in their order, each projected to the eleven
    fields [github_id], [full_name], [html_url], [description],
    [language], [forks], [stars], [watchers], [open_issues], [topics] and
    [contributors_url]: its result is the one list that [Normalizes]
    relates to the batch. *)
Theorem filterResponseData_normalizes :
  forall (total : option Z) (its : list RawItem.t) (rl : option RateLimit),
  exists out,
    filterResponseData (mkBody total (Some its) rl) = Some out
    /\ Normalizes its out
    /\ (forall out', Normalizes its out' -> out' = out)
    /\ (forall r, In r out <-> exists item, In item its /\ emitted item
                                   /\ r = project item).
Proof.
  intros total its rl. exists (map project (filter keep its)).
  split; [reflexivity|]. split; [apply Normalizes_filter|]. split.
  - intros out' H. eapply Normalizes_functional; [exact H|].
    apply Normalizes_filter.
  - intros r. rewrite in_map_iff. split.
    + intros (item & Hr & Hin). apply filter_In in Hin. destruct Hin as [Hin Hk].
      exists item. rewrite <- keep_emitted. auto.
    + intros (item & Hin & He & Hr). exists item. split; [auto|].
      apply filter_In. rewrite keep_emitted. auto.
Qed.

(** ** The final sort *)

Lemma sort_insert_perm (x : Repo.t) (l : list Repo.t) :
  Permutation (x :: l) (sort_insert Part001.by_stars x l).
Proof.
  induction l as [|y l IH]; simpl; [reflexivity|].
  destruct (Part001.by_stars x y <=? 0); [reflexivity|].
  rewrite perm_swap. apply perm_skip. exact IH.
Qed.

Lemma Array_sort_perm (l : list Repo.t) :
  Permutation l (Array_sort Part001.by_stars l).
Proof.
  induction l as [|x l IH]; simpl; [constructor|].
  rewrite <- sort_insert_perm. apply perm_skip. exact IH.
Qed.

Lemma sort_insert_sorted (x : Repo.t) (l : list Repo.t) :
  StronglySorted more_stars l ->
  StronglySorted more_stars (sort_insert Part001.by_stars x l).
Proof.
  induction 1 as [|y l Hs IH Hall]; simpl.
  - repeat constructor.
  - unfold Part001.by_stars at 1.
    destruct (Z.leb_spec (Repo.stars y - Repo.stars x) 0) as [Hle|Hgt].
    + constructor; [constructor; assumption|].
      constructor; [unfold more_stars; lia|].
      eapply Forall_impl; [|exact Hall].
      unfold more_stars. intros; lia.
    + constructor; [exact IH|].
      eapply Permutation_Forall; [apply sort_insert_perm|].
      constructor; [unfold more_stars; lia | exact Hall].
Qed.

Lemma Array_sort_sorted (l : list Repo.t) :
  StronglySorted more_stars (Array_sort Part001.by_stars l).
Proof.
  induction l as [|x l IH]; simpl; [constructor|].
  apply sort_insert_sorted. exact IH.
Qed.

(** C10.  Whenever [fetchAllRepos] of the 364000-ceiling script returns
    a result set, that set is a rearrangement of what the loop
    accumulated and is in non-increasing order of [stars], whatever the
    order in which the ranges and pages delivered the records. *)
Theorem fetchAllRepos_sorted_by_stars :
  forall (E : Env) (c : Constants) (n fuel : nat) (starCountStart : Z)
         (s s' : State E) (result : list Repo.t),
    Part001.fetchAllRepos E c n fuel starCountStart s
    = (Normal (Some result), s') ->
    StronglySorted more_stars result
    /\ exists repoData,
         Part001.outer_loop E c n fuel starCountStart [] s
         = (Normal repoData, s')
         /\ Permutation repoData result.
Proof.
  intros E c n fuel start s s' result.
  unfold Part001.fetchAllRepos, try_catch, bind, ret.
  destruct (Part001.outer_loop E c n fuel start [] s) as [[repoData| |] s1];
    simpl; intros H; inversion H; subst.
  split; [apply Array_sort_sorted|].
  exists repoData. split; [reflexivity | apply Array_sort_perm].
Qed.

Lemma fetchAllRepos_sorted_by_stars_witness :
  exists result s',
    Part001.fetchAllRepos catalog_server small_constants 5 20 3
      (fresh catalog_server tt) = (Normal (Some result), s')
    /\ map Repo.stars result = [7; 7; 3; 3]
    /\ StronglySorted more_stars result.
Proof.
  eexists. eexists. split; [vm_compute; reflexivity|].
  split; [reflexivity|].
  eapply (fetchAllRepos_sorted_by_stars catalog_server small_constants 5 20 3
            (fresh catalog_server tt)).
  vm_compute. reflexivity.
Defined.

(** ** One probe *)

Section Probe.
Context (E : Env).

Lemma await_fetch_response (url : jsstring) (s : State E)
      (json : option Body) (link : option jsstring) (w : World E) :
  fetch E url (world s) = (HttpResponse json link, w) ->
  await_fetch url s = (Normal (HttpResponse json link), requested url w s).
Proof. intros H. unfold await_fetch. rewrite H. reflexivity. Qed.

Lemma probe_body {A} (url : jsstring) (s : State E) (body : Body)
      (link : option jsstring) (w : World E) (k : Body -> M E A) :
  fetch E url (world s) = (HttpResponse (Some body) link, w) ->
  (response <- await_fetch url ;; data <- response_json response ;; k data) s
  = k body (requested url w s).
Proof.
  intros H. unfold bind at 1. rewrite (await_fetch_response _ _ _ _ _ H).
  reflexivity.
Qed.

(** A probe that does not deliver a body ends the loop around it with an
    exception. *)
Lemma probe_no_body {A} (url : jsstring) (s : State E) (k : Body -> M E A) :
  (forall body link w,
      fetch E url (world s) <> (HttpResponse (Some body) link, w)) ->
  fst ((response <- await_fetch url ;; data <- response_json response ;;
        k data) s) = Thrown.
Proof.
  intros H. unfold bind at 1, await_fetch.
  destruct (fetch E url (world s)) as [[|[body|] link] w] eqn:Hf;
    try reflexivity.
  exfalso. eapply H. reflexivity.
Qed.

(** The two ways a probe can go. *)
Lemma probe_cases {A} (url : jsstring) (s : State E) (k : Body -> M E A) :
  (exists body link w,
      fetch E url (world s) = (HttpResponse (Some body) link, w)
      /\ (response <- await_fetch url ;; data <- response_json response ;;
          k data) s = k body (requested url w s))
  \/ (exists s',
         (response <- await_fetch url ;; data <- response_json response ;;
          k data) s = (Thrown, s')).
Proof.
  destruct (fetch E url (world s)) as [[|[body|] link] w] eqn:Hf.
  - right. unfold bind at 1, await_fetch. rewrite Hf. eexists. reflexivity.
  - left. exists body, link, w. split; [reflexivity|].
    apply probe_body with (link := link). exact Hf.
  - right. unfold bind at 1, await_fetch. rewrite Hf. eexists. reflexivity.
Qed.

End Probe.

(** Split the goal on the outcome of the probe it starts with. *)
Ltac probe body link w Hf :=
  match goal with
  | |- context [bind (await_fetch ?url)
                  (fun r => bind (response_json r) ?k) ?s] =>
      let s' := fresh "s'" in
      let Hrun := fresh "Hrun" in
      destruct (probe_cases _ url s k)
        as [(body & link & w & Hf & Hrun) | (s' & Hrun)];
      rewrite Hrun; clear Hrun; cbv beta
  end.

(** ** The acceptance test *)

(** C4.  In each of the three scripts, a probe that reports a total of at
    most [MAX_RESULTS_PER_SEARCH] (the cap itself, anything below it,
    zero) ends the planning loop at once: the candidate range that was
    probed and the step that produced it are kept as they are.  (The two
    [while] variants are taken at a point where their head test has let
    the probe happen.) *)
Theorem total_within_cap_is_accepted :
  forall (E : Env) (c : Constants) (fuel : nat) (starCutoff : Z)
         (p : Planning) (s : State E) (body : Body)
         (link : option jsstring) (w : World E) (total : Z),
    fetch E (query_url c (starCountParsedRange p)) (world s)
    = (HttpResponse (Some body) link, w) ->
    total_count body = Some total ->
    total <= MAX_RESULTS_PER_SEARCH c ->
    let kept := mkPlanning (starCountRange p) (starCountParsedRange p) body in
    let s' := requested (query_url c (starCountParsedRange p)) w s in
    Part001.shrink_loop E c (S fuel) starCutoff p s = (Normal kept, s')
    /\ (still_searching c p = true ->
        Part000.shrink_loop E c (S fuel) starCutoff p s = (Normal kept, s')
        /\ FetchReposStars.shrink_loop E c (S fuel) starCutoff p s
           = (Normal kept, s')).
Proof.
  intros E c fuel cutoff p s body link w total Hf Ht Hle kept s'.
  assert (Hjs : js_le (total_count body) (MAX_RESULTS_PER_SEARCH c) = true).
  { rewrite Ht. simpl. apply Z.leb_le. exact Hle. }
  split; [|intros Hhead; split].
  - simpl. rewrite (probe_body E _ _ _ _ _ _ Hf).
    rewrite Hjs, orb_true_r. reflexivity.
  - unfold still_searching in Hhead. simpl. rewrite Hhead.
    rewrite (probe_body E _ _ _ _ _ _ Hf).
    rewrite Hjs, orb_true_r. reflexivity.
  - unfold still_searching in Hhead. simpl. rewrite Hhead.
    rewrite (probe_body E _ _ _ _ _ _ Hf).
    rewrite Hjs. reflexivity.
Qed.

Lemma total_within_cap_is_accepted_witness :
  let c := Part001.constants in
  let p := mkPlanning 3000 (Part001.candidate c 3499 3000) empty_object in
  let kept := mkPlanning 3000 (mkRange 3499 6498)
                (mkBody (Some 1000) (Some []) (Some ample)) in
  let E := constant_server (mkBody (Some 1000) (Some []) (Some ample)) in
  let s' := @requested E (query_url c (mkRange 3499 6498)) tt (fresh E tt) in
  Part001.shrink_loop E c 1 3499 p (fresh E tt) = (Normal kept, s')
  /\ (still_searching c p = true ->
      Part000.shrink_loop E c 1 3499 p (fresh E tt) = (Normal kept, s')
      /\ FetchReposStars.shrink_loop E c 1 3499 p (fresh E tt)
         = (Normal kept, s')).
Proof.
  intros c p kept E s'.
  apply (total_within_cap_is_accepted E c 0 3499 p (fresh E tt)
           (mkBody (Some 1000) (Some []) (Some ample)) None tt 1000).
  - reflexivity.
  - reflexivity.
  - vm_compute. discriminate.
Defined.

(** ** Candidate ranges *)

Arguments query_url : simpl never.

Lemma Part001_candidate_invariant (c : Constants) (starCutoff range : Z) :
  starCutoff <= STAR_MAX c ->
  low (Part001.candidate c starCutoff range)
  <= high (Part001.candidate c starCutoff range) <= STAR_MAX c.
Proof. unfold Part001.candidate. simpl. lia. Qed.

Lemma Part000_candidate_invariant (c : Constants) (starCutoff range : Z) :
  starCutoff <= STAR_MAX c ->
  low (Part000.candidate c starCutoff range)
  <= high (Part000.candidate c starCutoff range) <= STAR_MAX c.
Proof. unfold Part000.candidate. simpl. lia. Qed.

(** With a step of one or less the clamp pins the high bound to the
    cursor, which is what the guard after the shrink tests. *)
Lemma Part001_candidate_pinned (c : Constants) (starCutoff range : Z) :
  range <= 1 -> starCutoff = high (Part001.candidate c starCutoff range).
Proof. unfold Part001.candidate. simpl. lia. Qed.

Lemma Part000_candidate_pinned (c : Constants) (starCutoff range : Z) :
  range <= 1 -> starCutoff = high (Part000.candidate c starCutoff range).
Proof. unfold Part000.candidate. simpl. lia. Qed.

(** In the two scripts that clamp, every range a planning round ends
    with is the candidate of the step it ends with. *)
Lemma Part001_shrink_loop_consistent (E : Env) (c : Constants) :
  forall (fuel : nat) (starCutoff : Z) (p p' : Planning) (s s' : State E),
    starCountParsedRange p = Part001.candidate c starCutoff (starCountRange p) ->
    Part001.shrink_loop E c fuel starCutoff p s = (Normal p', s') ->
    starCountParsedRange p'
    = Part001.candidate c starCutoff (starCountRange p').
Proof.
  induction fuel as [|fuel IH]; intros cutoff p p' s s' Hp; simpl.
  - discriminate.
  - unfold bind at 1.
    destruct (await_fetch _ s) as [[response| |] s1]; try discriminate.
    unfold bind at 1.
    destruct (response_json response s1) as [[body| |] s2]; try discriminate.
    destruct (_ || _).
    + intros H; inversion H; subst. exact Hp.
    + destruct (cutoff =? _).
      * intros H; inversion H; subst. reflexivity.
      * destruct (js_gt _ _).
        -- apply IH. reflexivity.
        -- intros H; inversion H; subst. reflexivity.
Qed.

Lemma FetchReposStars_shrink_loop_consistent (E : Env) (c : Constants) :
  forall (fuel : nat) (starCutoff : Z) (p p' : Planning) (s s' : State E),
    starCountParsedRange p
    = FetchReposStars.candidate c starCutoff (starCountRange p) ->
    FetchReposStars.shrink_loop E c fuel starCutoff p s = (Normal p', s') ->
    starCountParsedRange p'
    = FetchReposStars.candidate c starCutoff (starCountRange p').
Proof.
  induction fuel as [|fuel IH]; intros cutoff p p' s s' Hp; simpl.
  - destruct (_ || _); [discriminate|].
    intros H; inversion H; subst. exact Hp.
  - destruct (_ || _).
    + unfold bind at 1.
      destruct (await_fetch _ s) as [[response| |] s1]; try discriminate.
      unfold bind at 1.
      destruct (response_json response s1) as [[body| |] s2];
        try discriminate.
      destruct (js_le _ _).
      * intros H; inversion H; subst. exact Hp.
      * apply IH. reflexivity.
    + intros H; inversion H; subst. exact Hp.
Qed.

(** C9.  The range invariant [low <= high <= STAR_MAX] holds for every
    candidate of the two scripts that clamp with [Math.max]
    ([Part001_candidate_invariant], [Part000_candidate_invariant]), but
    not in [fetch-repos-stars.js]: started at its default cursor 5000
    against a server that always reports 1001 matches, its planning loop
    reaches the step 0 at the eleventh probe and asks for the range
    [5000..4999], whose low bound is above its high bound. *)
Theorem FetchReposStars_candidate_below_cursor :
  let c := FetchReposStars.constants in
  let p0 :=
    mkPlanning (INITIAL_STAR_RANGE c)
      (FetchReposStars.candidate c 5000 (INITIAL_STAR_RANGE c))
      empty_object in
  let r :=
    FetchReposStars.shrink_loop crowded_server c 11 5000 p0
      (fresh crowded_server tt) in
  hd [] (requests (snd r))
  = query_url c (FetchReposStars.candidate c 5000 0)
  /\ FetchReposStars.candidate c 5000 0 = mkRange 5000 4999
  /\ high (FetchReposStars.candidate c 5000 0)
     < low (FetchReposStars.candidate c 5000 0).
Proof. vm_compute. repeat split. Qed.

(** ** An undefined total *)

(** C3.  In the 364000-ceiling script a probe whose body has no
    [total_count] does not lead to another probe: the step is shrunk
    once, [while (undefined > MAX_RESULTS_PER_SEARCH)] is false, and the
    loop ends with the shrunk range, which no probe has measured.  (The
    two [while] variants probe again: see
    [FetchReposStars_undefined_total_retries] and
    [Part000_undefined_total_retries].) *)
Theorem Part001_undefined_total_ends_planning :
  forall (E : Env) (c : Constants) (fuel : nat) (starCutoff : Z)
         (p : Planning) (s : State E) (body : Body)
         (link : option jsstring) (w : World E),
    fetch E (query_url c (starCountParsedRange p)) (world s)
    = (HttpResponse (Some body) link, w) ->
    total_count body = None ->
    let shrunk := starCountRange p - STAR_RANGE_DECREMENT c in
    Part001.shrink_loop E c (S fuel) starCutoff p s
    = (Normal (mkPlanning shrunk (Part001.candidate c starCutoff shrunk) body),
       requested (query_url c (starCountParsedRange p)) w s).
Proof.
  intros E c fuel cutoff p s body link w Hf Ht shrunk.
  simpl. rewrite (probe_body E _ _ _ _ _ _ Hf). rewrite Ht. simpl.
  fold shrunk. destruct (cutoff =? _); reflexivity.
Qed.

Lemma Part001_undefined_total_ends_planning_witness :
  let c := Part001.constants in
  let p0 := mkPlanning 3000 (Part001.candidate c 3499 3000) empty_object in
  Part001.shrink_loop mute_server c 10 3499 p0 (fresh mute_server tt)
  = (Normal (mkPlanning 2700 (mkRange 3499 6198)
               (mkBody None (Some []) (Some ample))),
     @requested mute_server (query_url c (mkRange 3499 6498)) tt
       (fresh mute_server tt)).
Proof.
  intros c p0.
  apply (Part001_undefined_total_ends_planning mute_server c 9 3499 p0
           (fresh mute_server tt) (mkBody None (Some []) (Some ample))
           None tt).
  - reflexivity.
  - reflexivity.
Defined.

Lemma FetchReposStars_undefined_total_retries (E : Env) (c : Constants)
      (fuel : nat) (starCutoff : Z) (p : Planning) (s : State E)
      (body : Body) (link : option jsstring) (w : World E) :
  still_searching c p = true ->
  fetch E (query_url c (starCountParsedRange p)) (world s)
  = (HttpResponse (Some body) link, w) ->
  total_count body = None ->
  let shrunk := starCountRange p - STAR_RANGE_DECREMENT c in
  let p' :=
    mkPlanning shrunk (FetchReposStars.candidate c starCutoff shrunk) body in
  still_searching c p' = true
  /\ FetchReposStars.shrink_loop E c (S fuel) starCutoff p s
     = FetchReposStars.shrink_loop E c fuel starCutoff p'
         (requested (query_url c (starCountParsedRange p)) w s).
Proof.
  intros Hhead Hf Ht shrunk p'. split.
  - unfold still_searching, p'. simpl. rewrite Ht. apply orb_true_r.
  - unfold still_searching in Hhead. simpl. rewrite Hhead.
    rewrite (probe_body E _ _ _ _ _ _ Hf). rewrite Ht. reflexivity.
Qed.

Lemma Part000_undefined_total_retries (E : Env) (c : Constants)
      (fuel : nat) (starCutoff : Z) (p : Planning) (s : State E)
      (body : Body) (link : option jsstring) (w : World E) :
  still_searching c p = true ->
  fetch E (query_url c (starCountParsedRange p)) (world s)
  = (HttpResponse (Some body) link, w) ->
  total_count body = None ->
  let shrunk := starCountRange p - STAR_RANGE_DECREMENT c in
  let p' := mkPlanning shrunk (Part000.candidate c starCutoff shrunk) body in
  starCutoff <> high (Part000.candidate c starCutoff shrunk) ->
  still_searching c p' = true
  /\ Part000.shrink_loop E c (S fuel) starCutoff p s
     = Part000.shrink_loop E c fuel starCutoff p'
         (requested (query_url c (starCountParsedRange p)) w s).
Proof.
  intros Hhead Hf Ht shrunk p' Hne. split.
  - unfold still_searching, p'. simpl. rewrite Ht. apply orb_true_r.
  - unfold still_searching in Hhead. simpl. rewrite Hhead.
    rewrite (probe_body E _ _ _ _ _ _ Hf). rewrite Ht. simpl.
    fold shrunk. destruct (Z.eqb_spec starCutoff
      (Z.max (Z.min (STAR_MAX c) (starCutoff + shrunk - 1)) starCutoff));
      [|reflexivity].
    exfalso. apply Hne. unfold Part000.candidate. simpl. assumption.
Qed.

(** ** Termination of the planning loop *)

(** An outcome that is plainly not [Running]. *)
Ltac settled := unfold ret; cbn [fst]; discriminate.

Lemma Part001_shrink_loop_S (E : Env) (c : Constants) (fuel : nat)
      (starCutoff : Z) (p : Planning) :
  Part001.shrink_loop E c (S fuel) starCutoff p
  = (response <- await_fetch (query_url c (starCountParsedRange p)) ;;
     data <- response_json response ;;
     if js_strict_eq (total_count data) 0
        || js_le (total_count data) (MAX_RESULTS_PER_SEARCH c)
     then ret (mkPlanning (starCountRange p) (starCountParsedRange p) data)
     else
       let starCountRange' := starCountRange p - STAR_RANGE_DECREMENT c in
       let p' :=
         mkPlanning starCountRange'
           (Part001.candidate c starCutoff starCountRange') data in
       if starCutoff =? high (Part001.candidate c starCutoff starCountRange')
       then ret p'
       else if js_gt (total_count data) (MAX_RESULTS_PER_SEARCH c)
       then Part001.shrink_loop E c fuel starCutoff p'
       else ret p').
Proof. reflexivity. Qed.

Lemma Part000_shrink_loop_S (E : Env) (c : Constants) (fuel : nat)
      (starCutoff : Z) (p : Planning) :
  still_searching c p = true ->
  Part000.shrink_loop E c (S fuel) starCutoff p
  = (response <- await_fetch (query_url c (starCountParsedRange p)) ;;
     data <- response_json response ;;
     if js_strict_eq (total_count data) 0
        || js_le (total_count data) (MAX_RESULTS_PER_SEARCH c)
     then ret (mkPlanning (starCountRange p) (starCountParsedRange p) data)
     else
       let starCountRange' := starCountRange p - STAR_RANGE_DECREMENT c in
       let p' :=
         mkPlanning starCountRange'
           (Part000.candidate c starCutoff starCountRange') data in
       if starCutoff =? high (Part000.candidate c starCutoff starCountRange')
       then ret p'
       else Part000.shrink_loop E c fuel starCutoff p').
Proof.
  unfold still_searching. intros H. simpl. rewrite H. reflexivity.
Qed.

Lemma Part000_shrink_loop_done (E : Env) (c : Constants) (fuel : nat)
      (starCutoff : Z) (p : Planning) :
  still_searching c p = false ->
  Part000.shrink_loop E c fuel starCutoff p = ret p.
Proof.
  unfold still_searching. intros H. destruct fuel; simpl; rewrite H;
    reflexivity.
Qed.

(** In the two scripts with the guard, a planning round that starts at
    step [starCountRange p] needs at most [fuel] probes as soon as
    [fuel] decrements bring the step to one or less: it ends with a
    value or an exception, whatever the server answers. *)
Lemma Part001_shrink_loop_terminates (E : Env) (c : Constants) :
  0 < STAR_RANGE_DECREMENT c ->
  forall (fuel : nat) (starCutoff : Z) (p : Planning) (s : State E),
    (1 <= fuel)%nat ->
    starCountRange p - Z.of_nat fuel * STAR_RANGE_DECREMENT c <= 1 ->
    fst (Part001.shrink_loop E c fuel starCutoff p s) <> Running.
Proof.
  intros Hdec. induction fuel as [|fuel IH]; intros cutoff p s Hfuel Hstep.
  - lia.
  - rewrite Part001_shrink_loop_S. probe body link w Hf; [|settled].
    destruct (_ || _); [settled|]. cbv zeta.
    destruct (Z.eqb_spec cutoff
      (high (Part001.candidate c cutoff
               (starCountRange p - STAR_RANGE_DECREMENT c)))) as [|Hne];
      [settled|].
    destruct (js_gt _ _); [|settled].
    apply IH.
    + destruct fuel; [|lia]. exfalso. apply Hne.
      apply Part001_candidate_pinned. lia.
    + cbn [starCountRange]. lia.
Qed.

Lemma Part000_shrink_loop_terminates (E : Env) (c : Constants) :
  0 < STAR_RANGE_DECREMENT c ->
  forall (fuel : nat) (starCutoff : Z) (p : Planning) (s : State E),
    (1 <= fuel)%nat ->
    starCountRange p - Z.of_nat fuel * STAR_RANGE_DECREMENT c <= 1 ->
    fst (Part000.shrink_loop E c fuel starCutoff p s) <> Running.
Proof.
  intros Hdec. induction fuel as [|fuel IH]; intros cutoff p s Hfuel Hstep.
  - lia.
  - destruct (still_searching c p) eqn:Hhead.
    2:{ rewrite Part000_shrink_loop_done by exact Hhead. settled. }
    rewrite Part000_shrink_loop_S by exact Hhead. probe body link w Hf; [|settled].
    destruct (_ || _); [settled|]. cbv zeta.
    destruct (Z.eqb_spec cutoff
      (high (Part000.candidate c cutoff
               (starCountRange p - STAR_RANGE_DECREMENT c)))) as [|Hne];
      [settled|].
    apply IH.
    + destruct fuel; [|lia]. exfalso. apply Hne.
      apply Part000_candidate_pinned. lia.
    + cbn [starCountRange]. lia.
Qed.

(** With the constants of the two scripts, ten probes are enough. *)
Example Part001_ten_probes (E : Env) (starCutoff : Z) (s : State E) :
  fst (Part001.shrink_loop E Part001.constants 10 starCutoff
         (mkPlanning 3000 (Part001.candidate Part001.constants starCutoff 3000)
            empty_object) s) <> Running.
Proof.
  apply Part001_shrink_loop_terminates; simpl; lia.
Qed.

Lemma FetchReposStars_shrink_loop_S (E : Env) (c : Constants) (fuel : nat)
      (starCutoff : Z) (p : Planning) :
  still_searching c p = true ->
  FetchReposStars.shrink_loop E c (S fuel) starCutoff p
  = (response <- await_fetch (query_url c (starCountParsedRange p)) ;;
     data <- response_json response ;;
     if js_le (total_count data) (MAX_RESULTS_PER_SEARCH c)
     then ret (mkPlanning (starCountRange p) (starCountParsedRange p) data)
     else
       let starCountRange' := starCountRange p - STAR_RANGE_DECREMENT c in
       FetchReposStars.shrink_loop E c fuel starCutoff
         (mkPlanning starCountRange'
            (FetchReposStars.candidate c starCutoff starCountRange') data)).
Proof.
  unfold still_searching. intros H. simpl. rewrite H. reflexivity.
Qed.

Lemma FetchReposStars_shrink_loop_O (E : Env) (c : Constants)
      (starCutoff : Z) (p : Planning) :
  still_searching c p = true ->
  FetchReposStars.shrink_loop E c O starCutoff p = running.
Proof.
  unfold still_searching. intros H. simpl. rewrite H. reflexivity.
Qed.

Lemma FetchReposStars_shrink_loop_done (E : Env) (c : Constants) (fuel : nat)
      (starCutoff : Z) (p : Planning) :
  still_searching c p = false ->
  FetchReposStars.shrink_loop E c fuel starCutoff p = ret p.
Proof.
  unfold still_searching. intros H. destruct fuel; simpl; rewrite H;
    reflexivity.
Qed.

(** The loop of [fetch-repos-stars.js] against a server whose every
    answer fails the acceptance test: each turn probes, shrinks and goes
    round again. *)
Lemma FetchReposStars_unfit_turn (c : Constants) (b : Body) :
  js_le (total_count b) (MAX_RESULTS_PER_SEARCH c) = false ->
  forall (fuel : nat) (starCutoff : Z) (p : Planning)
         (s : State (constant_server b)),
    still_searching c p = true ->
    starCountParsedRange p
    = FetchReposStars.candidate c starCutoff (starCountRange p) ->
    exists s',
      FetchReposStars.shrink_loop (constant_server b) c (S fuel) starCutoff p s
      = (Running, s')
      /\ List.length (requests s') = (S fuel + List.length (requests s))%nat
      /\ hd [] (requests s')
         = query_url c
             (FetchReposStars.candidate c starCutoff
                (starCountRange p - Z.of_nat fuel * STAR_RANGE_DECREMENT c)).
Proof.
  intros Hnot.
  assert (Hover : forall step range,
             still_searching c (mkPlanning step range b) = true).
  { intros. unfold still_searching. cbn [data].
    destruct (total_count b) as [v|]; [|reflexivity].
    cbn in *. apply Z.leb_gt in Hnot.
    destruct (Z.ltb_spec (MAX_RESULTS_PER_SEARCH c) v); [reflexivity|lia]. }
  induction fuel as [|fuel IH]; intros cutoff p s Hhead Hp.
  - rewrite FetchReposStars_shrink_loop_S by exact Hhead.
    erewrite probe_body by reflexivity.
    rewrite Hnot. cbv zeta.
    rewrite FetchReposStars_shrink_loop_O by apply Hover.
    eexists. split; [reflexivity|]. split; [reflexivity|].
    cbn [requests requested hd]. rewrite Hp. do 2 f_equal. cbn. lia.
  - rewrite FetchReposStars_shrink_loop_S by exact Hhead.
    erewrite probe_body by reflexivity.
    rewrite Hnot. cbv zeta.
    edestruct (IH cutoff
      (mkPlanning (starCountRange p - STAR_RANGE_DECREMENT c)
         (FetchReposStars.candidate c cutoff
            (starCountRange p - STAR_RANGE_DECREMENT c)) b))
      as (s' & Hrun & Hlen & Hhd).
    + apply Hover.
    + reflexivity.
    + exists s'. split; [exact Hrun|]. split.
      * rewrite Hlen. cbn [requests requested List.length]. lia.
      * rewrite Hhd. cbn [starCountRange]. do 2 f_equal. lia.
Qed.

(** C2.  The planning loops of the two scripts with the guard end within
    a bounded number of probes for every server
    ([Part001_shrink_loop_terminates], [Part000_shrink_loop_terminates]),
    but the loop of [fetch-repos-stars.js], which has no guard, does not:
    against a server that always reports 1001 matches, and against one
    whose bodies never carry a [total_count], it is still running after
    any number of probes, and the step it has reached then is 1000 less
    100 for each probe, zero at the eleventh and negative without bound
    from there on. *)
Theorem FetchReposStars_shrink_loop_runs_on :
  forall fuel : nat,
    let c := FetchReposStars.constants in
    let p0 :=
      mkPlanning (INITIAL_STAR_RANGE c)
        (FetchReposStars.candidate c 5000 (INITIAL_STAR_RANGE c))
        empty_object in
    let reached :=
      query_url c
        (FetchReposStars.candidate c 5000 (1000 - Z.of_nat fuel * 100)) in
    (exists s',
        FetchReposStars.shrink_loop crowded_server c (S fuel) 5000 p0
          (fresh crowded_server tt) = (Running, s')
        /\ List.length (requests s') = S fuel
        /\ hd [] (requests s') = reached)
    /\ (exists s',
           FetchReposStars.shrink_loop mute_server c (S fuel) 5000 p0
             (fresh mute_server tt) = (Running, s')
           /\ List.length (requests s') = S fuel
           /\ hd [] (requests s') = reached).
Proof.
  intros fuel c p0 reached. split.
  - destruct (FetchReposStars_unfit_turn c
                (mkBody (Some 1001) (Some []) (Some ample)))
      with (fuel := fuel) (starCutoff := 5000) (p := p0)
           (s := fresh crowded_server tt) as (s' & Hrun & Hlen & Hhd);
      try reflexivity.
    exists s'. split; [exact Hrun|]. split; [|exact Hhd].
    etransitivity; [exact Hlen|]. cbn. lia.
  - destruct (FetchReposStars_unfit_turn c
                (mkBody None (Some []) (Some ample)))
      with (fuel := fuel) (starCutoff := 5000) (p := p0)
           (s := fresh mute_server tt) as (s' & Hrun & Hlen & Hhd);
      try reflexivity.
    exists s'. split; [exact Hrun|]. split; [|exact Hhd].
    etransitivity; [exact Hlen|]. cbn. lia.
Qed.

(** ** The page walk *)

Section Walk.
Context (E : Env).

Lemma pagination_loop_S (fuel : nat) (url : jsstring) (acc : list Repo.t) :
  url <> [] ->
  pagination_loop E (S fuel) (Some url) acc
  = (r <- page E url ;; pagination_loop E fuel (snd r) (acc ++ fst r)).
Proof. destruct url; [congruence|reflexivity]. Qed.

Lemma pagination_loop_null (fuel : nat) (acc : list Repo.t) :
  pagination_loop E fuel None acc = ret acc.
Proof. destruct fuel; reflexivity. Qed.

(** A walk that meets a failure ends with the exception, whatever it had
    accumulated. *)
Lemma failing_walk_throws (k : nat) (url : jsstring) (s : State E) :
  FailingWalk E k url s ->
  forall (fuel : nat) (acc : list Repo.t),
    (k <= fuel)%nat ->
    exists s', pagination_loop E fuel (Some url) acc s = (Thrown, s').
Proof.
  induction 1 as [url s s' Hurl Hpage | k url s filtered url' s' Hurl Hpage _ IH];
    intros fuel acc Hk.
  - destruct fuel as [|fuel]; [lia|].
    rewrite pagination_loop_S by exact Hurl.
    unfold bind. rewrite Hpage. eexists. reflexivity.
  - destruct fuel as [|fuel]; [lia|].
    rewrite pagination_loop_S by exact Hurl.
    unfold bind. rewrite Hpage. cbn [fst snd].
    apply IH. lia.
Qed.

End Walk.

(** C7.  When the walk of a range meets a page whose request is
    rejected or whose body does not parse, the collector returns no
    records for that range: in the 364000-ceiling script it yields
    [undefined] with [process.exitCode] set to 1, in
    [fetch-repos-stars.js] it rejects; what the earlier pages had
    delivered is dropped.  The turn of [fetchAllRepos] in which this
    happens ends with an exception at [repoData.push], so nothing of the
    range is appended to the result set. *)
Theorem failed_walk_is_all_or_nothing :
  forall (E : Env) (k fuel : nat) (url : jsstring) (s : State E),
    FailingWalk E k url s ->
    (k <= fuel)%nat ->
    (exists s',
        Part001.fetchRepositoriesWithPagination E fuel url s
        = (Normal None, s') /\ exitCode s' = 1)
    /\ (exists s',
           FetchReposStars.fetchRepositoriesWithPagination E fuel url s
           = (Thrown, s'))
    /\ (forall (c : Constants) (n : nat) (starCutoff : Z)
               (repoData : list Repo.t) (p : Planning) (s0 s1 s2 : State E),
           Part001.plan E c fuel starCutoff s0 = (Normal p, s1) ->
           Part001.waitForRateLimitReset E 2 s1 = (Normal tt, s2) ->
           s = noted (mkAccepted (starCountParsedRange p) (starCountRange p))
                 s2 ->
           url = query_url c (starCountParsedRange p) ->
           exists s',
             Part001.outer_loop E c (S n) fuel starCutoff repoData s0
             = (Thrown, s') /\ exitCode s' = 1)
    /\ (forall (c : Constants) (n : nat) (starCutoff : Z)
               (repoData : list Repo.t) (p : Planning) (s0 s1 : State E),
           FetchReposStars.plan E c fuel starCutoff s0 = (Normal p, s1) ->
           s = noted (mkAccepted (starCountParsedRange p) (starCountRange p))
                 s1 ->
           url = query_url c (starCountParsedRange p) ->
           exists s',
             FetchReposStars.outer_loop E c (S n) fuel starCutoff repoData s0
             = (Thrown, s')).
Proof.
  intros E k fuel url s Hwalk Hk.
  destruct (failing_walk_throws E k url s Hwalk fuel [] Hk) as (s' & Hloop).
  assert (H1 : Part001.fetchRepositoriesWithPagination E fuel url s
               = (Normal None,
                  mkState (world s') 1 (requests s') (planned s'))).
  { unfold Part001.fetchRepositoriesWithPagination, try_catch, bind.
    rewrite Hloop. reflexivity. }
  assert (H2 : FetchReposStars.fetchRepositoriesWithPagination E fuel url s
               = (Thrown, s')).
  { unfold FetchReposStars.fetchRepositoriesWithPagination, try_catch.
    rewrite Hloop. reflexivity. }
  split; [eexists; split; [exact H1|reflexivity]|].
  split; [eexists; exact H2|]. split.
  - intros c n cutoff repoData p s0 s1 s2 Hplan Hwait Hs Hurl. subst s url.
    eexists. cbn [Part001.outer_loop]. unfold bind at 1. rewrite Hplan.
    unfold bind at 1, Part001.collect. unfold bind at 1. rewrite Hwait.
    unfold bind at 1, note_accepted. unfold bind at 1. rewrite H1.
    cbn [push_spread]. unfold throw. split; reflexivity.
  - intros c n cutoff repoData p s0 s1 Hplan Hs Hurl. subst s url.
    eexists. cbn [FetchReposStars.outer_loop]. unfold bind at 1.
    rewrite Hplan.
    unfold bind at 1, FetchReposStars.collect. unfold bind at 1.
    unfold note_accepted. unfold bind at 1. rewrite H2. reflexivity.
Qed.

Lemma failed_walk_is_all_or_nothing_witness :
  let E := table_server broken_pages in
  let url := str "https://h/s?page=1" in
  (exists s',
      Part001.fetchRepositoriesWithPagination E 5 url (fresh E tt)
      = (Normal None, s') /\ exitCode s' = 1)
  /\ (exists s',
         FetchReposStars.fetchRepositoriesWithPagination E 5 url (fresh E tt)
         = (Thrown, s')).
Proof.
  intros E url.
  assert (Hwalk : FailingWalk E 2 url (fresh E tt)).
  { eapply fails_later; [discriminate | vm_compute; reflexivity |].
    eapply fails_here; [discriminate | vm_compute; reflexivity]. }
  destruct (failed_walk_is_all_or_nothing E 2 5 url (fresh E tt) Hwalk)
    as (H1 & H2 & _).
  - lia.
  - split; [exact H1 | exact H2].
Defined.

(** ** The log of accepted ranges *)

Section Frame.
Context {E : Env}.

Lemma keeps_ret {A} (a : A) : keeps_planned (@ret E A a).
Proof. intros s. reflexivity. Qed.

Lemma keeps_throw {A} : keeps_planned (@throw E A).
Proof. intros s. reflexivity. Qed.

Lemma keeps_running {A} : keeps_planned (@running E A).
Proof. intros s. reflexivity. Qed.

Lemma keeps_bind {A B} (m : M E A) (k : A -> M E B) :
  keeps_planned m -> (forall a, keeps_planned (k a)) ->
  keeps_planned (bind m k).
Proof.
  intros Hm Hk s. unfold bind. specialize (Hm s).
  destruct (m s) as [[a| |] s1]; cbn [snd] in *; try exact Hm.
  rewrite Hk. exact Hm.
Qed.

Lemma keeps_try_catch {A} (body handler : M E A) :
  keeps_planned body -> keeps_planned handler ->
  keeps_planned (try_catch body handler).
Proof.
  intros Hb Hh s. unfold try_catch. specialize (Hb s).
  destruct (body s) as [[a| |] s1]; cbn [snd] in *; try exact Hb.
  rewrite Hh. exact Hb.
Qed.

Lemma keeps_of_option {A} (o : option A) : keeps_planned (@of_option E A o).
Proof. destruct o; [apply keeps_ret | apply keeps_throw]. Qed.

Lemma keeps_await_fetch (url : jsstring) : keeps_planned (@await_fetch E url).
Proof.
  intros s. unfold await_fetch.
  destruct (fetch E url (world s)) as [[|json link] w]; reflexivity.
Qed.

Lemma keeps_response_json (r : Response) :
  keeps_planned (@response_json E r).
Proof.
  destruct r as [|[b|] l]; [apply keeps_throw | apply keeps_ret
                            | apply keeps_throw].
Qed.

Lemma keeps_set_exitCode (n : Z) : keeps_planned (@set_exitCode E n).
Proof. intros s. reflexivity. Qed.

Lemma keeps_sleep (ms : Number) : keeps_planned (@sleep E ms).
Proof. intros s. reflexivity. Qed.

Lemma keeps_date_now : keeps_planned (@date_now E).
Proof. intros s. reflexivity. Qed.

End Frame.

Create HintDb frame.

#[local] Hint Resolve keeps_ret keeps_throw keeps_running keeps_of_option
  keeps_await_fetch keeps_response_json keeps_set_exitCode keeps_sleep
  keeps_date_now : frame.

(** Take a computation apart along its binds. *)
Ltac frame :=
  repeat first
    [ apply keeps_bind; [|intros ?]
    | apply keeps_try_catch
    | solve [auto with frame]
    | match goal with |- keeps_planned (if ?b then _ else _) => destruct b end
    | match goal with
      | |- keeps_planned (match ?o with Some _ => _ | None => _ end) =>
          destruct o
      end ].

Section FrameScripts.
Context (E : Env) (c : Constants).

Lemma keeps_fetchRateLimit : keeps_planned (fetchRateLimit E).
Proof. unfold fetchRateLimit. frame. Qed.

Lemma keeps_waitForRateLimitReset (option : Z) :
  keeps_planned (Part001.waitForRateLimitReset E option).
Proof.
  unfold Part001.waitForRateLimitReset.
  apply keeps_bind; [apply keeps_fetchRateLimit|]. intros rl. frame.
Qed.

Lemma keeps_page (url : jsstring) : keeps_planned (page E url).
Proof. unfold page. frame. Qed.

Lemma keeps_pagination_loop (fuel : nat) :
  forall (next : option jsstring) (acc : list Repo.t),
    keeps_planned (pagination_loop E fuel next acc).
Proof.
  induction fuel as [|fuel IH]; intros [url|] acc; cbn [pagination_loop];
    try apply keeps_ret.
  - destruct (truthy url); [apply keeps_running | apply keeps_ret].
  - destruct (truthy url); [|apply keeps_ret].
    apply keeps_bind; [apply keeps_page|]. intros r. apply IH.
Qed.

Lemma keeps_Part001_fetchRepositoriesWithPagination (fuel : nat)
      (url : jsstring) :
  keeps_planned (Part001.fetchRepositoriesWithPagination E fuel url).
Proof.
  unfold Part001.fetchRepositoriesWithPagination.
  apply keeps_try_catch; [|frame].
  apply keeps_bind; [apply keeps_pagination_loop|]. intros r. frame.
Qed.

Lemma keeps_FetchReposStars_fetchRepositoriesWithPagination (fuel : nat)
      (url : jsstring) :
  keeps_planned (FetchReposStars.fetchRepositoriesWithPagination E fuel url).
Proof.
  unfold FetchReposStars.fetchRepositoriesWithPagination.
  apply keeps_try_catch; [apply keeps_pagination_loop | frame].
Qed.

Lemma keeps_Part001_shrink_loop (fuel : nat) :
  forall (starCutoff : Z) (p : Planning),
    keeps_planned (Part001.shrink_loop E c fuel starCutoff p).
Proof.
  induction fuel as [|fuel IH]; intros cutoff p.
  - apply keeps_running.
  - rewrite Part001_shrink_loop_S.
    apply keeps_bind; [frame|]. intros response.
    apply keeps_bind; [frame|]. intros body.
    destruct (_ || _); [frame|]. cbv zeta.
    destruct (cutoff =? _); [frame|].
    destruct (js_gt _ _); [apply IH | frame].
Qed.

Lemma keeps_FetchReposStars_shrink_loop (fuel : nat) :
  forall (starCutoff : Z) (p : Planning),
    keeps_planned (FetchReposStars.shrink_loop E c fuel starCutoff p).
Proof.
  induction fuel as [|fuel IH]; intros cutoff p;
    destruct (still_searching c p) eqn:Hhead;
    try (rewrite FetchReposStars_shrink_loop_done by exact Hhead;
         apply keeps_ret).
  - rewrite FetchReposStars_shrink_loop_O by exact Hhead.
    apply keeps_running.
  - rewrite FetchReposStars_shrink_loop_S by exact Hhead.
    apply keeps_bind; [frame|]. intros response.
    apply keeps_bind; [frame|]. intros body.
    destruct (js_le _ _); [frame|]. apply IH.
Qed.

Lemma keeps_Part001_plan (fuel : nat) (starCutoff : Z) :
  keeps_planned (Part001.plan E c fuel starCutoff).
Proof.
  unfold Part001.plan.
  apply keeps_bind; [apply keeps_waitForRateLimitReset|]. intros _.
  apply keeps_Part001_shrink_loop.
Qed.

Lemma keeps_FetchReposStars_plan (fuel : nat) (starCutoff : Z) :
  keeps_planned (FetchReposStars.plan E c fuel starCutoff).
Proof. apply keeps_FetchReposStars_shrink_loop. Qed.

(** A turn that gets through its second half has noted one range: the
    one it planned. *)
Lemma Part001_collect_notes (fuel : nat) (repoData repoData' : list Repo.t)
      (p : Planning) (s s' : State E) :
  Part001.collect E c fuel repoData p s = (Normal repoData', s') ->
  planned s'
  = mkAccepted (starCountParsedRange p) (starCountRange p) :: planned s.
Proof.
  unfold Part001.collect. unfold bind at 1.
  pose proof (keeps_waitForRateLimitReset 2 s) as H1.
  destruct (Part001.waitForRateLimitReset E 2 s) as [[[]| |] s1];
    try discriminate.
  cbn [snd] in H1. unfold bind at 1, note_accepted. unfold bind at 1.
  match goal with
  | |- context [Part001.fetchRepositoriesWithPagination E fuel ?u ?st] =>
      pose proof (keeps_Part001_fetchRepositoriesWithPagination fuel u st)
        as H2;
      destruct (Part001.fetchRepositoriesWithPagination E fuel u st)
        as [[[l|]| |] s2]; try discriminate
  end.
  cbn [snd noted planned] in H2. cbn [push_spread]. unfold ret.
  intros H; inversion H; subst. rewrite H2, H1. reflexivity.
Qed.

Lemma FetchReposStars_collect_notes (fuel : nat)
      (repoData repoData' : list Repo.t) (p : Planning) (s s' : State E) :
  FetchReposStars.collect E c fuel repoData p s = (Normal repoData', s') ->
  planned s'
  = mkAccepted (starCountParsedRange p) (starCountRange p) :: planned s.
Proof.
  unfold FetchReposStars.collect. unfold bind at 1, note_accepted.
  unfold bind at 1.
  match goal with
  | |- context [FetchReposStars.fetchRepositoriesWithPagination E fuel ?u ?st]
    =>
      pose proof
        (keeps_FetchReposStars_fetchRepositoriesWithPagination fuel u st)
        as H2;
      destruct (FetchReposStars.fetchRepositoriesWithPagination E fuel u st)
        as [[l| |] s2]; try discriminate
  end.
  cbn [snd noted planned] in H2. cbn [push_spread]. unfold ret.
  intros H; inversion H; subst. rewrite H2. reflexivity.
Qed.

End FrameScripts.

(** ** Coverage of the star axis *)

Lemma count_containing_app (x : Z) (l1 l2 : list Accepted) :
  count_containing x (l1 ++ l2)
  = (count_containing x l1 + count_containing x l2)%nat.
Proof. unfold count_containing. rewrite filter_app, length_app. reflexivity. Qed.

Lemma cursor_after_snoc (F : Z) (l : list Accepted) (a : Accepted) :
  cursor_after F (l ++ [a]) = cursor_after (F + step a) l.
Proof.
  unfold cursor_after. rewrite fold_right_app. cbn [fold_right].
  induction l as [|b l IH]; cbn [fold_right]; lia.
Qed.

(** The last turn: the range runs to the ceiling. *)
Lemma covers_last_turn (C starCutoff range : Z) :
  starCutoff <= C -> C < starCutoff + range ->
  covers_exactly
    [mkAccepted (mkRange starCutoff (Z.min C (starCutoff + range - 1))) range]
    starCutoff C.
Proof.
  intros Hle Hgt x. unfold count_containing, contains. cbn.
  destruct (Z.leb_spec starCutoff x); cbn;
    destruct (Z.leb_spec x (Z.min C (starCutoff + range - 1)));
    destruct (Z.leb_spec x C); cbn; try reflexivity; lia.
Qed.

(** A turn before the last: the range ends just below the next cursor. *)
Lemma covers_next_turn (C starCutoff range : Z) (rest : list Accepted) :
  0 < range -> starCutoff + range <= C ->
  covers_exactly rest (starCutoff + range) C ->
  covers_exactly
    (rest ++
     [mkAccepted (mkRange starCutoff (Z.min C (starCutoff + range - 1))) range])
    starCutoff C.
Proof.
  intros Hpos Hle Hrest x. rewrite count_containing_app, Hrest.
  unfold count_containing, contains. cbn.
  destruct (Z.leb_spec (starCutoff + range) x); cbn;
    destruct (Z.leb_spec starCutoff x); cbn;
    destruct (Z.leb_spec x (Z.min C (starCutoff + range - 1)));
    destruct (Z.leb_spec x C); cbn; try reflexivity; lia.
Qed.

Lemma Part001_candidate_positive (c : Constants) (starCutoff range : Z) :
  0 < range -> starCutoff <= STAR_MAX c ->
  Part001.candidate c starCutoff range
  = mkRange starCutoff (Z.min (STAR_MAX c) (starCutoff + range - 1)).
Proof. intros. unfold Part001.candidate. f_equal. lia. Qed.

Section Coverage.
Context (E : Env) (c : Constants) (fuel : nat) (F : Z).

Lemma Part001_outer_loop_covers :
  Part001_turns_well E c fuel F ->
  forall (n : nat) (starCutoff : Z) (repoData : list Repo.t) (s : State E),
    F <= starCutoff <= STAR_MAX c ->
    (Z.to_nat (STAR_MAX c - starCutoff + 1) <= n)%nat ->
    exists result s' new,
      Part001.outer_loop E c n fuel starCutoff repoData s
      = (Normal result, s')
      /\ planned s' = new ++ planned s
      /\ covers_exactly new starCutoff (STAR_MAX c)
      /\ STAR_MAX c < cursor_after starCutoff new
      /\ Forall (fun a => low (range a) <= STAR_MAX c) new.
Proof.
  intros Hwell.
  induction n as [|n IH]; intros cutoff repoData s Hcut Hn; [lia|].
  destruct (Hwell cutoff repoData s Hcut)
    as (p & s1 & repoData' & s2 & Hplan & Hpos & Hcollect).
  pose proof (keeps_Part001_plan E c fuel cutoff s) as Hkeep.
  rewrite Hplan in Hkeep. cbn [snd] in Hkeep.
  pose proof (Part001_collect_notes E c _ _ _ _ _ _ Hcollect) as Hnote.
  assert (Hrange : starCountParsedRange p
                   = mkRange cutoff
                       (Z.min (STAR_MAX c) (cutoff + starCountRange p - 1))).
  { rewrite <- Part001_candidate_positive by lia.
    unfold Part001.plan, bind in Hplan.
    destruct (Part001.waitForRateLimitReset E 1 s) as [[[]| |] s0];
      try discriminate.
    eapply Part001_shrink_loop_consistent; [|exact Hplan]. reflexivity. }
  cbn [Part001.outer_loop]. unfold bind at 1. rewrite Hplan.
  unfold bind at 1. rewrite Hcollect.
  destruct (Z.gtb_spec (cutoff + starCountRange p) (STAR_MAX c)) as [Hgt|Hle].
  - exists repoData', s2,
      [mkAccepted (starCountParsedRange p) (starCountRange p)].
    split; [reflexivity|]. split; [rewrite Hnote, Hkeep; reflexivity|].
    split; [rewrite Hrange; apply covers_last_turn; lia|].
    split; [unfold cursor_after; cbn; lia|].
    constructor; [rewrite Hrange; cbn; lia | constructor].
  - destruct (IH (cutoff + starCountRange p) repoData' s2)
      as (result & s' & new & Hrun & Hplanned & Hcov & Hcur & Hlow);
      [lia | lia |].
    exists result, s',
      (new ++ [mkAccepted (starCountParsedRange p) (starCountRange p)]).
    split; [exact Hrun|].
    split; [rewrite Hplanned, Hnote, Hkeep, <- app_assoc; reflexivity|].
    split; [rewrite Hrange; apply covers_next_turn; assumption|].
    split; [rewrite cursor_after_snoc; exact Hcur|].
    apply Forall_app. split; [exact Hlow|].
    constructor; [rewrite Hrange; cbn; lia | constructor].
Qed.

Lemma FetchReposStars_outer_loop_covers :
  FetchReposStars_turns_well E c fuel F ->
  forall (n : nat) (starCutoff : Z) (repoData : list Repo.t) (s : State E),
    F <= starCutoff <= STAR_MAX c ->
    (Z.to_nat (STAR_MAX c - starCutoff + 1) <= n)%nat ->
    exists result s' new,
      FetchReposStars.outer_loop E c n fuel starCutoff repoData s
      = (Normal result, s')
      /\ planned s' = new ++ planned s
      /\ covers_exactly new starCutoff (STAR_MAX c)
      /\ STAR_MAX c < cursor_after starCutoff new
      /\ Forall (fun a => low (range a) <= STAR_MAX c) new.
Proof.
  intros Hwell.
  induction n as [|n IH]; intros cutoff repoData s Hcut Hn; [lia|].
  destruct (Hwell cutoff repoData s Hcut)
    as (p & s1 & repoData' & s2 & Hplan & Hpos & Hcollect).
  pose proof (keeps_FetchReposStars_plan E c fuel cutoff s) as Hkeep.
  rewrite Hplan in Hkeep. cbn [snd] in Hkeep.
  pose proof (FetchReposStars_collect_notes E c _ _ _ _ _ _ Hcollect)
    as Hnote.
  assert (Hrange : starCountParsedRange p
                   = mkRange cutoff
                       (Z.min (STAR_MAX c) (cutoff + starCountRange p - 1))).
  { unfold FetchReposStars.plan in Hplan.
    eapply (FetchReposStars_shrink_loop_consistent E c) in Hplan;
      [exact Hplan | reflexivity]. }
  cbn [FetchReposStars.outer_loop]. unfold bind at 1. rewrite Hplan.
  unfold bind at 1. rewrite Hcollect.
  destruct (Z.gtb_spec (cutoff + starCountRange p) (STAR_MAX c)) as [Hgt|Hle].
  - exists repoData', s2,
      [mkAccepted (starCountParsedRange p) (starCountRange p)].
    split; [reflexivity|]. split; [rewrite Hnote, Hkeep; reflexivity|].
    split; [rewrite Hrange; apply covers_last_turn; lia|].
    split; [unfold cursor_after; cbn; lia|].
    constructor; [rewrite Hrange; cbn; lia | constructor].
  - destruct (IH (cutoff + starCountRange p) repoData' s2)
      as (result & s' & new & Hrun & Hplanned & Hcov & Hcur & Hlow);
      [lia | lia |].
    exists result, s',
      (new ++ [mkAccepted (starCountParsedRange p) (starCountRange p)]).
    split; [exact Hrun|].
    split; [rewrite Hplanned, Hnote, Hkeep, <- app_assoc; reflexivity|].
    split; [rewrite Hrange; apply covers_next_turn; assumption|].
    split; [rewrite cursor_after_snoc; exact Hcur|].
    apply Forall_app. split; [exact Hlow|].
    constructor; [rewrite Hrange; cbn; lia | constructor].
Qed.

End Coverage.

(** Coverage while the steps stay positive.  Let [F <= STAR_MAX] and let
    every turn from a cursor in that interval, in whatever state, plan a
    range with a positive step and end its walk with a value.  Then
    [fetchAllRepos] started at [F] returns (within [STAR_MAX - F + 1]
    turns), the ranges it accepted cover the interval from [F] to
    [STAR_MAX] exactly — each star count of the interval lies in one
    accepted range and no other star count lies in any — every accepted
    range starts at or below the ceiling, and the cursor it stops at is
    beyond the ceiling.  This holds for the 364000-ceiling script and
    for [fetch-repos-stars.js] (whose run also needs its one rate-limit
    request to succeed). *)
Lemma accepted_ranges_cover_the_axis :
  forall (E : Env) (c : Constants) (fuel n : nat) (F : Z) (s : State E),
    F <= STAR_MAX c ->
    (Z.to_nat (STAR_MAX c - F + 1) <= n)%nat ->
    (Part001_turns_well E c fuel F ->
     exists result s' new,
       Part001.fetchAllRepos E c n fuel F s = (Normal (Some result), s')
       /\ planned s' = new ++ planned s
       /\ covers_exactly new F (STAR_MAX c)
       /\ STAR_MAX c < cursor_after F new
       /\ Forall (fun a => low (range a) <= STAR_MAX c) new)
    /\ (FetchReposStars_turns_well E c fuel F ->
        (exists rl s1, fetchRateLimit E s = (Normal rl, s1)) ->
        exists result s' new,
          FetchReposStars.fetchAllRepos E c n fuel F s = (Normal result, s')
          /\ planned s' = new ++ planned s
          /\ covers_exactly new F (STAR_MAX c)
          /\ STAR_MAX c < cursor_after F new
          /\ Forall (fun a => low (range a) <= STAR_MAX c) new).
Proof.
  intros E c fuel n F s HF Hn. split.
  - intros Hwell.
    destruct (Part001_outer_loop_covers E c fuel F Hwell n F [] s)
      as (result & s' & new & Hrun & Hrest); [lia | exact Hn |].
    exists (Array_sort Part001.by_stars result), s', new.
    split; [|exact Hrest].
    unfold Part001.fetchAllRepos, try_catch, bind. rewrite Hrun. reflexivity.
  - intros Hwell (rl & s1 & Hrate).
    destruct (FetchReposStars_outer_loop_covers E c fuel F Hwell n F [] s1)
      as (result & s' & new & Hrun & Hplanned & Hrest); [lia | exact Hn |].
    exists result, s', new.
    split.
    + unfold FetchReposStars.fetchAllRepos, try_catch, bind.
      rewrite Hrate, Hrun. reflexivity.
    + split; [|exact Hrest].
      rewrite Hplanned. f_equal.
      pose proof (keeps_fetchRateLimit E s) as Hkeep.
      rewrite Hrate in Hkeep. exact Hkeep.
Qed.

Lemma quiet_server_turns_well_Part001 (F : Z) :
  Part001_turns_well quiet_server small_constants 1 F.
Proof.
  intros cutoff repoData s _.
  eexists. eexists. eexists. eexists.
  split; [reflexivity|]. split; [reflexivity|]. lazy. reflexivity.
Defined.

Lemma quiet_server_turns_well_FetchReposStars (F : Z) :
  FetchReposStars_turns_well quiet_server small_constants 1 F.
Proof.
  intros cutoff repoData s _.
  eexists. eexists. eexists. eexists.
  split; [reflexivity|]. split; [reflexivity|]. lazy. reflexivity.
Defined.

Lemma accepted_ranges_cover_the_axis_witness :
  let E := quiet_server in
  let c := small_constants in
  (exists result s' new,
      Part001.fetchAllRepos E c 10 1 3 (fresh E tt)
      = (Normal (Some result), s')
      /\ planned s' = new ++ []
      /\ covers_exactly new 3 12
      /\ 12 < cursor_after 3 new
      /\ Forall (fun a => low (range a) <= 12) new)
  /\ (exists result s' new,
         FetchReposStars.fetchAllRepos E c 10 1 3 (fresh E tt)
         = (Normal result, s')
         /\ planned s' = new ++ []
         /\ covers_exactly new 3 12
         /\ 12 < cursor_after 3 new
         /\ Forall (fun a => low (range a) <= 12) new).
Proof.
  intros E c.
  destruct (accepted_ranges_cover_the_axis E c 1 10 3 (fresh E tt))
    as [H1 H2].
  - vm_compute. discriminate.
  - vm_compute. repeat constructor.
  - split.
    + apply H1. apply quiet_server_turns_well_Part001.
    + apply H2; [apply quiet_server_turns_well_FetchReposStars|].
      eexists. eexists. reflexivity.
Defined.

(** ** Reading a [Link] header *)

Lemma split_no_sep (sep : ascii) (s : jsstring) :
  ~ In sep s -> split sep s = [s].
Proof.
  induction s as [|ch s IH]; intros Hnot; cbn [split]; [reflexivity|].
  destruct (Ascii.eqb_spec ch sep) as [->|_].
  - exfalso. apply Hnot. left. reflexivity.
  - rewrite IH; [reflexivity|]. intros H. apply Hnot. right. exact H.
Qed.

Lemma split_app_sep (sep : ascii) (s t : jsstring) :
  ~ In sep s -> split sep (s ++ sep :: t) = s :: split sep t.
Proof.
  induction s as [|ch s IH]; intros Hnot; cbn [split app].
  - rewrite Ascii.eqb_refl. reflexivity.
  - destruct (Ascii.eqb_spec ch sep) as [->|_].
    + exfalso. apply Hnot. left. reflexivity.
    + rewrite IH; [reflexivity|]. intros H. apply Hnot. right. exact H.
Qed.

Lemma split_nonempty (sep : ascii) (s : jsstring) :
  exists q qs, split sep s = q :: qs.
Proof.
  induction s as [|ch s (q & qs & IH)]; cbn [split].
  - eexists. eexists. reflexivity.
  - destruct (Ascii.eqb ch sep); [eexists; eexists; reflexivity|].
    rewrite IH. eexists. eexists. reflexivity.
Qed.

(** [split] cuts at every separator: the pieces of two strings joined
    by one are the pieces of the first followed by those of the second. *)
Lemma split_app (sep : ascii) (s t : jsstring) :
  split sep (s ++ sep :: t) = split sep s ++ split sep t.
Proof.
  induction s as [|ch s IH]; cbn [split app].
  - rewrite Ascii.eqb_refl. reflexivity.
  - destruct (Ascii.eqb ch sep); [rewrite IH; reflexivity|].
    rewrite IH. destruct (split_nonempty sep s) as (q & qs & ->).
    reflexivity.
Qed.

Lemma trim_exact (first last : ascii) (middle : jsstring) :
  is_white_space first = false -> is_white_space last = false ->
  trim (first :: middle ++ [last]) = first :: middle ++ [last].
Proof.
  intros Hf Hl. unfold trim, trimEnd. cbn [trimStart]. rewrite Hf.
  change (first :: middle ++ [last]) with ((first :: middle) ++ [last]).
  rewrite rev_app_distr. cbn [rev app trimStart]. rewrite Hl.
  cbn [rev]. rewrite rev_app_distr, rev_involutive. reflexivity.
Qed.

Lemma trim_leading_space (s : jsstring) :
  trim (" "%char :: s) = trim s.
Proof. reflexivity. Qed.

(** The two pieces of an entry around its semicolon. *)
Lemma render_entry_pieces (e : LinkEntry) :
  render_entry e
  = (str "<" ++ entry_url e ++ str ">")
    ++ ";"%char :: (str " rel=" ++ [dquote] ++ entry_rel e ++ [dquote]).
Proof.
  unfold render_entry. cbn [str list_ascii_of_string app].
  rewrite <- !app_assoc. reflexivity.
Qed.

Lemma render_entry_ends (e : LinkEntry) :
  exists middle, render_entry e = "<"%char :: middle ++ [dquote].
Proof.
  exists (entry_url e ++ str ">; rel=" ++ [dquote] ++ entry_rel e).
  unfold render_entry. cbn [str list_ascii_of_string app].
  rewrite <- !app_assoc. reflexivity.
Qed.

Lemma trim_render_entry (e : LinkEntry) :
  trim (render_entry e) = render_entry e.
Proof.
  destruct (render_entry_ends e) as (middle & ->).
  apply trim_exact; reflexivity.
Qed.

Lemma render_entry_no_comma (e : LinkEntry) :
  plain_entry e -> ~ In ","%char (render_entry e).
Proof.
  intros [[Hu _] [Hr _]]. unfold render_entry.
  rewrite !in_app_iff. cbn.
  intros [H|[H|[H|[H|[H|H]]]]]; try contradiction;
    repeat (destruct H as [H|H]; [discriminate|]); contradiction.
Qed.

Lemma split_render_entry (e : LinkEntry) :
  plain_entry e ->
  split ";" (render_entry e)
  = [str "<" ++ entry_url e ++ str ">";
     str " rel=" ++ [dquote] ++ entry_rel e ++ [dquote]].
Proof.
  intros [[_ Hu] [_ Hr]]. rewrite render_entry_pieces.
  rewrite split_app_sep.
  - rewrite split_no_sep; [reflexivity|].
    rewrite !in_app_iff. cbn.
    intros [H|[H|[H|H]]]; try contradiction;
      repeat (destruct H as [H|H]; [discriminate|]); contradiction.
  - rewrite !in_app_iff. cbn.
    intros [H|[H|H]]; try contradiction;
      repeat (destruct H as [H|H]; [discriminate|]); contradiction.
Qed.

Lemma split_render_header (e : LinkEntry) (es : list LinkEntry) :
  Forall plain_entry (e :: es) ->
  split "," (render_header (e :: es))
  = render_entry e :: map (fun e' => " "%char :: render_entry e') es.
Proof.
  revert e. induction es as [|e' es IH]; intros e Hplain.
  - cbn [render_header map]. apply split_no_sep.
    apply render_entry_no_comma. inversion Hplain. assumption.
  - inversion Hplain as [|? ? He Hrest]; subst.
    change (render_header (e :: e' :: es))
      with (render_entry e ++ ","%char :: " "%char :: render_header (e' :: es)).
    rewrite split_app_sep by (apply render_entry_no_comma; exact He).
    f_equal.
    change (split "," (" "%char :: render_header (e' :: es)))
      with (match split "," (render_header (e' :: es)) with
            | [] => [[" "%char]]
            | p :: ps => (" "%char :: p) :: ps
            end).
    rewrite IH by exact Hrest. reflexivity.
Qed.

(** The header of entries followed by more entries is the header of the
    first, a comma, a space, and the header of the others. *)
Lemma render_header_app (e0 : LinkEntry) (l1 : list LinkEntry)
      (a : LinkEntry) (l2 : list LinkEntry) :
  render_header ((e0 :: l1) ++ a :: l2)
  = render_header (e0 :: l1)
    ++ ","%char :: " "%char :: render_header (a :: l2).
Proof.
  revert e0. induction l1 as [|e1 l1 IH]; intros e0.
  - reflexivity.
  - change (render_header ((e0 :: e1 :: l1) ++ a :: l2))
      with (render_entry e0
            ++ str ", " ++ render_header ((e1 :: l1) ++ a :: l2)).
    rewrite IH.
    change (render_header (e0 :: e1 :: l1))
      with (render_entry e0 ++ str ", " ++ render_header (e1 :: l1)).
    rewrite <- !app_assoc. reflexivity.
Qed.

Lemma entries_read_none (es : list LinkEntry) :
  Forall (fun e => ~ is_next e) es -> entries_read es = es.
Proof.
  induction 1 as [|e es Hnot _ IH]; cbn [entries_read]; [reflexivity|].
  rewrite jsstring_eqb_neq by exact Hnot. rewrite IH. reflexivity.
Qed.

Lemma entries_read_next (before : list LinkEntry) (e : LinkEntry)
      (after : list LinkEntry) :
  Forall (fun e => ~ is_next e) before ->
  is_next e ->
  entries_read (before ++ e :: after) = before ++ [e].
Proof.
  intros Hnot Hnext.
  induction Hnot as [|b before Hb _ IH]; cbn [entries_read app].
  - rewrite (proj2 (jsstring_eqb_eq _ _) Hnext). reflexivity.
  - rewrite jsstring_eqb_neq by exact Hb. rewrite IH. reflexivity.
Qed.

Lemma rel_is_next (rel : jsstring) :
  jsstring_eqb (str "rel=" ++ [dquote] ++ rel ++ [dquote]) rel_next = true
  <-> rel = str "next".
Proof.
  rewrite jsstring_eqb_eq. unfold rel_next. split.
  - intros H. apply app_inv_head in H. apply app_inv_head in H.
    apply app_inv_tail in H. exact H.
  - intros ->. reflexivity.
Qed.

Section Links.
Context (E : Env).

(** One turn of [for (const link of links)] on a well-formed entry. *)
Lemma scan_links_entry (link : jsstring) (e : LinkEntry)
      (rest : list jsstring) (href : jsstring) :
  trim link = render_entry e ->
  plain_entry e ->
  URL_href E (entry_url e) = Some href ->
  scan_links E (link :: rest)
  = if jsstring_eqb (entry_rel e) (str "next") then Some (Some href)
    else scan_links E rest.
Proof.
  intros Htrim Hplain Hhref. cbn [scan_links]. rewrite Htrim.
  rewrite split_render_entry by exact Hplain. cbn [nth nth_error].
  replace (slice_1_m1 (str "<" ++ entry_url e ++ str ">"))
    with (entry_url e).
  2:{ unfold slice_1_m1. cbn [str list_ascii_of_string app tl].
      rewrite removelast_last. reflexivity. }
  rewrite Hhref.
  replace (trim (str " rel=" ++ [dquote] ++ entry_rel e ++ [dquote]))
    with (str "rel=" ++ [dquote] ++ entry_rel e ++ [dquote]).
  2:{ cbn [str list_ascii_of_string app]. rewrite trim_leading_space.
      symmetry.
      change ("r"%char :: "e"%char :: "l"%char :: "="%char :: dquote
              :: entry_rel e ++ [dquote])
        with ("r"%char :: ("e"%char :: "l"%char :: "="%char :: dquote
              :: entry_rel e) ++ [dquote]).
      apply trim_exact; reflexivity. }
  destruct (jsstring_eqb (entry_rel e) (str "next")) eqn:Hrel.
  - apply jsstring_eqb_eq in Hrel.
    rewrite (proj2 (rel_is_next _) Hrel). reflexivity.
  - destruct (jsstring_eqb _ rel_next) eqn:Hn; [|reflexivity].
    apply rel_is_next in Hn. apply jsstring_eqb_eq in Hn. congruence.
Qed.

(** The loop over the pieces of a header: it stops at the first entry
    whose relation is next, and finds none when there is none. *)
Lemma scan_links_none (links : list jsstring) (es : list LinkEntry) :
  Forall2 (fun link e => trim link = render_entry e) links es ->
  Forall plain_entry es ->
  Forall (fun e => URL_href E (entry_url e) <> None) es ->
  Forall (fun e => ~ is_next e) es ->
  scan_links E links = Some None.
Proof.
  induction 1 as [|link e links es Htrim _ IH]; intros Hplain Hurl Hnot.
  - reflexivity.
  - inversion Hplain; inversion Hurl; inversion Hnot; subst.
    destruct (URL_href E (entry_url e)) as [href|] eqn:Hhref; [|congruence].
    rewrite (scan_links_entry link e links href) by assumption.
    rewrite jsstring_eqb_neq by assumption. apply IH; assumption.
Qed.

Lemma scan_links_next (links : list jsstring)
      (before : list LinkEntry) (e : LinkEntry) (after : list LinkEntry)
      (href : jsstring) :
  Forall2 (fun link e => trim link = render_entry e) links
    (before ++ e :: after) ->
  Forall plain_entry (before ++ e :: after) ->
  Forall (fun e => URL_href E (entry_url e) <> None) (before ++ e :: after) ->
  Forall (fun e => ~ is_next e) before ->
  is_next e ->
  URL_href E (entry_url e) = Some href ->
  scan_links E links = Some (Some href).
Proof.
  revert links. induction before as [|b before IH];
    intros links Hlinks Hplain Hurl Hnot Hnext Hhref.
  - cbn [app] in *. inversion Hlinks as [|link ? links' ? Htrim Hrest]; subst.
    inversion Hplain; subst.
    rewrite (scan_links_entry link e links' href) by assumption.
    rewrite (proj2 (jsstring_eqb_eq _ _) Hnext). reflexivity.
  - cbn [app] in *. inversion Hlinks as [|link ? links' ? Htrim Hrest]; subst.
    inversion Hplain; inversion Hurl; inversion Hnot; subst.
    destruct (URL_href E (entry_url b)) as [hb|] eqn:Hb; [|congruence].
    rewrite (scan_links_entry link b links' hb) by assumption.
    rewrite jsstring_eqb_neq by assumption. apply IH; assumption.
Qed.

(** Pieces after the entry the loop stops at are not read. *)
Lemma scan_links_found (l1 l2 : list jsstring) (href : jsstring) :
  scan_links E l1 = Some (Some href) ->
  scan_links E (l1 ++ l2) = Some (Some href).
Proof.
  induction l1 as [|link l1 IH]; cbn [scan_links app]; [discriminate|].
  destruct (URL_href E _); [|discriminate].
  destruct (nth_error _ 1); [|discriminate].
  destruct (jsstring_eqb _ rel_next); [trivial | exact IH].
Qed.

(** The pieces of a rendered header, trimmed, are its entries. *)
Lemma header_pieces (e : LinkEntry) (es : list LinkEntry) :
  Forall plain_entry (e :: es) ->
  Forall2 (fun link e => trim link = render_entry e)
    (split "," (render_header (e :: es))) (e :: es).
Proof.
  intros Hplain. rewrite split_render_header by exact Hplain.
  constructor; [apply trim_render_entry|].
  clear. induction es as [|e' es IH]; cbn [map]; constructor.
  - rewrite trim_leading_space. apply trim_render_entry.
  - exact IH.
Qed.

Lemma render_header_truthy (e : LinkEntry) (es : list LinkEntry) :
  truthy (render_header (e :: es)) = true.
Proof.
  cbn [render_header]. destruct (render_entry_ends e) as (middle & ->).
  destruct es; reflexivity.
Qed.

Lemma next_page_none (es : list LinkEntry) :
  Forall plain_entry es ->
  Forall (fun e => URL_href E (entry_url e) <> None) es ->
  Forall (fun e => ~ is_next e) es ->
  next_page E (link_header es) = Some None.
Proof.
  destruct es as [|e es]; intros Hplain Hurl Hnot; [reflexivity|].
  cbn [link_header next_page]. rewrite render_header_truthy.
  eapply scan_links_none; eauto using header_pieces.
Qed.

Lemma next_page_next (before : list LinkEntry) (e : LinkEntry)
      (after : list LinkEntry) (href : jsstring) :
  Forall plain_entry (before ++ e :: after) ->
  Forall (fun e => URL_href E (entry_url e) <> None) (before ++ e :: after) ->
  Forall (fun e => ~ is_next e) before ->
  is_next e ->
  URL_href E (entry_url e) = Some href ->
  next_page E (link_header (before ++ e :: after)) = Some (Some href).
Proof.
  intros Hplain Hurl Hnot Hnext Hhref.
  destruct (before ++ e :: after) as [|e0 es] eqn:Hes.
  { destruct before; discriminate. }
  cbn [link_header next_page]. rewrite render_header_truthy.
  rewrite <- Hes in *.
  eapply scan_links_next; eauto.
  rewrite Hes. apply header_pieces. rewrite <- Hes. exact Hplain.
Qed.

(** The same when the entries after the first next entry are not
    constrained: the loop stops before it gets to them. *)
Lemma next_page_first_next (before : list LinkEntry) (e : LinkEntry)
      (after : list LinkEntry) (href : jsstring) :
  Forall plain_entry (before ++ [e]) ->
  Forall (fun e => URL_href E (entry_url e) <> None) before ->
  Forall (fun e => ~ is_next e) before ->
  is_next e ->
  URL_href E (entry_url e) = Some href ->
  next_page E (link_header (before ++ e :: after)) = Some (Some href).
Proof.
  intros Hplain Hurl Hnot Hnext Hhref.
  assert (Hurl' : Forall (fun e => URL_href E (entry_url e) <> None)
                    (before ++ [e])).
  { apply Forall_app. split; [exact Hurl|].
    constructor; [congruence | constructor]. }
  destruct after as [|a after].
  { apply next_page_next; assumption. }
  destruct (before ++ [e]) as [|e0 es] eqn:Hes.
  { destruct before; discriminate. }
  replace (before ++ e :: a :: after) with ((e0 :: es) ++ a :: after).
  2:{ rewrite <- Hes, <- app_assoc. reflexivity. }
  change (link_header ((e0 :: es) ++ a :: after))
    with (Some (render_header ((e0 :: es) ++ a :: after))).
  cbn [next_page].
  change ((e0 :: es) ++ a :: after) with (e0 :: (es ++ a :: after)) at 1.
  rewrite render_header_truthy, render_header_app, split_app.
  apply scan_links_found. rewrite <- Hes in *.
  eapply scan_links_next with (after := []); eauto.
  rewrite Hes. apply header_pieces. rewrite <- Hes. exact Hplain.
Qed.

End Links.

(** ** Walking a chain of pages *)

Section ChainWalk.
Context (E : Env).

Lemma page_of_last (p : Page) (s : State E) (w' : World E) :
  fetch E (page_url p) (world s) = (page_response p, w') ->
  plain_page p ->
  Forall (fun e => URL_href E (entry_url e) <> None) (page_links p) ->
  Forall (fun e => ~ is_next e) (page_links p) ->
  page E (page_url p) s
  = (Normal (page_records p, None), requested (page_url p) w' s).
Proof.
  intros Hf Hplain Hurl Hnot. unfold page, bind at 1.
  unfold page_response in Hf. rewrite (await_fetch_response E _ _ _ _ _ Hf).
  cbn [response_json]. unfold bind at 1, ret at 1.
  unfold filterResponseData. cbn [items of_option]. unfold bind at 1, ret at 1.
  cbn [headers_get_Link].
  rewrite next_page_none by assumption. reflexivity.
Qed.

Lemma page_of_inner (p : Page) (s : State E) (w' : World E)
      (before : list LinkEntry) (e : LinkEntry) (after : list LinkEntry)
      (href : jsstring) :
  fetch E (page_url p) (world s) = (page_response p, w') ->
  plain_page p ->
  Forall (fun e => URL_href E (entry_url e) <> None) (page_links p) ->
  page_links p = before ++ e :: after ->
  Forall (fun e => ~ is_next e) before ->
  is_next e ->
  URL_href E (entry_url e) = Some href ->
  page E (page_url p) s
  = (Normal (page_records p, Some href), requested (page_url p) w' s).
Proof.
  intros Hf Hplain Hurl Hlinks Hnot Hnext Hhref. unfold page, bind at 1.
  unfold page_response in Hf. rewrite (await_fetch_response E _ _ _ _ _ Hf).
  cbn [response_json]. unfold bind at 1, ret at 1.
  unfold filterResponseData. cbn [items of_option]. unfold bind at 1, ret at 1.
  cbn [headers_get_Link]. unfold plain_page in Hplain.
  rewrite Hlinks in *.
  rewrite (next_page_next E before e after href) by assumption.
  reflexivity.
Qed.

(** A page whose header is read as far as its first next entry, whatever
    follows that entry. *)
Lemma page_of_inner_read (p : Page) (s : State E) (w' : World E)
      (before : list LinkEntry) (e : LinkEntry) (after : list LinkEntry)
      (href : jsstring) :
  fetch E (page_url p) (world s) = (page_response p, w') ->
  page_links p = before ++ e :: after ->
  Forall plain_entry (before ++ [e]) ->
  Forall (fun e => URL_href E (entry_url e) <> None) before ->
  Forall (fun e => ~ is_next e) before ->
  is_next e ->
  URL_href E (entry_url e) = Some href ->
  page E (page_url p) s
  = (Normal (page_records p, Some href), requested (page_url p) w' s).
Proof.
  intros Hf Hlinks Hplain Hurl Hnot Hnext Hhref. unfold page, bind at 1.
  unfold page_response in Hf. rewrite (await_fetch_response E _ _ _ _ _ Hf).
  cbn [response_json]. unfold bind at 1, ret at 1.
  unfold filterResponseData. cbn [items of_option]. unfold bind at 1, ret at 1.
  cbn [headers_get_Link]. rewrite Hlinks.
  rewrite (next_page_first_next E before e after href) by assumption.
  reflexivity.
Qed.

Lemma readable_entries (es : list LinkEntry) :
  Forall (readable_entry E) es ->
  Forall plain_entry es
  /\ Forall (fun e => URL_href E (entry_url e) <> None) es.
Proof.
  intros H. split; eapply Forall_impl; try exact H; intros e He; apply He.
Qed.

Lemma pagination_loop_chain (w : World E) (pages : list Page) (w' : World E) :
  Chain E w pages w' ->
  Forall (readable_page E) pages ->
  forall (fuel : nat) (acc : list Repo.t) (s : State E),
    (List.length pages <= fuel)%nat ->
    world s = w ->
    pagination_loop E fuel (Some (first_url pages)) acc s
    = (Normal (acc ++ flat_map page_records pages),
       mkState w' (exitCode s) (rev (map page_url pages) ++ requests s)
         (planned s)).
Proof.
  induction 1 as [w p w' Hne Hf Hnot
                 | w p w' before e after q rest w'' Hne Hf Hlinks Hnot
                     Hnext Hhref _ IH];
    intros Hread fuel acc s Hfuel Hw; subst w;
    (destruct fuel as [|fuel]; [cbn in Hfuel; lia|]);
    cbn [first_url]; rewrite pagination_loop_S by exact Hne;
    inversion Hread as [|? ? Hp Hrest]; subst; unfold readable_page in Hp.
  - rewrite entries_read_none in Hp by exact Hnot.
    destruct (readable_entries _ Hp) as [Hplain Hurl].
    unfold bind. rewrite (page_of_last p s w') by assumption.
    cbn [fst snd]. rewrite pagination_loop_null.
    cbn [flat_map]. rewrite app_nil_r. reflexivity.
  - rewrite Hlinks, entries_read_next in Hp by assumption.
    destruct (readable_entries _ Hp) as [Hplain Hurl].
    apply Forall_app in Hurl. destruct Hurl as [Hurl _].
    unfold bind.
    rewrite (page_of_inner_read p s w' before e after (page_url q))
      by assumption.
    cbn [fst snd].
    change (page_url q) with (first_url (q :: rest)).
    rewrite IH; [|exact Hrest | cbn in *; lia | reflexivity].
    cbn [flat_map]. rewrite <- app_assoc.
    cbn [requested exitCode requests planned map rev].
    rewrite <- !app_assoc. reflexivity.
Qed.

End ChainWalk.

(** C5, as the scripts have it.  Take a chain of pages linked by [Link]
    entries [<url>; rel="name"] in which only the last page has no entry
    with relation next, and on each page let the entries the collector
    gets to — those up to and including the first with relation next,
    whatever follows it — hold no comma and no semicolon in their URL or
    relation name and have a URL that [new URL] accepts.  Then the
    collector, started at the first page, requests the pages of the
    chain, each once and in order — at each step the [href] of the URL
    between the angle brackets of the first entry with relation next —
    stops after the last, and returns the filtered and projected items
    of all pages in page order.  This holds for the collector of the
    364000-ceiling script and for that of [fetch-repos-stars.js]. *)
Theorem collector_walks_the_chain :
  forall (E : Env) (pages : list Page) (w w' : World E) (fuel : nat)
         (s : State E),
    Chain E w pages w' ->
    Forall (readable_page E) pages ->
    (List.length pages <= fuel)%nat ->
    world s = w ->
    let first := first_url pages in
    let s' :=
      mkState w' (exitCode s) (rev (map page_url pages) ++ requests s)
        (planned s) in
    Part001.fetchRepositoriesWithPagination E fuel first s
    = (Normal (Some (flat_map page_records pages)), s')
    /\ FetchReposStars.fetchRepositoriesWithPagination E fuel first s
       = (Normal (flat_map page_records pages), s').
Proof.
  intros E pages w w' fuel s Hchain Hplain Hfuel Hw. cbv zeta.
  pose proof (pagination_loop_chain E w pages w' Hchain Hplain fuel [] s
                Hfuel Hw) as Hloop.
  cbn [app] in Hloop. split.
  - unfold Part001.fetchRepositoriesWithPagination, try_catch, bind.
    rewrite Hloop. reflexivity.
  - unfold FetchReposStars.fetchRepositoriesWithPagination, try_catch.
    rewrite Hloop. reflexivity.
Qed.

Lemma tailed_pages_chain :
  Chain (table_server tailed_pages) tt tailed_pages tt.
Proof.
  eapply chain_next with
    (before := []) (e := entry_to "https://h/2" "next")
    (after := [entry_to "https://h/x;y" "last"]).
  - discriminate.
  - reflexivity.
  - reflexivity.
  - constructor.
  - reflexivity.
  - reflexivity.
  - apply chain_last.
    + discriminate.
    + reflexivity.
    + constructor.
Defined.

Lemma tailed_pages_readable :
  Forall (readable_page (table_server tailed_pages)) tailed_pages.
Proof.
  repeat constructor; cbn; try discriminate; intros H;
    repeat (destruct H as [H|H]; [discriminate|]); contradiction.
Defined.

Lemma collector_walks_the_chain_witness :
  let E := table_server tailed_pages in
  let s' :=
    mkState (tt : World E) 0 [str "https://h/2"; str "https://h/1"] [] in
  Part001.fetchRepositoriesWithPagination E 2 (str "https://h/1")
    (fresh E tt)
  = (Normal (Some (flat_map page_records tailed_pages)), s')
  /\ FetchReposStars.fetchRepositoriesWithPagination E 2
       (str "https://h/1") (fresh E tt)
     = (Normal (flat_map page_records tailed_pages), s').
Proof.
  intros E s'.
  apply (collector_walks_the_chain E tailed_pages tt tt 2 (fresh E tt)
           tailed_pages_chain tailed_pages_readable).
  - cbn. lia.
  - reflexivity.
Defined.

(** C5, as stated, fails when the URL of the next page holds one of the
    separators.  The first of two pages carries the entry
    [<https://h/a;b>; rel="next"]; the collector splits it at the
    semicolon inside the URL, reads [b>] where it expects the relation,
    finds no next link and stops after one request, with the items of
    the first page only. *)
Lemma semicolon_in_next_url_ends_the_walk :
  let E := table_server semicolon_pages in
  let r :=
    Part001.fetchRepositoriesWithPagination E 5 (str "https://h/1")
      (fresh E tt) in
  Chain E tt semicolon_pages tt
  /\ List.length semicolon_pages = 2%nat
  /\ List.length (requests (snd r)) = 1%nat
  /\ option_map (map Repo.stars)
       (match fst r with Normal v => v | _ => None end) = Some [5]
  /\ map Repo.stars (flat_map page_records semicolon_pages) = [5; 3].
Proof.
  cbv zeta. split; [|vm_compute; repeat split].
  eapply chain_next with (before := [])
    (e := entry_to "https://h/a;b" "next") (after := []).
  - discriminate.
  - reflexivity.
  - reflexivity.
  - constructor.
  - reflexivity.
  - reflexivity.
  - apply chain_last.
    + discriminate.
    + reflexivity.
    + constructor.
Qed.

(** ** The rate-limit policy *)

(** Which calls of [waitForRateLimitReset] sleep, and what they ask the
    timer for: under option 1 a remaining quota below 12, under option 2
    a remaining quota of exactly 0, lead to one [sleep] for the delay
    computed from the distance between [Date.now()] and the reset; every
    other quota leads to none. *)
Lemma waitForRateLimitReset_policy (E : Env) (option : Z) (s s1 : State E)
      (rl : RateLimit) :
  fetchRateLimit E s = (Normal rl, s1) ->
  Part001.waitForRateLimitReset E option s
  = (Normal tt,
     if must_wait rl option
     then slept (delay_asked (reset rl * 1000 - Date_now E (world s1))) s1
     else s1).
Proof.
  intros H. unfold Part001.waitForRateLimitReset, bind at 1. rewrite H.
  unfold must_wait.
  destruct (_ || _); reflexivity.
Qed.

Example must_wait_soft :
  must_wait (mkRateLimit 30 11 0) 1 = true
  /\ must_wait (mkRateLimit 30 12 0) 1 = false
  /\ must_wait (mkRateLimit 30 0 0) 1 = true.
Proof. repeat split. Qed.

Example must_wait_hard :
  must_wait (mkRateLimit 30 0 0) 2 = true
  /\ must_wait (mkRateLimit 30 1 0) 2 = false
  /\ must_wait (mkRateLimit 30 11 0) 2 = false.
Proof. repeat split. Qed.

(** Five seconds before the reset, the case the specification names, the
    delay asked for is 5000 milliseconds exactly. *)
Example delay_asked_five_seconds :
  delay_asked 5000 = Number_of_integer 5000.
Proof. vm_compute. reflexivity. Qed.

(** C8, where the script departs from it.  Let the quota be below the
    threshold of the option and let 1001 milliseconds be left until the
    reset when the clock is read.  Then [waitForRateLimitReset] sends its
    one request and sets one timer, and the delay it hands to the timer
    is a number below 1001, with 1000 whole milliseconds: the quotient by
    1000 and the product by 1000 do not cancel in doubles, so the script
    asks for less than the time that remains. *)
Theorem waitForRateLimitReset_asks_for_less :
  forall (E : Env) (s : State E) (body : Body) (link : option jsstring)
         (w : World E) (rl : RateLimit) (option : Z),
    fetch E rateLimitUrl (world s) = (HttpResponse (Some body) link, w) ->
    resources_search body = Some rl ->
    must_wait rl option = true ->
    reset rl * 1000 - Date_now E w = 1001 ->
    exists ms,
      Part001.waitForRateLimitReset E option s
      = (Normal tt, slept ms (requested rateLimitUrl w s))
      /\ Number_lt ms (Number_of_integer 1001) = true
      /\ whole_part ms = 1000.
Proof.
  intros E s body link w rl option Hf Hrl Hwait Hdistance.
  assert (Hrate : fetchRateLimit E s
                  = (Normal rl, requested rateLimitUrl w s)).
  { unfold fetchRateLimit. rewrite (probe_body E _ _ _ _ _ _ Hf).
    rewrite Hrl. reflexivity. }
  exists (delay_asked 1001). split; [|split; vm_compute; reflexivity].
  rewrite (waitForRateLimitReset_policy E option _ _ rl Hrate), Hwait.
  cbn [world requested]. rewrite Hdistance. reflexivity.
Qed.

Lemma waitForRateLimitReset_asks_for_less_witness :
  let body := mkBody None None (Some (mkRateLimit 30 0 1700000000)) in
  let E := clock_server body in
  let s := fresh E (1699999998998 : World E) in
  let s1 := @requested E rateLimitUrl (1699999998999 : World E) s in
  exists ms,
    Part001.waitForRateLimitReset E 2 s = (Normal tt, slept ms s1)
    /\ Number_lt ms (Number_of_integer 1001) = true
    /\ whole_part ms = 1000.
Proof.
  intros body E s s1.
  apply (waitForRateLimitReset_asks_for_less E s body None
           (1699999998999 : World E) (mkRateLimit 30 0 1700000000) 2
           eq_refl eq_refl eq_refl eq_refl).
Defined.

(** With a timer that counts whole milliseconds the script then resumes
    one millisecond before the reset. *)
Example clock_server_resumes_before_the_reset :
  let body := mkBody None None (Some (mkRateLimit 30 0 1700000000)) in
  let E := clock_server body in
  let s := fresh E (1699999998998 : World E) in
  Date_now E (world (snd (Part001.waitForRateLimitReset E 2 s)))
  = 1700000000 * 1000 - 1.
Proof. vm_compute. reflexivity. Qed.

(** ** The range invariant along a run *)

Section RangesOfARun.
Context (E : Env) (c : Constants) (fuel : nat).

Lemma Part001_collect_planned (repoData : list Repo.t) (p : Planning)
      (s : State E) :
  planned (snd (Part001.collect E c fuel repoData p s)) = planned s
  \/ planned (snd (Part001.collect E c fuel repoData p s))
     = mkAccepted (starCountParsedRange p) (starCountRange p) :: planned s.
Proof.
  remember (Part001.collect E c fuel repoData p s) as r eqn:Hr.
  unfold Part001.collect in Hr. unfold bind at 1 in Hr.
  pose proof (keeps_waitForRateLimitReset E 2 s) as H1.
  destruct (Part001.waitForRateLimitReset E 2 s) as [[[]| |] s1];
    cbn [snd] in H1; subst r; cbn [snd]; auto.
  right. rewrite <- H1.
  unfold bind at 1, note_accepted.
  match goal with
  | |- planned (snd (bind ?m ?k ?st)) = _ =>
      assert (Hk : keeps_planned (bind m k))
  end.
  { apply keeps_bind;
      [apply keeps_Part001_fetchRepositoriesWithPagination|].
    intros [l|]; [apply keeps_ret | apply keeps_throw]. }
  rewrite Hk. reflexivity.
Qed.

(** Every range the 364000-ceiling script hands to the page walk, in
    any run started at or below the ceiling, has its low bound at most
    its high bound and its high bound at most the ceiling. *)
Lemma Part001_accepted_ranges_well_formed :
  forall (n : nat) (starCutoff : Z) (repoData : list Repo.t) (s : State E),
    starCutoff <= STAR_MAX c ->
    Forall (fun a => well_formed_range c (range a)) (planned s) ->
    Forall (fun a => well_formed_range c (range a))
      (planned (snd (Part001.outer_loop E c n fuel starCutoff repoData s))).
Proof.
  induction n as [|n IH]; intros cutoff repoData s Hcut Hall.
  - exact Hall.
  - cbn [Part001.outer_loop]. unfold bind at 1.
    pose proof (keeps_Part001_plan E c fuel cutoff s) as Hkeep.
    destruct (Part001.plan E c fuel cutoff s) as [[p| |] s1] eqn:Hplan;
      cbn [snd] in *; try (rewrite Hkeep; exact Hall).
    assert (Hp : well_formed_range c (starCountParsedRange p)).
    { unfold Part001.plan, bind in Hplan.
      destruct (Part001.waitForRateLimitReset E 1 s) as [[[]| |] s0];
        try discriminate.
      assert (Hcons : starCountParsedRange p
                      = Part001.candidate c cutoff (starCountRange p)).
      { eapply Part001_shrink_loop_consistent; [|exact Hplan]. reflexivity. }
      rewrite Hcons. apply Part001_candidate_invariant. exact Hcut. }
    unfold bind at 1.
    pose proof (Part001_collect_planned repoData p s1) as Hcol.
    destruct (Part001.collect E c fuel repoData p s1)
      as [[repoData'| |] s2]; cbn [snd] in *.
    + assert (Hall2 : Forall (fun a => well_formed_range c (range a))
                        (planned s2)).
      { destruct Hcol as [-> | ->]; rewrite Hkeep;
          [exact Hall | constructor; [exact Hp | exact Hall]]. }
      destruct (Z.gtb_spec (cutoff + starCountRange p) (STAR_MAX c));
        [exact Hall2|].
      apply IH; [lia | exact Hall2].
    + destruct Hcol as [-> | ->]; rewrite Hkeep;
        [exact Hall | constructor; [exact Hp | exact Hall]].
    + destruct Hcol as [-> | ->]; rewrite Hkeep;
        [exact Hall | constructor; [exact Hp | exact Hall]].
Qed.

End RangesOfARun.

(** ** The scripts at work *)

(** The scenario of the specification, planned by the loop of
    [fetch-repos-stars.js]: the first probe reports 1500 matches, the
    step shrinks from 1000 to 800, the second probe reports 800, the
    range [3499..4298] is accepted and the cursor moves to 4299. *)
Example scenario_plan :
  let E := table_server scenario_pages in
  let r := FetchReposStars.plan E scenario_constants 5 3499 (fresh E tt) in
  match fst r with
  | Normal p =>
      starCountParsedRange p = mkRange 3499 4298
      /\ starCountRange p = 800
      /\ total_count (data p) = Some 800
      /\ 3499 + starCountRange p = 4299
  | _ => False
  end
  /\ List.length (requests (snd r)) = 2%nat.
Proof. vm_compute. repeat split. Qed.

(** X3.  The three ways the planning loop of the 364000-ceiling script
    ends with a value: the last probe passed the acceptance test, or the
    shrunk range has collapsed onto the cursor, or the last body had no
    [total_count]. *)
Lemma Part001_shrink_loop_exits (E : Env) (c : Constants) :
  forall (fuel : nat) (starCutoff : Z) (p p' : Planning) (s s' : State E),
    Part001.shrink_loop E c fuel starCutoff p s = (Normal p', s') ->
    js_strict_eq (total_count (data p')) 0
    || js_le (total_count (data p')) (MAX_RESULTS_PER_SEARCH c) = true
    \/ starCutoff = high (starCountParsedRange p')
    \/ total_count (data p') = None.
Proof.
  induction fuel as [|fuel IH]; intros cutoff p p' s s'.
  - discriminate.
  - rewrite Part001_shrink_loop_S.
    probe body link w Hf; [|discriminate].
    destruct (_ || _) eqn:Hfit.
    + intros H; inversion H; subst. left. exact Hfit.
    + cbv zeta.
      destruct (Z.eqb_spec cutoff
        (high (Part001.candidate c cutoff
                 (starCountRange p - STAR_RANGE_DECREMENT c)))) as [Heq|_].
      * intros H; inversion H; subst. right. left. exact Heq.
      * destruct (js_gt _ _) eqn:Hgt; [apply IH|].
        intros H; inversion H; subst. right. right. cbn [data].
        destruct (total_count body) as [v|]; [|reflexivity].
        apply orb_false_iff in Hfit. destruct Hfit as [_ Hle].
        cbn in Hle, Hgt. apply Z.leb_gt in Hle. apply Z.ltb_ge in Hgt. lia.
Qed.

(** One turn of the 364000-ceiling script against the crowded server,
    from the cursor 3499: the probes shrink the step to zero, the guard
    ends the planning with the range [3499..3499], the range is walked
    and noted, and the step the cursor is to advance by is zero. *)
Lemma crowded_server_turn (k : nat) (repoData : list Repo.t)
      (s : State crowded_server) :
  exists b s1 s2,
    Part001.plan crowded_server Part001.constants (10 + k)
      Part001.STAR_MIN s
    = (Normal (mkPlanning 0 (mkRange 3499 3499) b), s1)
    /\ Part001.collect crowded_server Part001.constants (10 + k) repoData
         (mkPlanning 0 (mkRange 3499 3499) b) s1
       = (Normal (repoData ++ []), s2)
    /\ planned s2 = mkAccepted (mkRange 3499 3499) 0 :: planned s.
Proof.
  eexists. eexists. eexists. split; [|split]; lazy; reflexivity.
Qed.

Lemma crowded_server_outer_loop (k n : nat) :
  forall (repoData : list Repo.t) (s : State crowded_server),
    exists s',
      Part001.outer_loop crowded_server Part001.constants n (10 + k)
        Part001.STAR_MIN repoData s
      = (Running, s')
      /\ planned s'
         = repeat (mkAccepted (mkRange 3499 3499) 0) n ++ planned s.
Proof.
  induction n as [|n IH]; intros repoData s.
  - exists s. split; reflexivity.
  - destruct (crowded_server_turn k repoData s)
      as (b & s1 & s2 & Hplan & Hcollect & Hnoted).
    destruct (IH (repoData ++ []) s2) as (s' & Hrun & Hplanned).
    exists s'. split.
    + cbn [Part001.outer_loop]. unfold bind at 1. rewrite Hplan.
      unfold bind at 1. rewrite Hcollect. cbn [starCountRange].
      change (Part001.STAR_MIN + 0 >? STAR_MAX Part001.constants)
        with false.
      cbv iota. change (Part001.STAR_MIN + 0) with Part001.STAR_MIN.
      exact Hrun.
    + rewrite Hplanned, Hnoted.
      change (repeat (mkAccepted (mkRange 3499 3499) 0) (S n))
        with (mkAccepted (mkRange 3499 3499) 0
              :: repeat (mkAccepted (mkRange 3499 3499) 0) n).
      rewrite (repeat_cons n), <- app_assoc. reflexivity.
Qed.

Lemma count_containing_repeat (x : Z) (a : Accepted) (n : nat) :
  count_containing x (repeat a n)
  = if contains x (range a) then n else 0%nat.
Proof.
  unfold count_containing.
  induction n as [|n IH]; cbn [repeat filter].
  - destruct (contains x (range a)); reflexivity.
  - destruct (contains x (range a)); cbn [List.length]; rewrite IH;
      reflexivity.
Qed.

(** C1, where the script departs from it.  Against a server that reports
    1001 matches for every range the 364000-ceiling script, started at
    its floor 3499, never leaves that cursor.  Each planning round
    shrinks the step to zero, the guard ends it with the range
    [3499..3499], the outer loop walks that range and advances the
    cursor by zero.  So for every number of turns [n] (and whatever
    room the inner loops are given beyond their ten probes) the run is
    still going, it has accepted [3499..3499] [n] times over, the star
    count 3499 lies in [n] accepted ranges, and the accepted ranges do
    not cover the interval from 3499 to 364000. *)
Theorem Part001_exhausted_step_stalls :
  forall (n k : nat),
    let r :=
      Part001.fetchAllRepos crowded_server Part001.constants n (10 + k)
        Part001.STAR_MIN (fresh crowded_server tt) in
    fst r = Running
    /\ planned (snd r) = repeat (mkAccepted (mkRange 3499 3499) 0) n
    /\ count_containing 3499 (planned (snd r)) = n
    /\ ~ covers_exactly (planned (snd r)) Part001.STAR_MIN
           (STAR_MAX Part001.constants).
Proof.
  intros n k r.
  destruct (crowded_server_outer_loop k n [] (fresh crowded_server tt))
    as (s' & Hrun & Hplanned).
  assert (Hr : r = (Running, s')).
  { unfold r, Part001.fetchAllRepos, try_catch, bind. rewrite Hrun.
    reflexivity. }
  rewrite Hr. cbn [fst snd]. rewrite Hplanned.
  cbn [fresh planned]. rewrite app_nil_r.
  split; [reflexivity|]. split; [reflexivity|]. split.
  - rewrite count_containing_repeat. reflexivity.
  - intros H. specialize (H 3500).
    rewrite count_containing_repeat in H. vm_compute in H. discriminate.
Qed.

(** A server whose every answer passes the acceptance test and carries
    items and a quota lets every turn end with the initial step, so the
    runs of both scripts against it cover the axis as soon as the
    initial step is positive. *)
Lemma fitting_server_turns_well (t : Z) (its : list RawItem.t)
      (rl : RateLimit) (c : Constants) (F : Z) :
  t <= MAX_RESULTS_PER_SEARCH c ->
  0 < INITIAL_STAR_RANGE c ->
  let E := constant_server (mkBody (Some t) (Some its) (Some rl)) in
  Part001_turns_well E c 1 F /\ FetchReposStars_turns_well E c 1 F.
Proof.
  intros Ht Hinit E.
  assert (Hfit : js_le (Some t) (MAX_RESULTS_PER_SEARCH c) = true).
  { cbn. apply Z.leb_le. exact Ht. }
  assert (Hwait : forall option (s : State E),
             exists s', Part001.waitForRateLimitReset E option s
                        = (Normal tt, s')).
  { intros option s.
    erewrite waitForRateLimitReset_policy by reflexivity.
    eexists. reflexivity. }
  assert (Hwalk : forall url (s : State E),
             truthy url = true ->
             pagination_loop E 1 (Some url) [] s
             = (Normal (map project (filter keep its)),
                requested url (world s) s)).
  { intros url s Hurl. cbn [pagination_loop]. rewrite Hurl.
    unfold bind, page, bind. cbn. reflexivity. }
  split.
  - intros cutoff repoData s _.
    destruct (Hwait 1 s) as (s0 & H0).
    assert (Hplan : exists p s1,
               Part001.plan E c 1 cutoff s = (Normal p, s1)
               /\ starCountRange p = INITIAL_STAR_RANGE c).
    { eexists. eexists. split.
      - unfold Part001.plan, bind at 1. rewrite H0.
        rewrite Part001_shrink_loop_S.
        erewrite probe_body by reflexivity.
        cbn [total_count]. rewrite Hfit, orb_true_r. reflexivity.
      - reflexivity. }
    destruct Hplan as (p & s1 & Hplan & Hstep).
    destruct (Hwait 2 s1) as (s2 & H2).
    exists p, s1. eexists. eexists. split; [exact Hplan|].
    split; [rewrite Hstep; exact Hinit|].
    unfold Part001.collect, bind at 1. rewrite H2.
    unfold bind at 1, note_accepted. unfold bind at 1.
    unfold Part001.fetchRepositoriesWithPagination, try_catch, bind at 1.
    rewrite Hwalk by reflexivity. reflexivity.
  - intros cutoff repoData s _.
    eexists. eexists. eexists. eexists. split; [|split].
    + unfold FetchReposStars.plan.
      rewrite FetchReposStars_shrink_loop_S by reflexivity.
      erewrite probe_body by reflexivity.
      cbn [total_count]. rewrite Hfit. reflexivity.
    + exact Hinit.
    + unfold FetchReposStars.collect, bind at 1, note_accepted.
      unfold bind at 1.
      unfold FetchReposStars.fetchRepositoriesWithPagination, try_catch.
      rewrite Hwalk by reflexivity. reflexivity.
Qed.

(** * Further properties of the scripts *)

(** ** Counting requests *)

Section Requests.
Context {E : Env}.

Lemma adds_ret {A} (a : A) : adds_requests 0 (@ret E A a).
Proof. intros s. exists []. split; [reflexivity | apply le_n]. Qed.

Lemma adds_throw {A} : adds_requests 0 (@throw E A).
Proof. intros s. exists []. split; [reflexivity | apply le_n]. Qed.

Lemma adds_running {A} : adds_requests 0 (@running E A).
Proof. intros s. exists []. split; [reflexivity | apply le_n]. Qed.

Lemma adds_mono {A} (b b' : nat) (m : M E A) :
  (b <= b')%nat -> adds_requests b m -> adds_requests b' m.
Proof.
  intros Hle Hm s. destruct (Hm s) as (new & Hnew & Hlen).
  exists new. split; [exact Hnew | lia].
Qed.

Lemma adds_bind {A B} (b1 b2 : nat) (m : M E A) (k : A -> M E B) :
  adds_requests b1 m -> (forall a, adds_requests b2 (k a)) ->
  adds_requests (b1 + b2) (bind m k).
Proof.
  intros Hm Hk s. unfold bind. destruct (Hm s) as (new & Hnew & Hlen).
  destruct (m s) as [[a| |] s1]; cbn [snd] in *;
    try (exists new; split; [exact Hnew | lia]).
  destruct (Hk a s1) as (new' & Hnew' & Hlen').
  exists (new' ++ new). split.
  - rewrite Hnew', Hnew, app_assoc. reflexivity.
  - rewrite length_app. lia.
Qed.

Lemma adds_await_fetch (url : jsstring) :
  adds_requests 1 (@await_fetch E url).
Proof.
  intros s. exists [url]. unfold await_fetch.
  destruct (fetch E url (world s)) as [[|json link] w];
    (split; [reflexivity | apply le_n]).
Qed.

Lemma adds_response_json (r : Response) :
  adds_requests 0 (@response_json E r).
Proof.
  destruct r as [|[b|] l]; [apply adds_throw | apply adds_ret
                            | apply adds_throw].
Qed.

End Requests.

Lemma adds_Part001_shrink_loop (E : Env) (c : Constants) (fuel : nat) :
  forall (starCutoff : Z) (p : Planning),
    adds_requests fuel (Part001.shrink_loop E c fuel starCutoff p).
Proof.
  induction fuel as [|fuel IH]; intros cutoff p.
  - apply adds_running.
  - rewrite Part001_shrink_loop_S.
    change (S fuel) with (1 + (0 + fuel))%nat.
    apply adds_bind; [apply adds_await_fetch|]. intros response.
    apply adds_bind; [apply adds_response_json|]. intros body.
    destruct (_ || _);
      [apply adds_mono with (b := O); [lia | apply adds_ret]|].
    cbv zeta. destruct (cutoff =? _);
      [apply adds_mono with (b := O); [lia | apply adds_ret]|].
    destruct (js_gt _ _);
      [apply IH | apply adds_mono with (b := O); [lia | apply adds_ret]].
Qed.

Lemma adds_Part000_shrink_loop (E : Env) (c : Constants) (fuel : nat) :
  forall (starCutoff : Z) (p : Planning),
    adds_requests fuel (Part000.shrink_loop E c fuel starCutoff p).
Proof.
  induction fuel as [|fuel IH]; intros cutoff p;
    destruct (still_searching c p) eqn:Hhead;
    try (rewrite Part000_shrink_loop_done by exact Hhead;
         apply adds_mono with (b := O); [lia | apply adds_ret]).
  - unfold still_searching in Hhead. cbn [Part000.shrink_loop].
    rewrite Hhead. apply adds_running.
  - rewrite Part000_shrink_loop_S by exact Hhead.
    change (S fuel) with (1 + (0 + fuel))%nat.
    apply adds_bind; [apply adds_await_fetch|]. intros response.
    apply adds_bind; [apply adds_response_json|]. intros body.
    destruct (_ || _);
      [apply adds_mono with (b := O); [lia | apply adds_ret]|].
    cbv zeta. destruct (cutoff =? _);
      [apply adds_mono with (b := O); [lia | apply adds_ret] | apply IH].
Qed.

(** ** The planning loop: how long it runs and what it ends with *)

(** X1.  In the two scripts with the guard, a planning round that starts
    from the step [starCountRange p] ends (with a value or an exception)
    within [fuel] probes as soon as [fuel] decrements bring the step to
    one or less, whatever the server answers, and it has sent at most
    [fuel] requests by then.  With the constants of both scripts that is
    ten probes. *)
Theorem planning_round_is_bounded :
  forall (E : Env) (c : Constants) (fuel : nat) (starCutoff : Z)
         (p : Planning) (s : State E),
    0 < STAR_RANGE_DECREMENT c ->
    (1 <= fuel)%nat ->
    starCountRange p - Z.of_nat fuel * STAR_RANGE_DECREMENT c <= 1 ->
    (fst (Part001.shrink_loop E c fuel starCutoff p s) <> Running
     /\ exists new,
          requests (snd (Part001.shrink_loop E c fuel starCutoff p s))
          = new ++ requests s
          /\ (List.length new <= fuel)%nat)
    /\ (fst (Part000.shrink_loop E c fuel starCutoff p s) <> Running
        /\ exists new,
             requests (snd (Part000.shrink_loop E c fuel starCutoff p s))
             = new ++ requests s
             /\ (List.length new <= fuel)%nat).
Proof.
  intros E c fuel cutoff p s Hdec Hfuel Hstep. split; split.
  - apply Part001_shrink_loop_terminates; assumption.
  - apply adds_Part001_shrink_loop.
  - apply Part000_shrink_loop_terminates; assumption.
  - apply adds_Part000_shrink_loop.
Qed.

Lemma planning_round_is_bounded_witness :
  let c := Part001.constants in
  let p := mkPlanning 3000 (Part001.candidate c 3499 3000) empty_object in
  let s := fresh crowded_server tt in
  (fst (Part001.shrink_loop crowded_server c 10 3499 p s) <> Running
   /\ exists new,
        requests (snd (Part001.shrink_loop crowded_server c 10 3499 p s))
        = new ++ requests s
        /\ (List.length new <= 10)%nat)
  /\ (fst (Part000.shrink_loop crowded_server c 10 3499 p s) <> Running
      /\ exists new,
           requests (snd (Part000.shrink_loop crowded_server c 10 3499 p s))
           = new ++ requests s
           /\ (List.length new <= 10)%nat).
Proof.
  intros c p s.
  apply (planning_round_is_bounded crowded_server c 10 3499 p s).
  - reflexivity.
  - repeat constructor.
  - vm_compute. discriminate.
Defined.

Lemma FetchReposStars_shrink_loop_fit (E : Env) (c : Constants) :
  forall (fuel : nat) (starCutoff : Z) (p p' : Planning) (s s' : State E),
    still_searching c p = true ->
    FetchReposStars.shrink_loop E c fuel starCutoff p s = (Normal p', s') ->
    js_le (total_count (data p')) (MAX_RESULTS_PER_SEARCH c) = true
    /\ hd [] (requests s') = query_url c (starCountParsedRange p')
    /\ exists k,
         (k < fuel)%nat
         /\ starCountRange p'
            = starCountRange p - Z.of_nat k * STAR_RANGE_DECREMENT c.
Proof.
  induction fuel as [|fuel IH]; intros cutoff p p' s s' Hhead.
  - rewrite FetchReposStars_shrink_loop_O by exact Hhead. discriminate.
  - rewrite FetchReposStars_shrink_loop_S by exact Hhead.
    probe body link w Hf; [|discriminate].
    destruct (js_le (total_count body) (MAX_RESULTS_PER_SEARCH c)) eqn:Hfit.
    + intros H; inversion H; subst. cbn [data starCountParsedRange].
      split; [exact Hfit|]. split; [reflexivity|].
      exists O. split; [lia|]. cbn. lia.
    + cbv zeta. intros Hrun.
      apply IH in Hrun.
      * destruct Hrun as (H1 & H2 & k & Hk & Hstep).
        split; [exact H1|]. split; [exact H2|].
        exists (S k). split; [lia|]. rewrite Hstep. cbn [starCountRange]. lia.
      * unfold still_searching. cbn [data].
        destruct (total_count body) as [v|]; [|reflexivity].
        cbn in *. apply Z.leb_gt in Hfit.
        destruct (Z.ltb_spec (MAX_RESULTS_PER_SEARCH c) v); [reflexivity|lia].
Qed.

(** X2.  Every range the planning of [fetch-repos-stars.js] ends with
    has been measured: the last request of the round is the probe of
    exactly that range, its answer carried a total of at most
    [MAX_RESULTS_PER_SEARCH], and the step is the initial step less a
    whole number of decrements, fewer than the probes allowed. *)
Theorem FetchReposStars_accepts_what_it_measured :
  forall (E : Env) (c : Constants) (fuel : nat) (starCutoff : Z)
         (p : Planning) (s s' : State E),
    FetchReposStars.plan E c fuel starCutoff s = (Normal p, s') ->
    js_le (total_count (data p)) (MAX_RESULTS_PER_SEARCH c) = true
    /\ hd [] (requests s') = query_url c (starCountParsedRange p)
    /\ starCountParsedRange p
       = FetchReposStars.candidate c starCutoff (starCountRange p)
    /\ exists k,
         (k < fuel)%nat
         /\ starCountRange p
            = INITIAL_STAR_RANGE c - Z.of_nat k * STAR_RANGE_DECREMENT c.
Proof.
  intros E c fuel cutoff p s s' Hplan. unfold FetchReposStars.plan in Hplan.
  assert (Hcons : starCountParsedRange p
                  = FetchReposStars.candidate c cutoff (starCountRange p)).
  { eapply FetchReposStars_shrink_loop_consistent; [|exact Hplan].
    reflexivity. }
  apply FetchReposStars_shrink_loop_fit in Hplan; [|reflexivity].
  destruct Hplan as (H1 & H2 & k & Hk & Hstep).
  split; [exact H1|]. split; [exact H2|]. split; [exact Hcons|].
  exists k. split; [exact Hk | exact Hstep].
Qed.

Lemma FetchReposStars_accepts_what_it_measured_witness :
  let E := table_server scenario_pages in
  let r := FetchReposStars.plan E scenario_constants 5 3499 (fresh E tt) in
  exists p s',
    r = (Normal p, s')
    /\ starCountParsedRange p = mkRange 3499 4298
    /\ js_le (total_count (data p)) 1000 = true
    /\ hd [] (requests s')
       = query_url scenario_constants (starCountParsedRange p).
Proof.
  intros E r. eexists. eexists. split; [vm_compute; reflexivity|].
  split; [reflexivity|].
  destruct (FetchReposStars_accepts_what_it_measured E scenario_constants 5
              3499 _ (fresh E tt) _ eq_refl) as (H1 & H2 & _).
  split; [exact H1 | exact H2].
Defined.

Lemma Part001_shrink_loop_exits_witness :
  let c := Part001.constants in
  let p0 := mkPlanning 3000 (Part001.candidate c 3499 3000) empty_object in
  let r := Part001.shrink_loop crowded_server c 10 3499 p0
             (fresh crowded_server tt) in
  exists p' s',
    r = (Normal p', s')
    /\ starCountRange p' = 0
    /\ (js_strict_eq (total_count (data p')) 0
        || js_le (total_count (data p')) (MAX_RESULTS_PER_SEARCH c) = true
        \/ 3499 = high (starCountParsedRange p')
        \/ total_count (data p') = None).
Proof.
  intros c p0 r. eexists. eexists. split; [vm_compute; reflexivity|].
  split; [reflexivity|].
  eapply (Part001_shrink_loop_exits crowded_server c 10 3499 p0 _
            (fresh crowded_server tt)).
  vm_compute. reflexivity.
Defined.

(** X4.  The planning loop of the 500000-ceiling script, once it has
    probed, ends with a value in two ways only: the last probe passed
    the acceptance test, or the shrunk range has collapsed onto the
    cursor.  A body without [total_count] never ends it. *)
Theorem Part000_accepted_is_measured_or_collapsed :
  forall (E : Env) (c : Constants) (fuel : nat) (starCutoff : Z)
         (p p' : Planning) (s s' : State E),
    still_searching c p = true ->
    Part000.shrink_loop E c fuel starCutoff p s = (Normal p', s') ->
    js_strict_eq (total_count (data p')) 0
    || js_le (total_count (data p')) (MAX_RESULTS_PER_SEARCH c) = true
    \/ starCutoff = high (starCountParsedRange p').
Proof.
  intros E c. induction fuel as [|fuel IH]; intros cutoff p p' s s' Hhead.
  - unfold still_searching in Hhead. cbn [Part000.shrink_loop].
    rewrite Hhead. discriminate.
  - rewrite Part000_shrink_loop_S by exact Hhead.
    probe body link w Hf; [|discriminate].
    destruct (_ || _) eqn:Hfit.
    + intros H; inversion H; subst. left. exact Hfit.
    + cbv zeta.
      destruct (Z.eqb_spec cutoff
        (high (Part000.candidate c cutoff
                 (starCountRange p - STAR_RANGE_DECREMENT c)))) as [Heq|_].
      * intros H; inversion H; subst. right. exact Heq.
      * apply IH. unfold still_searching. cbn [data].
        apply orb_false_iff in Hfit. destruct Hfit as [_ Hle].
        destruct (total_count body) as [v|]; [|reflexivity].
        cbn in *. apply Z.leb_gt in Hle.
        destruct (Z.ltb_spec (MAX_RESULTS_PER_SEARCH c) v); [reflexivity|lia].
Qed.

Lemma Part000_accepted_is_measured_or_collapsed_witness :
  let c := Part000.constants in
  let p0 := mkPlanning 3000 (Part000.candidate c 3500 3000) empty_object in
  let r := Part000.shrink_loop mute_server c 10 3500 p0
             (fresh mute_server tt) in
  exists p' s',
    r = (Normal p', s')
    /\ starCountParsedRange p' = mkRange 3500 3500
    /\ List.length (requests s') = 10%nat
    /\ (js_strict_eq (total_count (data p')) 0
        || js_le (total_count (data p')) (MAX_RESULTS_PER_SEARCH c) = true
        \/ 3500 = high (starCountParsedRange p')).
Proof.
  intros c p0 r. eexists. eexists. split; [vm_compute; reflexivity|].
  split; [reflexivity|]. split; [reflexivity|].
  eapply (Part000_accepted_is_measured_or_collapsed mute_server c 10 3500 p0
            _ (fresh mute_server tt)).
  - reflexivity.
  - vm_compute. reflexivity.
Defined.

Lemma Part001_shrink_loop_step_nonneg (E : Env) (c : Constants) :
  0 < STAR_RANGE_DECREMENT c ->
  forall (fuel : nat) (starCutoff : Z) (p p' : Planning) (s s' : State E),
    (STAR_RANGE_DECREMENT c | starCountRange p) ->
    0 < starCountRange p ->
    Part001.shrink_loop E c fuel starCutoff p s = (Normal p', s') ->
    0 <= starCountRange p'.
Proof.
  intros Hdec. induction fuel as [|fuel IH]; intros cutoff p p' s s' Hdiv Hpos.
  - discriminate.
  - assert (Hge : STAR_RANGE_DECREMENT c <= starCountRange p)
      by (apply Z.divide_pos_le; assumption).
    rewrite Part001_shrink_loop_S.
    probe body link w Hf; [|discriminate].
    destruct (_ || _).
    + intros H; inversion H; subst. cbn. lia.
    + cbv zeta.
      destruct (Z.eqb_spec cutoff
        (high (Part001.candidate c cutoff
                 (starCountRange p - STAR_RANGE_DECREMENT c)))) as [_|Hne].
      * intros H; inversion H; subst. cbn. lia.
      * destruct (js_gt _ _).
        -- apply IH; cbn [starCountRange].
           ++ apply Z.divide_sub_r; [exact Hdiv | apply Z.divide_refl].
           ++ destruct (Z_le_gt_dec
                          (starCountRange p - STAR_RANGE_DECREMENT c) 1)
                as [Hle|Hgt]; [|lia].
              exfalso. apply Hne. apply Part001_candidate_pinned. exact Hle.
        -- intros H; inversion H; subst. cbn. lia.
Qed.

(** Whatever holds of every range a turn plans holds of every range a
    run notes. *)
Lemma Part001_planned_Forall (E : Env) (c : Constants) (fuel : nat)
      (Q : Accepted -> Prop) :
  (forall starCutoff s p s1,
      Part001.plan E c fuel starCutoff s = (Normal p, s1) ->
      Q (mkAccepted (starCountParsedRange p) (starCountRange p))) ->
  forall (n : nat) (starCutoff : Z) (repoData : list Repo.t) (s : State E),
    Forall Q (planned s) ->
    Forall Q
      (planned (snd (Part001.outer_loop E c n fuel starCutoff repoData s))).
Proof.
  intros HQ. induction n as [|n IH]; intros cutoff repoData s Hall.
  - exact Hall.
  - cbn [Part001.outer_loop]. unfold bind at 1.
    pose proof (keeps_Part001_plan E c fuel cutoff s) as Hkeep.
    destruct (Part001.plan E c fuel cutoff s) as [[p| |] s1] eqn:Hplan;
      cbn [snd] in *; try (rewrite Hkeep; exact Hall).
    pose proof (HQ _ _ _ _ Hplan) as Hp.
    unfold bind at 1.
    pose proof (Part001_collect_planned E c fuel repoData p s1) as Hcol.
    destruct (Part001.collect E c fuel repoData p s1)
      as [[repoData'| |] s2]; cbn [snd] in *.
    + assert (Hall2 : Forall Q (planned s2)).
      { destruct Hcol as [-> | ->]; rewrite Hkeep;
          [exact Hall | constructor; [exact Hp | exact Hall]]. }
      destruct (_ >? _); [exact Hall2 | apply IH; exact Hall2].
    + destruct Hcol as [-> | ->]; rewrite Hkeep;
        [exact Hall | constructor; [exact Hp | exact Hall]].
    + destruct Hcol as [-> | ->]; rewrite Hkeep;
        [exact Hall | constructor; [exact Hp | exact Hall]].
Qed.

(** X5.  When the decrement is positive and divides a positive initial
    step (300 and 3000 in the script), the 364000-ceiling script never
    plans a negative step: the shrinking stops at zero at the latest, so
    every step by which a run advances its cursor is zero or more and
    the cursor never moves back. *)
Theorem Part001_cursor_never_retreats :
  forall (E : Env) (c : Constants) (fuel : nat),
    0 < STAR_RANGE_DECREMENT c ->
    0 < INITIAL_STAR_RANGE c ->
    (STAR_RANGE_DECREMENT c | INITIAL_STAR_RANGE c) ->
    (forall (starCutoff : Z) (s s' : State E) (p : Planning),
        Part001.plan E c fuel starCutoff s = (Normal p, s') ->
        0 <= starCountRange p)
    /\ (forall (n : nat) (starCutoff : Z) (repoData : list Repo.t)
               (s : State E),
           Forall (fun a => 0 <= step a) (planned s) ->
           Forall (fun a => 0 <= step a)
             (planned
                (snd (Part001.outer_loop E c n fuel starCutoff repoData s)))).
Proof.
  intros E c fuel Hdec Hinit Hdiv.
  assert (Hplan : forall cutoff (s s' : State E) p,
             Part001.plan E c fuel cutoff s = (Normal p, s') ->
             0 <= starCountRange p).
  { intros cutoff s s' p Hp. unfold Part001.plan, bind in Hp.
    destruct (Part001.waitForRateLimitReset E 1 s) as [[[]| |] s0];
      try discriminate.
    eapply (Part001_shrink_loop_step_nonneg E c Hdec); [| |exact Hp];
      assumption. }
  split; [exact Hplan|].
  intros n cutoff repoData s Hall.
  apply (Part001_planned_Forall E c fuel (fun a => 0 <= step a));
    [|exact Hall].
  intros cutoff' s0 p s1 Hp. cbn [step]. eapply Hplan. exact Hp.
Qed.

Lemma Part001_cursor_never_retreats_witness :
  let E := crowded_server in
  let c := Part001.constants in
  let r := Part001.outer_loop E c 2 10 3499 [] (fresh E tt) in
  map step (planned (snd r)) = [0; 0]
  /\ Forall (fun a => 0 <= step a) (planned (snd r)).
Proof.
  intros E c r. split; [vm_compute; reflexivity|].
  destruct (Part001_cursor_never_retreats E c 10) as [_ Hrun].
  - reflexivity.
  - reflexivity.
  - exists 10. reflexivity.
  - apply Hrun. constructor.
Defined.

(** X6.  At or beyond the ceiling the two scripts with the guard probe
    once: whatever the answer, the round ends after the first request,
    because a shrunk range there is already pinned to the cursor. *)
Theorem one_probe_at_the_ceiling :
  forall (E : Env) (c : Constants) (fuel : nat) (starCutoff : Z)
         (p : Planning) (s : State E),
    STAR_MAX c <= starCutoff ->
    (fst (Part001.shrink_loop E c (S fuel) starCutoff p s) <> Running
     /\ requests (snd (Part001.shrink_loop E c (S fuel) starCutoff p s))
        = query_url c (starCountParsedRange p) :: requests s)
    /\ (still_searching c p = true ->
        fst (Part000.shrink_loop E c (S fuel) starCutoff p s) <> Running
        /\ requests (snd (Part000.shrink_loop E c (S fuel) starCutoff p s))
           = query_url c (starCountParsedRange p) :: requests s).
Proof.
  intros E c fuel cutoff p s Hceil.
  assert (H1 : (cutoff =? high (Part001.candidate c cutoff
                  (starCountRange p - STAR_RANGE_DECREMENT c))) = true).
  { apply Z.eqb_eq. unfold Part001.candidate. cbn. lia. }
  assert (H0 : (cutoff =? high (Part000.candidate c cutoff
                  (starCountRange p - STAR_RANGE_DECREMENT c))) = true).
  { apply Z.eqb_eq. unfold Part000.candidate. cbn. lia. }
  split; [|intros Hhead].
  - assert (H : exists o w,
               Part001.shrink_loop E c (S fuel) cutoff p s
               = (o, requested (query_url c (starCountParsedRange p)) w s)
               /\ o <> Running).
    { rewrite Part001_shrink_loop_S. unfold bind at 1 2, await_fetch.
      destruct (fetch E _ (world s)) as [[|[body|] link] w];
        cbn [response_json]; unfold throw, ret;
        try (eexists; eexists; split; [reflexivity | discriminate]).
      destruct (_ || _);
        [eexists; eexists; split; [reflexivity | discriminate]|].
      cbv zeta. rewrite H1.
      eexists; eexists; split; [reflexivity | discriminate]. }
    destruct H as (o & w & -> & Ho). split; [exact Ho | reflexivity].
  - assert (H : exists o w,
               Part000.shrink_loop E c (S fuel) cutoff p s
               = (o, requested (query_url c (starCountParsedRange p)) w s)
               /\ o <> Running).
    { rewrite Part000_shrink_loop_S by exact Hhead.
      unfold bind at 1 2, await_fetch.
      destruct (fetch E _ (world s)) as [[|[body|] link] w];
        cbn [response_json]; unfold throw, ret;
        try (eexists; eexists; split; [reflexivity | discriminate]).
      destruct (_ || _);
        [eexists; eexists; split; [reflexivity | discriminate]|].
      cbv zeta. rewrite H0.
      eexists; eexists; split; [reflexivity | discriminate]. }
    destruct H as (o & w & -> & Ho). split; [exact Ho | reflexivity].
Qed.

Lemma one_probe_at_the_ceiling_witness :
  let E := crowded_server in
  let c := Part001.constants in
  let p := mkPlanning 3000 (Part001.candidate c 364000 3000) empty_object in
  let s := fresh E tt in
  (fst (Part001.shrink_loop E c 10 364000 p s) <> Running
   /\ requests (snd (Part001.shrink_loop E c 10 364000 p s))
      = query_url c (mkRange 364000 364000) :: requests s)
  /\ (still_searching c p = true ->
      fst (Part000.shrink_loop E c 10 364000 p s) <> Running
      /\ requests (snd (Part000.shrink_loop E c 10 364000 p s))
         = query_url c (mkRange 364000 364000) :: requests s).
Proof.
  intros E c p s.
  apply (one_probe_at_the_ceiling E c 9 364000 p s).
  vm_compute. discriminate.
Defined.

(** ** process.exitCode *)

Section ExitCode.
Context {E : Env}.

Lemma exit_ret {A} (a : A) : keeps_exitCode (@ret E A a).
Proof. intros s. reflexivity. Qed.

Lemma exit_throw {A} : keeps_exitCode (@throw E A).
Proof. intros s. reflexivity. Qed.

Lemma exit_running {A} : keeps_exitCode (@running E A).
Proof. intros s. reflexivity. Qed.

Lemma exit_bind {A B} (m : M E A) (k : A -> M E B) :
  keeps_exitCode m -> (forall a, keeps_exitCode (k a)) ->
  keeps_exitCode (bind m k).
Proof.
  intros Hm Hk s. unfold bind. specialize (Hm s).
  destruct (m s) as [[a| |] s1]; cbn [snd] in *; try exact Hm.
  rewrite Hk. exact Hm.
Qed.

Lemma exit_try_catch {A} (body handler : M E A) :
  keeps_exitCode body -> keeps_exitCode handler ->
  keeps_exitCode (try_catch body handler).
Proof.
  intros Hb Hh s. unfold try_catch. specialize (Hb s).
  destruct (body s) as [[a| |] s1]; cbn [snd] in *; try exact Hb.
  rewrite Hh. exact Hb.
Qed.

Lemma exit_of_option {A} (o : option A) : keeps_exitCode (@of_option E A o).
Proof. destruct o; [apply exit_ret | apply exit_throw]. Qed.

Lemma exit_await_fetch (url : jsstring) : keeps_exitCode (@await_fetch E url).
Proof.
  intros s. unfold await_fetch.
  destruct (fetch E url (world s)) as [[|json link] w]; reflexivity.
Qed.

Lemma exit_response_json (r : Response) : keeps_exitCode (@response_json E r).
Proof.
  destruct r as [|[b|] l]; [apply exit_throw | apply exit_ret
                            | apply exit_throw].
Qed.

Lemma exit_sleep (ms : Number) : keeps_exitCode (@sleep E ms).
Proof. intros s. reflexivity. Qed.

Lemma exit_date_now : keeps_exitCode (@date_now E).
Proof. intros s. reflexivity. Qed.

Lemma exit_note_accepted (a : Accepted) : keeps_exitCode (@note_accepted E a).
Proof. intros s. reflexivity. Qed.

Lemma quietly_of_keeps {A} (m : M E A) : keeps_exitCode m -> returns_quietly m.
Proof. intros H s a s' Hrun. specialize (H s). rewrite Hrun in H. exact H. Qed.

Lemma quietly_bind {A B} (m : M E A) (k : A -> M E B) :
  returns_quietly m -> (forall a, returns_quietly (k a)) ->
  returns_quietly (bind m k).
Proof.
  intros Hm Hk s b s'. unfold bind.
  destruct (m s) as [[a| |] s1] eqn:Hrun; try discriminate.
  intros H. rewrite (Hk a s1 b s' H). eapply Hm. exact Hrun.
Qed.

End ExitCode.

Create HintDb exit.

#[local] Hint Resolve exit_ret exit_throw exit_running exit_of_option
  exit_await_fetch exit_response_json exit_sleep exit_date_now
  exit_note_accepted : exit.

(** Take a computation apart along its binds. *)
Ltac exit_frame :=
  repeat first
    [ apply exit_bind; [|intros ?]
    | apply exit_try_catch
    | solve [auto with exit]
    | match goal with |- keeps_exitCode (if ?b then _ else _) => destruct b end
    | match goal with
      | |- keeps_exitCode (match ?o with Some _ => _ | None => _ end) =>
          destruct o
      end ].

Section ExitCodeScripts.
Context (E : Env) (c : Constants).

Lemma exit_fetchRateLimit : keeps_exitCode (fetchRateLimit E).
Proof. unfold fetchRateLimit. exit_frame. Qed.

Lemma exit_waitForRateLimitReset (option : Z) :
  keeps_exitCode (Part001.waitForRateLimitReset E option).
Proof.
  unfold Part001.waitForRateLimitReset.
  apply exit_bind; [apply exit_fetchRateLimit|]. intros rl. exit_frame.
Qed.

Lemma exit_page (url : jsstring) : keeps_exitCode (page E url).
Proof. unfold page. exit_frame. Qed.

Lemma exit_pagination_loop (fuel : nat) :
  forall (next : option jsstring) (acc : list Repo.t),
    keeps_exitCode (pagination_loop E fuel next acc).
Proof.
  induction fuel as [|fuel IH]; intros [url|] acc; cbn [pagination_loop];
    try apply exit_ret.
  - destruct (truthy url); [apply exit_running | apply exit_ret].
  - destruct (truthy url); [|apply exit_ret].
    apply exit_bind; [apply exit_page|]. intros r. apply IH.
Qed.

Lemma exit_Part001_shrink_loop (fuel : nat) :
  forall (starCutoff : Z) (p : Planning),
    keeps_exitCode (Part001.shrink_loop E c fuel starCutoff p).
Proof.
  induction fuel as [|fuel IH]; intros cutoff p.
  - apply exit_running.
  - rewrite Part001_shrink_loop_S.
    apply exit_bind; [exit_frame|]. intros response.
    apply exit_bind; [exit_frame|]. intros body.
    destruct (_ || _); [exit_frame|]. cbv zeta.
    destruct (cutoff =? _); [exit_frame|].
    destruct (js_gt _ _); [apply IH | exit_frame].
Qed.

Lemma exit_Part000_shrink_loop (fuel : nat) :
  forall (starCutoff : Z) (p : Planning),
    keeps_exitCode (Part000.shrink_loop E c fuel starCutoff p).
Proof.
  induction fuel as [|fuel IH]; intros cutoff p;
    destruct (still_searching c p) eqn:Hhead;
    try (rewrite Part000_shrink_loop_done by exact Hhead; apply exit_ret).
  - unfold still_searching in Hhead. cbn [Part000.shrink_loop].
    rewrite Hhead. apply exit_running.
  - rewrite Part000_shrink_loop_S by exact Hhead.
    apply exit_bind; [exit_frame|]. intros response.
    apply exit_bind; [exit_frame|]. intros body.
    destruct (_ || _); [exit_frame|]. cbv zeta.
    destruct (cutoff =? _); [exit_frame | apply IH].
Qed.

Lemma exit_FetchReposStars_shrink_loop (fuel : nat) :
  forall (starCutoff : Z) (p : Planning),
    keeps_exitCode (FetchReposStars.shrink_loop E c fuel starCutoff p).
Proof.
  induction fuel as [|fuel IH]; intros cutoff p;
    destruct (still_searching c p) eqn:Hhead;
    try (rewrite FetchReposStars_shrink_loop_done by exact Hhead;
         apply exit_ret).
  - rewrite FetchReposStars_shrink_loop_O by exact Hhead.
    apply exit_running.
  - rewrite FetchReposStars_shrink_loop_S by exact Hhead.
    apply exit_bind; [exit_frame|]. intros response.
    apply exit_bind; [exit_frame|]. intros body.
    destruct (js_le _ _); [exit_frame|]. apply IH.
Qed.

Lemma exit_FetchReposStars_fetchRepositoriesWithPagination (fuel : nat)
      (url : jsstring) :
  keeps_exitCode (FetchReposStars.fetchRepositoriesWithPagination E fuel url).
Proof.
  unfold FetchReposStars.fetchRepositoriesWithPagination.
  apply exit_try_catch; [apply exit_pagination_loop | apply exit_throw].
Qed.

Lemma exit_FetchReposStars_outer_loop (fuel : nat) :
  forall (n : nat) (starCutoff : Z) (repoData : list Repo.t),
    keeps_exitCode (FetchReposStars.outer_loop E c n fuel starCutoff repoData).
Proof.
  induction n as [|n IH]; intros cutoff repoData;
    cbn [FetchReposStars.outer_loop]; [apply exit_running|].
  apply exit_bind; [apply exit_FetchReposStars_shrink_loop|]. intros p.
  apply exit_bind.
  - unfold FetchReposStars.collect.
    apply exit_bind; [apply exit_note_accepted|]. intros _.
    apply exit_bind;
      [apply exit_FetchReposStars_fetchRepositoriesWithPagination|].
    intros l. apply exit_ret.
  - intros repoData'. destruct (_ >? _); [apply exit_ret | apply IH].
Qed.

(** The collector of the two later scripts: a list with the exit code
    untouched, or [undefined] with the exit code 1, never an
    exception. *)
Lemma Part001_collector_outcomes (fuel : nat) (url : jsstring) (s : State E) :
  match Part001.fetchRepositoriesWithPagination E fuel url s with
  | (Normal (Some _), s') => exitCode s' = exitCode s
  | (Normal None, s') => exitCode s' = 1
  | (Thrown, _) => False
  | (Running, s') => exitCode s' = exitCode s
  end.
Proof.
  unfold Part001.fetchRepositoriesWithPagination, try_catch, bind.
  pose proof (exit_pagination_loop fuel (Some url) [] s) as H.
  destruct (pagination_loop E fuel (Some url) [] s) as [[l| |] s1];
    cbn [snd] in H; cbn; auto.
Qed.

Lemma quietly_Part001_collect (fuel : nat) (repoData : list Repo.t)
      (p : Planning) :
  returns_quietly (Part001.collect E c fuel repoData p).
Proof.
  unfold Part001.collect.
  apply quietly_bind;
    [apply quietly_of_keeps, exit_waitForRateLimitReset|]. intros _.
  apply quietly_bind; [apply quietly_of_keeps, exit_note_accepted|].
  intros _ s l s'. unfold bind.
  pose proof (Part001_collector_outcomes fuel
                (query_url c (starCountParsedRange p)) s) as H.
  destruct (Part001.fetchRepositoriesWithPagination E fuel _ s)
    as [[[fetched|]| |] s1]; try discriminate.
  cbn [push_spread]. unfold ret. intros Hr; inversion Hr; subst. exact H.
Qed.

Lemma quietly_Part001_outer_loop (fuel : nat) :
  forall (n : nat) (starCutoff : Z) (repoData : list Repo.t),
    returns_quietly (Part001.outer_loop E c n fuel starCutoff repoData).
Proof.
  induction n as [|n IH]; intros cutoff repoData;
    cbn [Part001.outer_loop].
  - intros s a s'. discriminate.
  - apply quietly_bind.
    + apply quietly_of_keeps. unfold Part001.plan.
      apply exit_bind; [apply exit_waitForRateLimitReset|]. intros _.
      apply exit_Part001_shrink_loop.
    + intros p. apply quietly_bind; [apply quietly_Part001_collect|].
      intros repoData'. destruct (_ >? _);
        [apply quietly_of_keeps, exit_ret | apply IH].
Qed.

End ExitCodeScripts.

Section ExitCodePart000.
Context (E : Env) (c : Constants) (console_log : World E -> World E).

Lemma exit_busy_wait (fuel : nat) :
  forall reset : Z, keeps_exitCode (Part000Run.busy_wait E console_log fuel reset).
Proof.
  induction fuel as [|fuel IH]; intros reset s; cbn [Part000Run.busy_wait];
    destruct (_ <? _); try reflexivity.
  rewrite IH. reflexivity.
Qed.

Lemma Part000_collector_outcomes (fuel : nat) (url : jsstring) (s : State E) :
  match Part000Run.fetchRepositoriesWithPagination E fuel url s with
  | (Normal (Some _), s') => exitCode s' = exitCode s
  | (Normal None, s') => exitCode s' = 1
  | (Thrown, _) => False
  | (Running, s') => exitCode s' = exitCode s
  end.
Proof. apply Part001_collector_outcomes. Qed.

Lemma quietly_Part000_collect (fuel : nat) (repoData : list Repo.t)
      (p : Planning) :
  returns_quietly (Part000Run.collect E c fuel repoData p).
Proof.
  unfold Part000Run.collect.
  destruct (negb _); [|apply quietly_of_keeps, exit_ret].
  apply quietly_bind; [apply quietly_of_keeps, exit_note_accepted|].
  intros _ s l s'. unfold bind.
  pose proof (Part000_collector_outcomes fuel
                (query_url c (starCountParsedRange p)) s) as H.
  destruct (Part000Run.fetchRepositoriesWithPagination E fuel _ s)
    as [[[fetched|]| |] s1]; try discriminate.
  cbn [push_spread]. unfold ret. intros Hr; inversion Hr; subst. exact H.
Qed.

Lemma quietly_Part000_outer_loop (fuel : nat) :
  forall (n : nat) (starCutoff : Z) (repoData : list Repo.t),
    returns_quietly
      (Part000Run.outer_loop E c console_log n fuel starCutoff repoData).
Proof.
  induction n as [|n IH]; intros cutoff repoData;
    cbn [Part000Run.outer_loop].
  - intros s a s'. discriminate.
  - apply quietly_bind.
    + apply quietly_of_keeps. unfold Part000Run.plan.
      apply exit_bind; [apply exit_fetchRateLimit|]. intros rl.
      apply exit_bind;
        [destruct (_ <? _); [apply exit_busy_wait | apply exit_ret]|].
      intros _. apply exit_Part000_shrink_loop.
    + intros p. apply quietly_bind; [apply quietly_Part000_collect|].
      intros repoData'. destruct (_ >? _);
        [apply quietly_of_keeps, exit_ret | apply IH].
Qed.

End ExitCodePart000.

(** X7.  [fetchAllRepos] of the two later scripts never rejects: every
    exception of a run is caught, and the call then yields [undefined]
    with [process.exitCode] set to 1; when it yields a result set the
    exit code is what it was before the call. *)
Theorem fetchAllRepos_fails_with_undefined :
  forall (E : Env) (c : Constants) (console_log : World E -> World E)
         (n fuel : nat) (starCountStart : Z) (s : State E),
    let r1 := Part001.fetchAllRepos E c n fuel starCountStart s in
    let r0 :=
      Part000Run.fetchAllRepos E c console_log n fuel starCountStart s in
    (fst r1 <> Thrown
     /\ (fst r1 = Normal None -> exitCode (snd r1) = 1)
     /\ (forall result,
            fst r1 = Normal (Some result) -> exitCode (snd r1) = exitCode s))
    /\ (fst r0 <> Thrown
        /\ (fst r0 = Normal None -> exitCode (snd r0) = 1)
        /\ (forall result,
               fst r0 = Normal (Some result) ->
               exitCode (snd r0) = exitCode s)).
Proof.
  intros E c console_log n fuel start s. cbv zeta. split.
  - unfold Part001.fetchAllRepos, try_catch, bind.
    pose proof (quietly_Part001_outer_loop E c fuel n start [] s) as Hq.
    destruct (Part001.outer_loop E c n fuel start [] s) as [[l| |] s1];
      cbn; (split; [discriminate|]); split; try discriminate;
      try reflexivity.
    intros result _. eapply Hq. reflexivity.
  - unfold Part000Run.fetchAllRepos, try_catch, bind.
    pose proof (quietly_Part000_outer_loop E c console_log fuel n start [] s)
      as Hq.
    destruct (Part000Run.outer_loop E c console_log n fuel start [] s)
      as [[l| |] s1];
      cbn; (split; [discriminate|]); split; try discriminate;
      try reflexivity.
    intros result _. eapply Hq. reflexivity.
Qed.

Lemma fetchAllRepos_fails_with_undefined_witness :
  let E := dead_server in
  let c := Part001.constants in
  let r1 := Part001.fetchAllRepos E c 5 5 3499 (fresh E tt) in
  r1 = (Normal None, mkState (tt : World E) 1 [rateLimitUrl] [])
  /\ fst r1 <> Thrown
  /\ (fst r1 = Normal None -> exitCode (snd r1) = 1).
Proof.
  intros E c r1. split; [vm_compute; reflexivity|].
  destruct (fetchAllRepos_fails_with_undefined E c (fun w => w) 5 5 3499
              (fresh E tt)) as [(H1 & H2 & _) _].
  split; [exact H1 | exact H2].
Defined.

(** X8.  Nothing in [fetchAllRepos] of [fetch-repos-stars.js], nor in
    its collector, changes [process.exitCode], however the call ends:
    the two handlers that are written to set it fail on the unbound
    [err] before they reach the assignment. *)
Theorem FetchReposStars_never_sets_exitCode :
  forall (E : Env) (c : Constants) (n fuel : nat) (starCountStart : Z)
         (url : jsstring) (s : State E),
    exitCode (snd (FetchReposStars.fetchAllRepos E c n fuel starCountStart s))
    = exitCode s
    /\ exitCode
         (snd (FetchReposStars.fetchRepositoriesWithPagination E fuel url s))
       = exitCode s.
Proof.
  intros E c n fuel start url s. split.
  - apply (exit_try_catch
             (fetchRateLimit E ;;; FetchReposStars.outer_loop E c n fuel start [])
             throw).
    + apply exit_bind; [apply exit_fetchRateLimit|]. intros _.
      apply exit_FetchReposStars_outer_loop.
    + apply exit_throw.
  - apply exit_FetchReposStars_fetchRepositoriesWithPagination.
Qed.

(** ** The result set *)

Lemma Part001_collect_appends (E : Env) (c : Constants) (fuel : nat)
      (repoData repoData' : list Repo.t) (p : Planning) (s s' : State E) :
  Part001.collect E c fuel repoData p s = (Normal repoData', s') ->
  exists fetched, repoData' = repoData ++ fetched.
Proof.
  unfold Part001.collect, bind, note_accepted.
  destruct (Part001.waitForRateLimitReset E 2 s) as [[[]| |] s1];
    try discriminate.
  destruct (Part001.fetchRepositoriesWithPagination E fuel _ _)
    as [[[fetched|]| |] s2]; try discriminate.
  cbn. intros H; inversion H; subst. exists fetched. reflexivity.
Qed.

Lemma FetchReposStars_collect_appends (E : Env) (c : Constants) (fuel : nat)
      (repoData repoData' : list Repo.t) (p : Planning) (s s' : State E) :
  FetchReposStars.collect E c fuel repoData p s = (Normal repoData', s') ->
  exists fetched, repoData' = repoData ++ fetched.
Proof.
  unfold FetchReposStars.collect, bind, note_accepted.
  destruct (FetchReposStars.fetchRepositoriesWithPagination E fuel _ _)
    as [[fetched| |] s2]; try discriminate.
  cbn. intros H; inversion H; subst. exists fetched. reflexivity.
Qed.

Lemma Part000_collect_appends (E : Env) (c : Constants) (fuel : nat)
      (repoData repoData' : list Repo.t) (p : Planning) (s s' : State E) :
  Part000Run.collect E c fuel repoData p s = (Normal repoData', s') ->
  exists fetched, repoData' = repoData ++ fetched.
Proof.
  unfold Part000Run.collect. destruct (negb _).
  - unfold bind, note_accepted.
    destruct (Part000Run.fetchRepositoriesWithPagination E fuel _ _)
      as [[[fetched|]| |] s2]; try discriminate.
    cbn. intros H; inversion H; subst. exists fetched. reflexivity.
  - unfold ret. intros H; inversion H; subst. exists [].
    rewrite app_nil_r. reflexivity.
Qed.

(** X9.  The loop of [fetchAllRepos] only appends: in each of the three
    scripts, the records it returns begin with the records it was
    resumed with, in their order; a turn never drops or reorders what
    earlier turns collected. *)
Theorem collected_records_are_only_appended :
  forall (E : Env) (c : Constants) (console_log : World E -> World E)
         (fuel n : nat) (starCutoff : Z)
         (repoData result : list Repo.t) (s s' : State E),
    (Part001.outer_loop E c n fuel starCutoff repoData s = (Normal result, s')
     -> exists fetched, result = repoData ++ fetched)
    /\ (FetchReposStars.outer_loop E c n fuel starCutoff repoData s
        = (Normal result, s')
        -> exists fetched, result = repoData ++ fetched)
    /\ (Part000Run.outer_loop E c console_log n fuel starCutoff repoData s
        = (Normal result, s')
        -> exists fetched, result = repoData ++ fetched).
Proof.
  intros E c console_log fuel n. induction n as [|n IH];
    intros cutoff repoData result s s'.
  - repeat split; discriminate.
  - split; [|split].
    + cbn [Part001.outer_loop]. unfold bind at 1.
      destruct (Part001.plan E c fuel cutoff s) as [[p| |] s1];
        try discriminate.
      unfold bind at 1.
      destruct (Part001.collect E c fuel repoData p s1)
        as [[repoData'| |] s2] eqn:Hc; try discriminate.
      apply Part001_collect_appends in Hc. destruct Hc as (f1 & ->).
      destruct (_ >? _).
      * unfold ret. intros H; inversion H; subst. exists f1. reflexivity.
      * intros H. apply IH in H. destruct H as (f2 & ->).
        exists (f1 ++ f2). rewrite app_assoc. reflexivity.
    + cbn [FetchReposStars.outer_loop]. unfold bind at 1.
      destruct (FetchReposStars.plan E c fuel cutoff s) as [[p| |] s1];
        try discriminate.
      unfold bind at 1.
      destruct (FetchReposStars.collect E c fuel repoData p s1)
        as [[repoData'| |] s2] eqn:Hc; try discriminate.
      apply FetchReposStars_collect_appends in Hc. destruct Hc as (f1 & ->).
      destruct (_ >? _).
      * unfold ret. intros H; inversion H; subst. exists f1. reflexivity.
      * intros H. apply IH in H. destruct H as (f2 & ->).
        exists (f1 ++ f2). rewrite app_assoc. reflexivity.
    + cbn [Part000Run.outer_loop]. unfold bind at 1.
      destruct (Part000Run.plan E c console_log fuel cutoff s)
        as [[p| |] s1]; try discriminate.
      unfold bind at 1.
      destruct (Part000Run.collect E c fuel repoData p s1)
        as [[repoData'| |] s2] eqn:Hc; try discriminate.
      apply Part000_collect_appends in Hc. destruct Hc as (f1 & ->).
      destruct (_ >? _).
      * unfold ret. intros H; inversion H; subst. exists f1. reflexivity.
      * intros H. apply IH in H. destruct H as (f2 & ->).
        exists (f1 ++ f2). rewrite app_assoc. reflexivity.
Qed.

Lemma collected_records_are_only_appended_witness :
  let E := catalog_server in
  let c := small_constants in
  let kept := [project (repo_with_stars 9)] in
  exists result s',
    Part001.outer_loop E c 5 20 3 kept (fresh E tt) = (Normal result, s')
    /\ map Repo.stars result = [9; 3; 7; 3; 7]
    /\ exists fetched, result = kept ++ fetched.
Proof.
  intros E c kept. eexists. eexists.
  split; [vm_compute; reflexivity|]. split; [reflexivity|].
  eapply (proj1 (collected_records_are_only_appended E c (fun w => w) 20 5 3
                   kept _ (fresh E tt) _)).
  vm_compute. reflexivity.
Defined.

(** ** main *)

Section MainFacts.
Context (E : Env) (store : Store E).

(** The inner [try] never lets an exception out: the records go to the
    store once, and a rejection or a response with [data] set to [null]
    sets the exit code. *)
Lemma persist_outcomes (repoData : option (list Repo.t)) (s : State E) :
  persist E store repoData s
  = match upsert store repoData (world s) with
    | (UpsertResolved (Some _), w) => (Normal tt, stored E w s)
    | (_, w) => (Normal tt, mkState w 1 (requests s) (planned s))
    end.
Proof.
  unfold persist, try_catch, bind, await_upsert.
  destruct (upsert store repoData (world s)) as [[|[d|]] w]; reflexivity.
Qed.

End MainFacts.

(** X10.  [main] never rejects, whatever its [fetchAllRepos] and the
    store do.  When [fetchAllRepos] yields a value, that value goes to
    the store in exactly one call, and the exit code is set to 1 when
    the call is rejected or answers with [data] set to [null], and left
    alone when it answers with an array; when [fetchAllRepos] rejects,
    the store is not called and the exit code is set to 1. *)
Theorem main_outcomes :
  forall (E : Env) (store : Store E)
         (fetchAllRepos : M E (option (list Repo.t))) (s : State E),
    fst (main E store fetchAllRepos s) <> Thrown
    /\ match fetchAllRepos s with
       | (Normal repoData, s1) =>
           match upsert store repoData (world s1) with
           | (UpsertResolved (Some _), w) =>
               main E store fetchAllRepos s = (Normal tt, stored E w s1)
           | (_, w) =>
               main E store fetchAllRepos s
               = (Normal tt, mkState w 1 (requests s1) (planned s1))
           end
       | (Thrown, s1) =>
           main E store fetchAllRepos s
           = (Normal tt, mkState (world s1) 1 (requests s1) (planned s1))
       | (Running, s1) => main E store fetchAllRepos s = (Running, s1)
       end.
Proof.
  intros E store fetchAll s. unfold main, try_catch, bind.
  destruct (fetchAll s) as [[repoData| |] s1].
  - rewrite persist_outcomes.
    destruct (upsert store repoData (world s1)) as [[|[d|]] w];
      (split; [discriminate | reflexivity]).
  - split; [discriminate | reflexivity].
  - split; [discriminate | reflexivity].
Qed.

Lemma Part001_undefined_has_exitCode (E : Env) (c : Constants) (n fuel : nat)
      (starCountStart : Z) (s s1 : State E) :
  Part001.fetchAllRepos E c n fuel starCountStart s = (Normal None, s1) ->
  exitCode s1 = 1.
Proof.
  unfold Part001.fetchAllRepos, try_catch, bind.
  destruct (Part001.outer_loop E c n fuel starCountStart [] s)
    as [[l| |] s0]; cbn; intros H; inversion H; subst; reflexivity.
Qed.

(** X11.  After a failed run the two scripts part ways.  In the
    364000-ceiling script [fetchAllRepos] has yielded [undefined], and
    [main] goes on to call the store with it; the exit code is 1
    whatever the store answers.  In [fetch-repos-stars.js]
    [fetchAllRepos] has rejected, and [main] sets the exit code to 1
    without calling the store. *)
Theorem main_after_a_failed_run :
  forall (E : Env) (store : Store E) (c : Constants) (n fuel : nat)
         (s s1 : State E),
    (Part001.fetchAllRepos E c n fuel Part001.STAR_MIN s = (Normal None, s1)
     -> Part001_main E store c n fuel s = persist E store None s1
        /\ world (snd (Part001_main E store c n fuel s))
           = snd (upsert store None (world s1))
        /\ exitCode (snd (Part001_main E store c n fuel s)) = 1)
    /\ (FetchReposStars.fetchAllRepos E c n fuel
          FetchReposStars.starCountStart_default s = (Thrown, s1)
        -> FetchReposStars_main E store c n fuel s
           = (Normal tt, mkState (world s1) 1 (requests s1) (planned s1))).
Proof.
  intros E store c n fuel s s1. split.
  - intros Hrun. pose proof (Part001_undefined_has_exitCode _ _ _ _ _ _ _ Hrun)
      as Hexit.
    assert (Hmain : Part001_main E store c n fuel s = persist E store None s1).
    { unfold Part001_main, main, try_catch, bind. rewrite Hrun.
      rewrite persist_outcomes.
      destruct (upsert store None (world s1)) as [[|[d|]] w]; reflexivity. }
    split; [exact Hmain|]. rewrite Hmain, persist_outcomes.
    destruct (upsert store None (world s1)) as [[|[d|]] w]; cbn;
      split; try reflexivity. exact Hexit.
  - intros Hrun. unfold FetchReposStars_main, main, try_catch, bind.
    rewrite Hrun. reflexivity.
Qed.

Lemma main_after_a_failed_run_witness :
  let E := dead_server in
  let store := echo_store E in
  (Part001_main E store Part001.constants 5 5 (fresh E tt)
   = persist E store None (mkState (tt : World E) 1 [rateLimitUrl] [])
   /\ exitCode (snd (Part001_main E store Part001.constants 5 5 (fresh E tt)))
      = 1)
  /\ FetchReposStars_main E store FetchReposStars.constants 5 5 (fresh E tt)
     = (Normal tt, mkState (tt : World E) 1 [rateLimitUrl] []).
Proof.
  intros E store. split.
  - destruct (main_after_a_failed_run E store Part001.constants 5 5
                (fresh E tt) (mkState (tt : World E) 1 [rateLimitUrl] []))
      as [H _].
    destruct H as (H1 & _ & H3); [vm_compute; reflexivity|].
    split; [exact H1 | exact H3].
  - destruct (main_after_a_failed_run E store FetchReposStars.constants 5 5
                (fresh E tt) (mkState (tt : World E) 0 [rateLimitUrl] []))
      as [_ H].
    apply H. vm_compute. reflexivity.
Defined.

(** ** The page walk: cycles and malformed headers *)

Section WalkEdges.
Context (E : Env).

Lemma self_link_loop (p : Page) (before : list LinkEntry) (e : LinkEntry)
      (after : list LinkEntry) :
  page_url p <> [] ->
  (forall w, exists w', fetch E (page_url p) w = (page_response p, w')) ->
  plain_page p ->
  Forall (fun e => URL_href E (entry_url e) <> None) (page_links p) ->
  page_links p = before ++ e :: after ->
  Forall (fun e => ~ is_next e) before ->
  is_next e ->
  URL_href E (entry_url e) = Some (page_url p) ->
  forall (fuel : nat) (acc : list Repo.t) (s : State E),
    exists s',
      pagination_loop E fuel (Some (page_url p)) acc s = (Running, s')
      /\ List.length (requests s') = (fuel + List.length (requests s))%nat.
Proof.
  intros Hne Hfetch Hplain Hurl Hlinks Hnot Hnext Hhref.
  induction fuel as [|fuel IH]; intros acc s.
  - exists s. split; [|reflexivity].
    cbn [pagination_loop]. destruct (page_url p); [congruence|reflexivity].
  - rewrite pagination_loop_S by exact Hne.
    destruct (Hfetch (world s)) as (w' & Hf).
    unfold bind.
    rewrite (page_of_inner E p s w' before e after (page_url p))
      by assumption.
    cbn [fst snd].
    destruct (IH (acc ++ page_records p) (requested (page_url p) w' s))
      as (s' & Hrun & Hlen).
    exists s'. split; [exact Hrun|]. rewrite Hlen. cbn. lia.
Qed.

Lemma scan_links_no_semicolon (link : jsstring) (rest : list jsstring) :
  ~ In ";"%char (trim link) -> scan_links E (link :: rest) = None.
Proof.
  intros H. cbn [scan_links]. rewrite (split_no_sep _ _ H).
  cbn [nth nth_error]. destruct (URL_href E _); reflexivity.
Qed.

End WalkEdges.

(** X12.  A page whose next link leads back to itself keeps the
    collector walking for ever: nothing in the loop remembers the URLs
    it has seen, so after any number of turns it is still running and
    has sent one request per turn.  This holds for the collectors of all
    three scripts, which share the loop. *)
Theorem self_link_walk_never_ends :
  forall (E : Env) (p : Page) (before : list LinkEntry) (e : LinkEntry)
         (after : list LinkEntry) (fuel : nat) (s : State E),
    page_url p <> [] ->
    (forall w, exists w', fetch E (page_url p) w = (page_response p, w')) ->
    plain_page p ->
    Forall (fun e => URL_href E (entry_url e) <> None) (page_links p) ->
    page_links p = before ++ e :: after ->
    Forall (fun e => ~ is_next e) before ->
    is_next e ->
    URL_href E (entry_url e) = Some (page_url p) ->
    exists s',
      Part001.fetchRepositoriesWithPagination E fuel (page_url p) s
      = (Running, s')
      /\ FetchReposStars.fetchRepositoriesWithPagination E fuel (page_url p) s
         = (Running, s')
      /\ Part000Run.fetchRepositoriesWithPagination E fuel (page_url p) s
         = (Running, s')
      /\ List.length (requests s') = (fuel + List.length (requests s))%nat.
Proof.
  intros E p before e after fuel s Hne Hfetch Hplain Hurl Hlinks Hnot Hnext
         Hhref.
  destruct (self_link_loop E p before e after Hne Hfetch Hplain Hurl Hlinks
              Hnot Hnext Hhref fuel [] s) as (s' & Hrun & Hlen).
  exists s'.
  unfold Part001.fetchRepositoriesWithPagination,
    FetchReposStars.fetchRepositoriesWithPagination,
    Part000Run.fetchRepositoriesWithPagination, try_catch, bind.
  rewrite Hrun. repeat split. exact Hlen.
Qed.

Lemma self_link_walk_never_ends_witness :
  let E := table_server [self_linked_page] in
  exists s',
    Part001.fetchRepositoriesWithPagination E 7 (page_url self_linked_page)
      (fresh E tt) = (Running, s')
    /\ FetchReposStars.fetchRepositoriesWithPagination E 7
         (page_url self_linked_page) (fresh E tt) = (Running, s')
    /\ Part000Run.fetchRepositoriesWithPagination E 7
         (page_url self_linked_page) (fresh E tt) = (Running, s')
    /\ List.length (requests s') = 7%nat.
Proof.
  intros E.
  apply (self_link_walk_never_ends E self_linked_page []
           (entry_to "https://h/s?page=1" "next") [] 7 (fresh E tt)).
  - discriminate.
  - intros w. exists tt. destruct w. reflexivity.
  - repeat constructor; cbn; intros H;
      repeat (destruct H as [H|H]; [discriminate|]); contradiction.
  - repeat constructor. discriminate.
  - reflexivity.
  - constructor.
  - reflexivity.
  - reflexivity.
Defined.

(** X13.  The collector reads a [Link] header only as far as its first
    entry with relation next: whatever follows that entry after a comma,
    well-formed or not, is never looked at and cannot make the walk
    fail. *)
Theorem entries_after_next_are_ignored :
  forall (E : Env) (before : list LinkEntry) (e : LinkEntry)
         (href rest : jsstring),
    Forall plain_entry (before ++ [e]) ->
    Forall (fun e => URL_href E (entry_url e) <> None) (before ++ [e]) ->
    Forall (fun e => ~ is_next e) before ->
    is_next e ->
    URL_href E (entry_url e) = Some href ->
    next_page E (Some (render_header (before ++ [e]) ++ ","%char :: rest))
    = Some (Some href).
Proof.
  intros E before e href rest Hplain Hurl Hnot Hnext Hhref.
  destruct (before ++ [e]) as [|e0 es] eqn:Hes.
  { destruct before; discriminate. }
  cbn [next_page].
  assert (Htruthy : truthy (render_header (e0 :: es) ++ ","%char :: rest)
                    = true).
  { pose proof (render_header_truthy e0 es) as H.
    destruct (render_header (e0 :: es)); [discriminate | reflexivity]. }
  rewrite Htruthy, split_app. apply scan_links_found.
  rewrite <- Hes in *.
  eapply scan_links_next; eauto.
  rewrite Hes. apply header_pieces. rewrite <- Hes. exact Hplain.
Qed.

Lemma entries_after_next_are_ignored_witness :
  next_page quiet_server
    (Some (render_header [entry_to "https://h/s?page=2" "next"]
           ++ ","%char :: str " not an entry at all"))
  = Some (Some (str "https://h/s?page=2")).
Proof.
  apply (entries_after_next_are_ignored quiet_server []
           (entry_to "https://h/s?page=2" "next")).
  - repeat constructor; cbn; intros H;
      repeat (destruct H as [H|H]; [discriminate|]); contradiction.
  - repeat constructor. discriminate.
  - constructor.
  - reflexivity.
  - reflexivity.
Defined.

(** X14.  When the first comma-separated piece of a [Link] header has no
    semicolon, the walk of the range fails at that page, even if a
    well-formed next entry follows: the collector of the 364000-ceiling
    script yields [undefined] and sets the exit code, that of
    [fetch-repos-stars.js] rejects, and the items of the page are lost
    with it. *)
Theorem piece_without_semicolon_fails_the_walk :
  forall (E : Env) (fuel : nat) (url : jsstring) (s : State E)
         (body : Body) (its : list RawItem.t) (header : jsstring)
         (w : World E),
    url <> [] ->
    fetch E url (world s) = (HttpResponse (Some body) (Some header), w) ->
    items body = Some its ->
    header <> [] ->
    ~ In ";"%char (trim (hd [] (split "," header))) ->
    Part001.fetchRepositoriesWithPagination E (S fuel) url s
    = (Normal None, mkState w 1 (url :: requests s) (planned s))
    /\ FetchReposStars.fetchRepositoriesWithPagination E (S fuel) url s
       = (Thrown, requested url w s).
Proof.
  intros E fuel url s body its header w Hurl Hf Hits Hne Hsemi.
  assert (Hnext : next_page E (Some header) = None).
  { cbn [next_page]. destruct header as [|ch header]; [congruence|].
    cbn [truthy].
    destruct (split_nonempty "," (ch :: header)) as (q & qs & Hsplit).
    rewrite Hsplit in *. cbn [hd] in Hsemi.
    apply scan_links_no_semicolon. exact Hsemi. }
  assert (Hpage : page E url s = (Thrown, requested url w s)).
  { unfold page, bind at 1. rewrite (await_fetch_response E _ _ _ _ _ Hf).
    cbn [response_json]. unfold bind at 1, ret at 1.
    unfold filterResponseData. rewrite Hits. cbn [of_option].
    unfold bind at 1, ret at 1. cbn [headers_get_Link]. rewrite Hnext.
    reflexivity. }
  assert (Hloop : pagination_loop E (S fuel) (Some url) [] s
                  = (Thrown, requested url w s)).
  { rewrite pagination_loop_S by exact Hurl. unfold bind. rewrite Hpage.
    reflexivity. }
  split.
  - unfold Part001.fetchRepositoriesWithPagination, try_catch, bind.
    rewrite Hloop. reflexivity.
  - unfold FetchReposStars.fetchRepositoriesWithPagination, try_catch.
    rewrite Hloop. reflexivity.
Qed.

Lemma piece_without_semicolon_fails_the_walk_witness :
  let header :=
    str "https://h/s?page=9, "
    ++ render_header [entry_to "https://h/s?page=2" "next"] in
  let body := mkBody (Some 1) (Some [repo_with_stars 5]) None in
  let E := header_server body header in
  let url := str "https://h/s?page=1" in
  Part001.fetchRepositoriesWithPagination E 3 url (fresh E tt)
  = (Normal None, mkState (tt : World E) 1 [url] [])
  /\ FetchReposStars.fetchRepositoriesWithPagination E 3 url (fresh E tt)
     = (Thrown, @requested E url tt (fresh E tt)).
Proof.
  intros header body E url.
  apply (piece_without_semicolon_fails_the_walk E 2 url (fresh E tt) body
           [repo_with_stars 5] header tt).
  - discriminate.
  - reflexivity.
  - reflexivity.
  - discriminate.
  - vm_compute. intros H.
    repeat (destruct H as [H|H]; [discriminate|]). contradiction.
Defined.

(** ** Waiting for the quota *)

Section BusyWait.
Context (E : Env) (console_log : World E -> World E).

Lemma busy_wait_returns (fuel : nat) :
  forall (reset : Z) (s s' : State E),
    Part000Run.busy_wait E console_log fuel reset s = (Normal tt, s') ->
    reset * 1000 <= Date_now E (world s') /\ requests s' = requests s.
Proof.
  induction fuel as [|fuel IH]; intros reset s s';
    cbn [Part000Run.busy_wait];
    destruct (Z.ltb_spec (Date_now E (world s)) (reset * 1000)) as [Hlt|Hge];
    try discriminate;
    try (intros Hrun; inversion Hrun; subst; split; [lia | reflexivity]).
  intros Hrun. apply IH in Hrun. exact Hrun.
Qed.

Lemma busy_wait_ticking (fuel : nat) :
  (forall w, Date_now E w < Date_now E (console_log w)) ->
  forall (reset : Z) (s : State E),
    reset * 1000 - Date_now E (world s) <= Z.of_nat fuel ->
    fst (Part000Run.busy_wait E console_log fuel reset s) = Normal tt.
Proof.
  intros Htick. induction fuel as [|fuel IH]; intros reset s Hfuel;
    cbn [Part000Run.busy_wait];
    destruct (Z.ltb_spec (Date_now E (world s)) (reset * 1000));
    try reflexivity; [lia|].
  apply IH. cbn [Part000Run.logged world].
  specialize (Htick (world s)). lia.
Qed.

Lemma busy_wait_stopped_clock (fuel : nat) :
  (forall w, Date_now E (console_log w) = Date_now E w) ->
  forall (reset : Z) (s : State E),
    Date_now E (world s) < reset * 1000 ->
    fst (Part000Run.busy_wait E console_log fuel reset s) = Running.
Proof.
  intros Hstop. induction fuel as [|fuel IH]; intros reset s Hnow;
    cbn [Part000Run.busy_wait];
    destruct (Z.ltb_spec (Date_now E (world s)) (reset * 1000));
    try reflexivity; try lia.
  apply IH. cbn [Part000Run.logged world]. rewrite Hstop. exact Hnow.
Qed.

End BusyWait.

(** X15.  The busy loop of the 500000-ceiling script ends only once
    [Date.now()] has reached [reset * 1000], and sends no request while
    it spins; it ends within as many turns as there are milliseconds to
    the reset when the clock moves on during every turn, and never when
    the clock stands still before the reset. *)
Theorem busy_wait_ends_at_the_reset :
  forall (E : Env) (console_log : World E -> World E) (fuel : nat)
         (reset : Z) (s : State E),
    (forall s',
        Part000Run.busy_wait E console_log fuel reset s = (Normal tt, s') ->
        reset * 1000 <= Date_now E (world s') /\ requests s' = requests s)
    /\ ((forall w, Date_now E w < Date_now E (console_log w)) ->
        reset * 1000 - Date_now E (world s) <= Z.of_nat fuel ->
        fst (Part000Run.busy_wait E console_log fuel reset s) = Normal tt)
    /\ ((forall w, Date_now E (console_log w) = Date_now E w) ->
        Date_now E (world s) < reset * 1000 ->
        fst (Part000Run.busy_wait E console_log fuel reset s) = Running).
Proof.
  intros E console_log fuel reset s. split; [|split].
  - intros s'. apply busy_wait_returns.
  - intros Htick. apply busy_wait_ticking. exact Htick.
  - intros Hstop. apply busy_wait_stopped_clock. exact Hstop.
Qed.

Lemma busy_wait_ends_at_the_reset_witness :
  let E := clock_server (mkBody (Some 0) (Some []) (Some ample)) in
  let s := fresh E (4995 : World E) in
  Part000Run.busy_wait E (fun now : World E => (now + 2 : World E)) 5 5 s
  = (Normal tt, mkState (5001 : World E) 0 [] [])
  /\ fst (Part000Run.busy_wait E (fun now : World E => (now + 2 : World E))
            5 5 s) = Normal tt
  /\ fst (Part000Run.busy_wait E (fun now : World E => now) 5 5 s) = Running.
Proof.
  intros E s. split; [vm_compute; reflexivity|].
  split.
  - apply (proj1 (proj2 (busy_wait_ends_at_the_reset E
                           (fun now : World E => (now + 2 : World E)) 5 5 s))).
    + intros w. cbn. lia.
    + vm_compute. discriminate.
  - apply (proj2 (proj2 (busy_wait_ends_at_the_reset E
                           (fun now : World E => now) 5 5 s))).
    + intros w. reflexivity.
    + vm_compute. reflexivity.
Defined.

Section Quota.
Context {E : Env}.

Lemma starts_with_await_fetch {A} (url : jsstring) (k : Response -> M E A)
      (bound : nat) :
  (forall r, adds_requests bound (k r)) ->
  starts_with_request url (bind (await_fetch url) k).
Proof.
  intros Hk s. unfold bind, await_fetch.
  destruct (fetch E url (world s)) as [[|json link] w].
  - exists []. reflexivity.
  - destruct (Hk (HttpResponse json link) (requested url w s))
      as (new & Hnew & _).
    exists new. rewrite Hnew. reflexivity.
Qed.

Lemma starts_with_bind {A B} (url : jsstring) (m : M E A) (k : A -> M E B)
      (bound : nat) :
  starts_with_request url m -> (forall a, adds_requests bound (k a)) ->
  starts_with_request url (bind m k).
Proof.
  intros Hm Hk s. unfold bind. destruct (Hm s) as (new & Hnew).
  destruct (m s) as [[a| |] s1]; cbn [snd] in *;
    try (exists new; exact Hnew).
  destruct (Hk a s1) as (new' & Hnew' & _).
  exists (new' ++ new). rewrite Hnew', Hnew, app_assoc. reflexivity.
Qed.

Lemma adds_of_option {A} (o : option A) : adds_requests 0 (@of_option E A o).
Proof. destruct o; [apply adds_ret | apply adds_throw]. Qed.

Lemma adds_sleep (ms : Number) : adds_requests 0 (@sleep E ms).
Proof. intros s. exists []. split; [reflexivity | apply le_n]. Qed.

Lemma adds_date_now : adds_requests 0 (@date_now E).
Proof. intros s. exists []. split; [reflexivity | apply le_n]. Qed.

Lemma adds_note_accepted (a : Accepted) :
  adds_requests 0 (@note_accepted E a).
Proof. intros s. exists []. split; [reflexivity | apply le_n]. Qed.

Lemma adds_set_exitCode (n : Z) : adds_requests 0 (@set_exitCode E n).
Proof. intros s. exists []. split; [reflexivity | apply le_n]. Qed.

Lemma adds_try_catch {A} (b1 b2 : nat) (body handler : M E A) :
  adds_requests b1 body -> adds_requests b2 handler ->
  adds_requests (b1 + b2) (try_catch body handler).
Proof.
  intros Hb Hh s. unfold try_catch. destruct (Hb s) as (new & Hnew & Hlen).
  destruct (body s) as [[a| |] s1]; cbn [snd] in *;
    try (exists new; split; [exact Hnew | lia]).
  destruct (Hh s1) as (new' & Hnew' & Hlen').
  exists (new' ++ new). split.
  - rewrite Hnew', Hnew, app_assoc. reflexivity.
  - rewrite length_app. lia.
Qed.

End Quota.

Section QuotaScripts.
Context (E : Env) (c : Constants).

Lemma adds_page (url : jsstring) : adds_requests 1 (page E url).
Proof.
  unfold page. change 1%nat with (1 + (0 + (0 + (0 + 0))))%nat.
  apply adds_bind; [apply adds_await_fetch|]. intros response.
  apply adds_bind; [apply adds_response_json|]. intros body.
  apply adds_bind; [apply adds_of_option|]. intros filtered.
  apply adds_bind; [apply adds_of_option|]. intros next.
  apply adds_ret.
Qed.

Lemma adds_pagination_loop (fuel : nat) :
  forall (next : option jsstring) (acc : list Repo.t),
    adds_requests fuel (pagination_loop E fuel next acc).
Proof.
  induction fuel as [|fuel IH]; intros [url|] acc; cbn [pagination_loop];
    try (apply adds_mono with (b := O); [lia | apply adds_ret]).
  - destruct (truthy url); [apply adds_running | apply adds_ret].
  - destruct (truthy url);
      [|apply adds_mono with (b := O); [lia | apply adds_ret]].
    change (S fuel) with (1 + fuel)%nat.
    apply adds_bind; [apply adds_page|]. intros r. apply IH.
Qed.

Lemma adds_Part001_fetchRepositoriesWithPagination (fuel : nat)
      (url : jsstring) :
  adds_requests fuel (Part001.fetchRepositoriesWithPagination E fuel url).
Proof.
  unfold Part001.fetchRepositoriesWithPagination.
  replace fuel with ((fuel + 0) + (0 + 0))%nat at 1 by lia.
  apply adds_try_catch.
  - apply adds_bind; [apply adds_pagination_loop|]. intros r. apply adds_ret.
  - apply adds_bind; [apply adds_set_exitCode|]. intros _. apply adds_ret.
Qed.

Lemma starts_with_waitForRateLimitReset (option : Z) :
  starts_with_request rateLimitUrl (Part001.waitForRateLimitReset E option).
Proof.
  unfold Part001.waitForRateLimitReset, fetchRateLimit.
  apply starts_with_bind with (bound := (0 + 0)%nat).
  - apply starts_with_await_fetch with (bound := (0 + 0)%nat).
    intros r. apply adds_bind; [apply adds_response_json|]. intros body.
    apply adds_of_option.
  - intros rl. destruct (_ || _); [|apply adds_mono with (b := O);
                                     [lia | apply adds_ret]].
    apply adds_bind; [apply adds_date_now|]. intros now. apply adds_sleep.
Qed.

End QuotaScripts.

(** X16.  Every turn of the 364000-ceiling script asks for the quota
    before it probes and again before it walks: the first request of
    each half of a turn goes to the rate-limit URL, and it is sent
    whether or not the rest of the half succeeds. *)
Theorem Part001_asks_for_the_quota_first :
  forall (E : Env) (c : Constants) (fuel : nat) (starCutoff : Z)
         (repoData : list Repo.t) (p : Planning) (s : State E),
    (exists probes,
        requests (snd (Part001.plan E c fuel starCutoff s))
        = probes ++ rateLimitUrl :: requests s)
    /\ (exists pages,
           requests (snd (Part001.collect E c fuel repoData p s))
           = pages ++ rateLimitUrl :: requests s).
Proof.
  intros E c fuel cutoff repoData p s. split.
  - apply (starts_with_bind rateLimitUrl
             (Part001.waitForRateLimitReset E 1) _ fuel).
    + apply starts_with_waitForRateLimitReset.
    + intros _. apply adds_Part001_shrink_loop.
  - apply (starts_with_bind rateLimitUrl
             (Part001.waitForRateLimitReset E 2) _ (0 + (fuel + 0))%nat).
    + apply starts_with_waitForRateLimitReset.
    + intros _. apply adds_bind; [apply adds_note_accepted|]. intros _.
      apply adds_bind;
        [apply adds_Part001_fetchRepositoriesWithPagination|].
      intros [l|]; [apply adds_ret | apply adds_throw].
Qed.

(** X17.  What the two options of [waitForRateLimitReset] wait for.
    With no quota left both set a timer; with a quota from 1 to 11 only
    option 1, the check before probing, sets one, and option 2, the
    check before a page walk, lets the walk start; with 12 or more
    neither sets one.  Each call sends one request, for the rate
    limit. *)
Theorem waitForRateLimitReset_options :
  forall (E : Env) (s : State E) (body : Body) (link : option jsstring)
         (w : World E) (rl : RateLimit),
    fetch E rateLimitUrl (world s) = (HttpResponse (Some body) link, w) ->
    resources_search body = Some rl ->
    let s1 := requested rateLimitUrl w s in
    (remaining rl = 0 ->
     (exists ms, Part001.waitForRateLimitReset E 1 s
                 = (Normal tt, slept ms s1))
     /\ (exists ms, Part001.waitForRateLimitReset E 2 s
                    = (Normal tt, slept ms s1)))
    /\ (0 < remaining rl < 12 ->
        (exists ms, Part001.waitForRateLimitReset E 1 s
                    = (Normal tt, slept ms s1))
        /\ Part001.waitForRateLimitReset E 2 s = (Normal tt, s1))
    /\ (12 <= remaining rl ->
        Part001.waitForRateLimitReset E 1 s = (Normal tt, s1)
        /\ Part001.waitForRateLimitReset E 2 s = (Normal tt, s1)).
Proof.
  intros E s body link w rl Hf Hrl s1.
  assert (Hrate : fetchRateLimit E s = (Normal rl, s1)).
  { unfold fetchRateLimit. rewrite (probe_body E _ _ _ _ _ _ Hf).
    rewrite Hrl. reflexivity. }
  pose proof (waitForRateLimitReset_policy E 1 s s1 rl Hrate) as H1.
  pose proof (waitForRateLimitReset_policy E 2 s s1 rl Hrate) as H2.
  unfold must_wait in H1, H2. cbn [Z.eqb Pos.eqb andb orb] in H1, H2.
  rewrite andb_true_r, andb_false_r, orb_false_r in H1.
  rewrite andb_false_r, andb_true_r in H2. cbn [orb] in H2.
  split; [|split]; intros Hrem.
  - destruct (Z.ltb_spec (remaining rl) 12); [|lia].
    destruct (Z.eqb_spec (remaining rl) 0); [|lia].
    split; eexists; eassumption.
  - destruct (Z.ltb_spec (remaining rl) 12); [|lia].
    destruct (Z.eqb_spec (remaining rl) 0); [lia|].
    split; [eexists; eassumption | assumption].
  - destruct (Z.ltb_spec (remaining rl) 12); [lia|].
    destruct (Z.eqb_spec (remaining rl) 0); [lia|].
    split; assumption.
Qed.

Lemma waitForRateLimitReset_options_witness :
  let body := mkBody None None (Some (mkRateLimit 30 5 2)) in
  let E := clock_server body in
  let s := fresh E (1000 : World E) in
  let s1 := @requested E rateLimitUrl (1001 : World E) s in
  (exists ms, Part001.waitForRateLimitReset E 1 s = (Normal tt, slept ms s1))
  /\ Part001.waitForRateLimitReset E 2 s = (Normal tt, s1).
Proof.
  intros body E s s1.
  apply (waitForRateLimitReset_options E s body None (1001 : World E)
           (mkRateLimit 30 5 2) eq_refl eq_refl).
  cbn. lia.
Defined.

(** ** What the scripts ask the search endpoint *)

Lemma query_url_nonempty (c : Constants) (r : ScalarRange) :
  query_url c r <> [].
Proof. unfold query_url, searchUrl, baseUrl. cbn. discriminate. Qed.

Lemma starts_with_pagination_loop (E : Env) (fuel : nat) (url : jsstring)
      (acc : list Repo.t) :
  url <> [] ->
  starts_with_request url (pagination_loop E (S fuel) (Some url) acc).
Proof.
  intros Hurl. rewrite pagination_loop_S by exact Hurl.
  unfold page.
  intros s. unfold bind at 1 2.
  destruct (@starts_with_await_fetch E _ url
              (fun response =>
                 data <- response_json response ;;
                 filtered <- of_option (filterResponseData data) ;;
                 next <- of_option (next_page E (headers_get_Link response)) ;;
                 ret (filtered, next))
              (0 + (0 + (0 + 0)))%nat) with (s := s) as (new & Hnew).
  { intros r. apply adds_bind; [apply adds_response_json|]. intros body.
    apply adds_bind; [apply adds_of_option|]. intros filtered.
    apply adds_bind; [apply adds_of_option|]. intros next. apply adds_ret. }
  unfold bind at 1 in Hnew.
  destruct (await_fetch url s) as [[response| |] s1]; cbn [snd] in *;
    try (exists new; exact Hnew).
  destruct ((data <- response_json response ;;
             filtered <- of_option (filterResponseData data) ;;
             next <- of_option (next_page E (headers_get_Link response)) ;;
             ret (filtered, next)) s1) as [[r| |] s2]; cbn [snd] in *;
    try (exists new; exact Hnew).
  destruct (adds_pagination_loop E fuel (snd r) (acc ++ fst r) s2)
    as (new' & Hnew' & _).
  exists (new' ++ new). rewrite Hnew', Hnew, app_assoc. reflexivity.
Qed.

(** X18.  In [fetch-repos-stars.js] the first page of every range is
    fetched twice in a row: the last request of the planning is the
    probe of the accepted range, and the first request of the page walk
    that follows is for the same URL. *)
Theorem FetchReposStars_fetches_the_first_page_twice :
  forall (E : Env) (c : Constants) (fuel : nat) (starCutoff : Z)
         (repoData : list Repo.t) (p : Planning) (s s1 : State E),
    FetchReposStars.plan E c fuel starCutoff s = (Normal p, s1) ->
    exists later earlier,
      requests (snd (FetchReposStars.collect E c fuel repoData p s1))
      = later ++ query_url c (starCountParsedRange p)
              :: query_url c (starCountParsedRange p) :: earlier.
Proof.
  intros E c fuel cutoff repoData p s s1 Hplan.
  unfold FetchReposStars.plan in Hplan.
  apply FetchReposStars_shrink_loop_fit in Hplan; [|reflexivity].
  destruct Hplan as (_ & Hhd & k & Hk & _).
  destruct fuel as [|fuel]; [lia|].
  assert (Hreq : exists earlier,
             requests s1 = query_url c (starCountParsedRange p) :: earlier).
  { destruct (requests s1) as [|u earlier]; cbn [hd] in Hhd.
    - exfalso. eapply query_url_nonempty. symmetry. exact Hhd.
    - exists earlier. rewrite Hhd. reflexivity. }
  destruct Hreq as (earlier & Hreq).
  assert (Hwalk : starts_with_request (query_url c (starCountParsedRange p))
                    (FetchReposStars.collect E c (S fuel) repoData p)).
  { assert (Hinner : starts_with_request
                       (query_url c (starCountParsedRange p))
                       (fetchedRepos <-
                          FetchReposStars.fetchRepositoriesWithPagination E
                            (S fuel) (query_url c (starCountParsedRange p)) ;;
                        push_spread E repoData (Some fetchedRepos))).
    2:{ unfold FetchReposStars.collect.
        intros s0. unfold bind at 1, note_accepted.
        exact (Hinner (noted _ s0)). }
    apply starts_with_bind with (bound := O).
    - intros s2. unfold FetchReposStars.fetchRepositoriesWithPagination,
        try_catch.
      destruct (starts_with_pagination_loop E fuel
                  (query_url c (starCountParsedRange p)) []
                  (query_url_nonempty c _) s2) as (new & Hnew).
      destruct (pagination_loop E (S fuel) _ [] s2) as [[l| |] s3];
        cbn [snd] in *; exists new; exact Hnew.
    - intros l. apply adds_ret. }
  destruct (Hwalk s1) as (later & Hlater).
  exists later, earlier. rewrite Hlater, Hreq. reflexivity.
Qed.

Lemma FetchReposStars_fetches_the_first_page_twice_witness :
  let E := table_server scenario_pages in
  let c := scenario_constants in
  exists p s1,
    FetchReposStars.plan E c 5 3499 (fresh E tt) = (Normal p, s1)
    /\ firstn 2 (requests (snd (FetchReposStars.collect E c 5 [] p s1)))
       = [query_url c (mkRange 3499 4298); query_url c (mkRange 3499 4298)]
    /\ exists later earlier,
         requests (snd (FetchReposStars.collect E c 5 [] p s1))
         = later ++ query_url c (starCountParsedRange p)
                 :: query_url c (starCountParsedRange p) :: earlier.
Proof.
  intros E c. eexists. eexists. split; [vm_compute; reflexivity|].
  split; [vm_compute; reflexivity|].
  eapply (FetchReposStars_fetches_the_first_page_twice E c 5 3499 []
            _ (fresh E tt)).
  vm_compute. reflexivity.
Defined.

Section ProbedRanges.
Context (E : Env) (c : Constants).
Hypothesis decrement_nonneg : 0 <= STAR_RANGE_DECREMENT c.

Lemma Part001_probes_within (top : Z) (fuel : nat) :
  forall (starCutoff : Z) (p : Planning) (s : State E),
    starCountParsedRange p
    = Part001.candidate c starCutoff (starCountRange p) ->
    high (starCountParsedRange p) <= top ->
    exists new,
      requests (snd (Part001.shrink_loop E c fuel starCutoff p s))
      = new ++ requests s
      /\ Forall (fun url => exists r, url = query_url c r
                                     /\ low r = starCutoff /\ high r <= top)
           new.
Proof.
  induction fuel as [|fuel IH]; intros cutoff p s Hp Htop.
  - exists []. split; [reflexivity | constructor].
  - assert (Hfirst : exists r, query_url c (starCountParsedRange p)
                               = query_url c r
                               /\ low r = cutoff /\ high r <= top).
    { exists (starCountParsedRange p). split; [reflexivity|].
      split; [rewrite Hp; reflexivity | exact Htop]. }
    rewrite Part001_shrink_loop_S. unfold bind at 1 2, await_fetch.
    destruct (fetch E _ (world s)) as [[|[body|] link] w];
      cbn [response_json]; unfold throw, ret; cbn [snd];
      try (eexists [_]; split; [reflexivity | constructor; [exact Hfirst
                                                            | constructor]]).
    destruct (_ || _);
      [eexists [_]; split; [reflexivity | constructor; [exact Hfirst
                                                        | constructor]]|].
    cbv zeta. destruct (cutoff =? _);
      [eexists [_]; split; [reflexivity | constructor; [exact Hfirst
                                                        | constructor]]|].
    destruct (js_gt _ _);
      [|eexists [_]; split; [reflexivity | constructor; [exact Hfirst
                                                         | constructor]]].
    match goal with
    | |- context [Part001.shrink_loop E c fuel cutoff ?p' ?s'] =>
        destruct (IH cutoff p' s') as (new & Hnew & Hall)
    end.
    + reflexivity.
    + rewrite Hp in Htop. unfold Part001.candidate in *. cbn in *. lia.
    + exists (new ++ [query_url c (starCountParsedRange p)]). split.
      * rewrite Hnew, <- app_assoc. reflexivity.
      * apply Forall_app. split; [exact Hall|].
        constructor; [exact Hfirst | constructor].
Qed.

Lemma FetchReposStars_probes_within (top : Z) (fuel : nat) :
  forall (starCutoff : Z) (p : Planning) (s : State E),
    starCountParsedRange p
    = FetchReposStars.candidate c starCutoff (starCountRange p) ->
    high (starCountParsedRange p) <= top ->
    exists new,
      requests (snd (FetchReposStars.shrink_loop E c fuel starCutoff p s))
      = new ++ requests s
      /\ Forall (fun url => exists r, url = query_url c r
                                     /\ low r = starCutoff /\ high r <= top)
           new.
Proof.
  induction fuel as [|fuel IH]; intros cutoff p s Hp Htop;
    destruct (still_searching c p) eqn:Hhead;
    try (rewrite FetchReposStars_shrink_loop_done by exact Hhead;
         exists []; split; [reflexivity | constructor]).
  - rewrite FetchReposStars_shrink_loop_O by exact Hhead.
    exists []. split; [reflexivity | constructor].
  - assert (Hfirst : exists r, query_url c (starCountParsedRange p)
                               = query_url c r
                               /\ low r = cutoff /\ high r <= top).
    { exists (starCountParsedRange p). split; [reflexivity|].
      split; [rewrite Hp; reflexivity | exact Htop]. }
    rewrite FetchReposStars_shrink_loop_S by exact Hhead.
    unfold bind at 1 2, await_fetch.
    destruct (fetch E _ (world s)) as [[|[body|] link] w];
      cbn [response_json]; unfold throw, ret; cbn [snd];
      try (eexists [_]; split; [reflexivity | constructor; [exact Hfirst
                                                            | constructor]]).
    destruct (js_le _ _);
      [eexists [_]; split; [reflexivity | constructor; [exact Hfirst
                                                        | constructor]]|].
    cbv zeta.
    match goal with
    | |- context [FetchReposStars.shrink_loop E c fuel cutoff ?p' ?s'] =>
        destruct (IH cutoff p' s') as (new & Hnew & Hall)
    end.
    + reflexivity.
    + rewrite Hp in Htop. unfold FetchReposStars.candidate in *.
      cbn in *. lia.
    + exists (new ++ [query_url c (starCountParsedRange p)]). split.
      * rewrite Hnew, <- app_assoc. reflexivity.
      * apply Forall_app. split; [exact Hall|].
        constructor; [exact Hfirst | constructor].
Qed.

End ProbedRanges.

(** X19.  With a decrement that is not negative, every probe of a
    planning round is for a range that starts at the cursor and ends no
    higher than the first candidate of the round: the planning only
    ever pulls the high bound in, and never asks about stars below the
    cursor.  This holds for the planning loops of the 364000-ceiling
    script and of [fetch-repos-stars.js], however they end. *)
Theorem planning_probes_from_the_cursor :
  forall (E : Env) (c : Constants) (fuel : nat) (starCutoff : Z)
         (s : State E),
    0 <= STAR_RANGE_DECREMENT c ->
    let first1 := Part001.candidate c starCutoff (INITIAL_STAR_RANGE c) in
    let firstA :=
      FetchReposStars.candidate c starCutoff (INITIAL_STAR_RANGE c) in
    (exists probes,
        requests
          (snd (Part001.shrink_loop E c fuel starCutoff
                  (mkPlanning (INITIAL_STAR_RANGE c) first1 empty_object) s))
        = probes ++ requests s
        /\ Forall (fun url => exists r, url = query_url c r
                                       /\ low r = starCutoff
                                       /\ high r <= high first1) probes)
    /\ (exists probes,
           requests
             (snd (FetchReposStars.shrink_loop E c fuel starCutoff
                     (mkPlanning (INITIAL_STAR_RANGE c) firstA empty_object)
                     s))
           = probes ++ requests s
           /\ Forall (fun url => exists r, url = query_url c r
                                          /\ low r = starCutoff
                                          /\ high r <= high firstA) probes).
Proof.
  intros E c fuel cutoff s Hdec first1 firstA. split.
  - apply (Part001_probes_within E c Hdec); [reflexivity | apply Z.le_refl].
  - apply (FetchReposStars_probes_within E c Hdec);
      [reflexivity | apply Z.le_refl].
Qed.

Lemma planning_probes_from_the_cursor_witness :
  let E := crowded_server in
  let c := Part001.constants in
  let first1 := Part001.candidate c 3499 3000 in
  exists probes,
    requests
      (snd (Part001.shrink_loop E c 10 3499
              (mkPlanning 3000 first1 empty_object) (fresh E tt)))
    = probes ++ []
    /\ Forall (fun url => exists r, url = query_url c r
                                   /\ low r = 3499 /\ high r <= 6498) probes.
Proof.
  intros E c first1.
  destruct (planning_probes_from_the_cursor E c 10 3499 (fresh E tt))
    as [H _].
  - vm_compute. discriminate.
  - exact H.
Defined.
